(** * Control plane of thakur-deploy: build and deploy pipeline

  A shallow embedding of the control-api services (SecurityService,
  EnvService, DeploymentService, BuildService, ProjectService), of the
  routes that call them and of the GitHub webhook handler, followed by
  the properties of the pipeline that the specification states.

  Conventions of the embedding:
  - a JavaScript string is the list of its UTF-16 code units;
  - an async service function is a computation in the monad [M]: it
    threads a [World] (database, commit history, outgoing requests)
    and either returns a value or throws; console output and WebSocket
    broadcasts are not part of the model;
  - every [await] on the database is a statement that the fault
    schedule of the world can make fail, and every statement issued on
    [db] outside [db.transaction] commits on its own;
  - a [World] is what one request sees while it is served alone;
    transactions that overlap, each on a connection of its own, are
    followed statement by statement in the section on overlapping
    transactions. *)

From Stdlib Require Import List NArith PeanoNat Bool String Ascii Lia.
From Stdlib Require Import DecimalString.
Import ListNotations.

Set Implicit Arguments.
Set Warnings "-abstract-large-number,-register-all".

(* ================================================================== *)
(** * JavaScript strings *)
(* ================================================================== *)

Module Js.

(** A string value: its sequence of UTF-16 code units. *)
Definition str := list N.

(** A string literal of the source (ASCII only). *)
Definition lit (s : string) : str :=
  map N_of_ascii (list_ascii_of_string s).

(** [a === b] on two strings. *)
Fixpoint eqb (a b : str) : bool :=
  match a, b with
  | [], [] => true
  | x :: a', y :: b' => (x =? y)%N && eqb a' b'
  | _, _ => false
  end.

(** [s.startsWith(p)]. *)
Fixpoint startsWith (s p : str) {struct p} : bool :=
  match p, s with
  | [], _ => true
  | _ :: _, [] => false
  | x :: p', y :: s' => (x =? y)%N && startsWith s' p'
  end.

(** [s.includes(p)]. *)
Fixpoint includes (s p : str) : bool :=
  startsWith s p ||
  match s with
  | [] => false
  | _ :: s' => includes s' p
  end.

(** WhiteSpace and LineTerminator code points of ECMAScript, the ones
    [String.prototype.trim] strips. *)
Definition isWhiteSpace (c : N) : bool :=
  existsb (N.eqb c)
    [9; 10; 11; 12; 13; 32; 160; 5760; 8232; 8233; 8239; 8287; 12288; 65279]%N
  || ((8192 <=? c) && (c <=? 8202))%N.

Fixpoint trimStart (s : str) : str :=
  match s with
  | [] => []
  | c :: s' => if isWhiteSpace c then trimStart s' else s
  end.

Definition trimEnd (s : str) : str := rev (trimStart (rev s)).

(** [s.trim()]. *)
Definition trim (s : str) : str := trimEnd (trimStart s).

(** [s.split(sep)] for a non-empty separator: the scan goes left to
    right, [cur] is the segment being read (reversed) and [skip] counts
    the code units of a matched separator still to be dropped. *)
Fixpoint split_from (sep : str) (skip : nat) (cur : str) (s : str)
  : list str :=
  match s with
  | [] => [rev cur]
  | c :: s' =>
      match skip with
      | S k => split_from sep k cur s'
      | O =>
          if startsWith s sep
          then rev cur :: split_from sep (List.length sep - 1) [] s'
          else split_from sep 0 (c :: cur) s'
      end
  end.

(** [s.split(sep)]; with the empty separator the string is cut into its
    code units. *)
Definition split (s sep : str) : list str :=
  match sep with
  | [] => map (fun c => [c]) s
  | _ :: _ => split_from sep 0 [] s
  end.

(** [parts.join(sep)]. *)
Fixpoint join (parts : list str) (sep : str) : str :=
  match parts with
  | [] => []
  | [p] => p
  | p :: ps => p ++ sep ++ join ps sep
  end.

(** [s.replace(pat, rep)] with a string pattern: only the first
    occurrence is replaced. *)
Fixpoint replace (s pat rep : str) : str :=
  if startsWith s pat then rep ++ skipn (List.length pat) s
  else match s with
       | [] => []
       | c :: s' => c :: replace s' pat rep
       end.

(** [s.slice(0, n)]. *)
Definition slice0 (s : str) (n : nat) : str := firstn n s.

(** Decimal text of a number, as template literals print it. *)
Definition ofNat (n : nat) : str :=
  lit (NilZero.string_of_uint (Nat.to_uint n)).

(** The double-quote character, as a one-character string. *)
Definition dquote : str := [34%N].

(** Truthiness of a string value: the empty string is falsy. *)
Definition truthy (s : str) : bool :=
  match s with [] => false | _ :: _ => true end.

(** Truthiness of a possibly missing ([undefined] or [null]) string. *)
Definition truthy_opt (s : option str) : bool :=
  match s with None => false | Some s' => truthy s' end.

End Js.

Abbreviation str := Js.str.
Abbreviation lit := Js.lit.

(* ================================================================== *)
(** * Values returned or thrown *)
(* ================================================================== *)

(** The outcome of a call: a value, or a thrown [Error] with its
  message. *)
Inductive Result (A : Type) : Type :=
| Ok (a : A)
| Throw (message : str).

Arguments Ok {A} a.
Arguments Throw {A} message.

(* ================================================================== *)
(** * SecurityService *)
(* ================================================================== *)

Module SecurityService.

Definition dangerousPatterns : list str :=
  map lit
    [ "rm -rf"; "sudo"; "wget"; "curl"; "eval"; "|"; ";"; ">"; "<";
      "/etc/passwd"; "/etc/shadow"; "/bin/sh"; "/bin/bash" ]%string.

Definition allowedPrefixes : list str :=
  map lit [ "npm"; "yarn"; "pnpm"; "bun"; "echo"; "ls" ]%string.

(** The first loop: the first dangerous pattern the command includes. *)
Definition firstDangerous (command : str) : option str :=
  find (fun pattern => Js.includes command pattern) dangerousPatterns.

(** The second loop: the first trimmed part that is not empty and starts
    with no allowed prefix. *)
Definition firstInvalidPart (commandParts : list str) : option str :=
  find (fun part =>
          Js.truthy part &&
          negb (existsb (fun prefix => Js.startsWith part prefix)
                  allowedPrefixes))
       commandParts.

Definition validateBuildCommand (command : str) : Result bool :=
  match firstDangerous command with
  | Some pattern =>
      Throw (lit "Command contains dangerous pattern: " ++ Js.dquote
             ++ pattern ++ Js.dquote)
  | None =>
      let commandParts := map Js.trim (Js.split command (lit "&&")) in
      match firstInvalidPart commandParts with
      | Some part =>
          Throw (lit "Each command must start with one of: "
                 ++ Js.join allowedPrefixes (lit ", ")
                 ++ lit ". Invalid: " ++ Js.dquote ++ part ++ Js.dquote)
      | None => Ok true
      end
  end.

(** The acceptance condition in the words of the specification: every
    non-empty segment of the split on [&&] begins with an allowed
    prefix, and the whole string contains no dangerous pattern. *)
Definition spec_accepts (command : str) : Prop :=
  (forall segment,
      In segment (Js.split command (lit "&&")) ->
      segment <> [] ->
      exists prefix rest,
        In prefix allowedPrefixes /\ segment = prefix ++ rest)
  /\ (forall pattern,
         In pattern dangerousPatterns ->
         ~ exists before after, command = before ++ pattern ++ after).

(** The acceptance condition of the code: every segment of the split on
    [&&] is, once trimmed, empty or begins with an allowed prefix, and the
    whole string contains no dangerous pattern. *)
Definition accepts (command : str) : Prop :=
  (forall segment,
      In segment (Js.split command (lit "&&")) ->
      Js.trim segment = [] \/
      exists prefix rest,
        In prefix allowedPrefixes /\ Js.trim segment = prefix ++ rest)
  /\ (forall pattern,
         In pattern dangerousPatterns ->
         ~ exists before after, command = before ++ pattern ++ after).

End SecurityService.

(* ================================================================== *)
(** * Database schema *)
(* ================================================================== *)

(** Row identifiers ([uuid] columns) are opaque: naturals stand for
    them. Timestamps are readings of the server clock. *)
Definition uuid := nat.
Definition timestamp := nat.
Definition bytes := list Byte.byte.

Fixpoint bytes_eqb (a b : bytes) : bool :=
  match a, b with
  | [], [] => true
  | x :: a', y :: b' => Byte.eqb x y && bytes_eqb a' b'
  | _, _ => false
  end.

Inductive AppType := nextjs | vite | express | hono | elysia.
Inductive BuildStatus := pending | building | success | failed.
Inductive DeploymentStatus := active | inactive.
Inductive LogLevel :=
  level_info | level_warning | level_error | level_success | level_deploy.

Record Project := mkProject {
  p_id : uuid;
  p_name : str;
  p_github_url : str;
  p_root_directory : option str;
  p_build_command : str;
  p_app_type : AppType;
  p_domain : option str;
  p_port : option nat;
  p_github_repo_id : option str;
  p_github_repo_full_name : option str;
  p_github_branch : option str;
  p_github_installation_id : option str;
  p_auto_deploy : bool;
  p_created_at : timestamp;
  p_updated_at : timestamp
}.

Record Build := mkBuild {
  b_id : uuid;
  b_project_id : uuid;
  b_status : BuildStatus;
  b_commit_sha : option str;
  b_commit_message : option str;
  b_logs : option str;
  b_artifact_id : option str;
  b_created_at : timestamp;
  b_completed_at : option timestamp
}.

Record Deployment := mkDeployment {
  d_id : uuid;
  d_project_id : uuid;
  d_build_id : uuid;
  d_status : DeploymentStatus;
  d_activated_at : timestamp
}.

Record EnvironmentVariable := mkEnvironmentVariable {
  e_id : uuid;
  e_project_id : uuid;
  e_key : str;
  e_value : str;
  e_created_at : timestamp;
  e_updated_at : timestamp
}.

Record BuildLog := mkBuildLog {
  l_id : uuid;
  l_build_id : uuid;
  l_level : LogLevel;
  l_message : str;
  l_timestamp : timestamp
}.

Record GithubInstallation := mkGithubInstallation {
  i_id : uuid;
  i_github_installation_id : str;
  i_account_login : str;
  i_account_id : str;
  i_account_type : str;
  i_created_at : timestamp
}.

(** The tables. *)
Record DB := mkDB {
  projects : list Project;
  builds : list Build;
  deployments : list Deployment;
  environmentVariables : list EnvironmentVariable;
  buildLogs : list BuildLog;
  githubInstallations : list GithubInstallation
}.

Definition emptyDB : DB := mkDB [] [] [] [] [] [].

Definition with_projects (v : list Project) (d : DB) : DB :=
  mkDB v (builds d) (deployments d) (environmentVariables d) (buildLogs d)
       (githubInstallations d).
Definition with_builds (v : list Build) (d : DB) : DB :=
  mkDB (projects d) v (deployments d) (environmentVariables d) (buildLogs d)
       (githubInstallations d).
Definition with_deployments (v : list Deployment) (d : DB) : DB :=
  mkDB (projects d) (builds d) v (environmentVariables d) (buildLogs d)
       (githubInstallations d).
Definition with_environmentVariables (v : list EnvironmentVariable) (d : DB)
  : DB :=
  mkDB (projects d) (builds d) (deployments d) v (buildLogs d)
       (githubInstallations d).
Definition with_buildLogs (v : list BuildLog) (d : DB) : DB :=
  mkDB (projects d) (builds d) (deployments d) (environmentVariables d) v
       (githubInstallations d).
Definition with_githubInstallations (v : list GithubInstallation) (d : DB)
  : DB :=
  mkDB (projects d) (builds d) (deployments d) (environmentVariables d)
       (buildLogs d) v.

Definition is_active (s : DeploymentStatus) : bool :=
  match s with active => true | inactive => false end.

Definition is_terminal (s : BuildStatus) : bool :=
  match s with success | failed => true | pending | building => false end.

Definition BuildStatus_eqb (a b : BuildStatus) : bool :=
  match a, b with
  | pending, pending | building, building
  | success, success | failed, failed => true
  | _, _ => false
  end.

(** SQL [=] on a nullable text column: [NULL] equals nothing. *)
Definition sql_eq (column : option str) (value : str) : bool :=
  match column with
  | Some v => Js.eqb v value
  | None => false
  end.

(* ================================================================== *)
(** * The world of a request and the monad of async functions *)
(* ================================================================== *)

(** What a remote service answers to one [fetch]. *)
Inductive HttpReply :=
| Reply (status : nat) (statusText : str) (text : str) (available : bool)
| NetworkError (message : str)
| Aborted.

(** The outgoing calls, with the main fields of their JSON bodies. *)
Inductive Request :=
| PortsCheck (port : nat)
| Activate (projectId buildId : uuid) (port : nat) (appType : AppType)
    (subdomain : str) (envVars : list (str * str))
| Stop (port : nat) (projectId buildId : uuid)
| ProjectDelete (projectId : uuid) (port : option nat) (subdomain : str)
    (buildIds : list uuid)
| TriggerBuild (build_id project_id : uuid) (build_command : str)
    (env_vars : list (str * str)).

(** [process.env], the part the control plane reads at call time. *)
Record Env := mkEnv {
  GITHUB_WEBHOOK_SECRET : option str;
  NODE_ENV : option str;
  BASE_DOMAIN : option str
}.

Record World := mkWorld {
  db : DB;                  (* the tables as this connection sees them *)
  commits : list DB;        (* every committed state, the latest first *)
  faults : list bool;       (* per database statement: does it fail? *)
  replies : list HttpReply; (* what the remote services will answer *)
  sent : list Request;      (* the calls made so far, the latest first *)
  clock : timestamp;
  uuids : uuid;             (* the next identifier [defaultRandom] gives *)
  entropy : nat -> Byte.byte; (* the source of [randomBytes] *)
  drawn : nat;
  env : Env;
  timingSafe : list (bytes * bytes)
    (* the comparisons made through [crypto.timingSafeEqual] *)
}.

Definition set_db (d : DB) (w : World) : World :=
  mkWorld d (commits w) (faults w) (replies w) (sent w) (clock w) (uuids w)
          (entropy w) (drawn w) (env w) (timingSafe w).
Definition set_commits (c : list DB) (w : World) : World :=
  mkWorld (db w) c (faults w) (replies w) (sent w) (clock w) (uuids w)
          (entropy w) (drawn w) (env w) (timingSafe w).
Definition set_faults (f : list bool) (w : World) : World :=
  mkWorld (db w) (commits w) f (replies w) (sent w) (clock w) (uuids w)
          (entropy w) (drawn w) (env w) (timingSafe w).
Definition set_replies (r : list HttpReply) (w : World) : World :=
  mkWorld (db w) (commits w) (faults w) r (sent w) (clock w) (uuids w)
          (entropy w) (drawn w) (env w) (timingSafe w).
Definition set_sent (s : list Request) (w : World) : World :=
  mkWorld (db w) (commits w) (faults w) (replies w) s (clock w) (uuids w)
          (entropy w) (drawn w) (env w) (timingSafe w).
Definition set_clock (c : timestamp) (w : World) : World :=
  mkWorld (db w) (commits w) (faults w) (replies w) (sent w) c (uuids w)
          (entropy w) (drawn w) (env w) (timingSafe w).
Definition set_uuids (u : uuid) (w : World) : World :=
  mkWorld (db w) (commits w) (faults w) (replies w) (sent w) (clock w) u
          (entropy w) (drawn w) (env w) (timingSafe w).
Definition set_drawn (n : nat) (w : World) : World :=
  mkWorld (db w) (commits w) (faults w) (replies w) (sent w) (clock w)
          (uuids w) (entropy w) n (env w) (timingSafe w).

Definition set_timingSafe (l : list (bytes * bytes)) (w : World) : World :=
  mkWorld (db w) (commits w) (faults w) (replies w) (sent w) (clock w)
          (uuids w) (entropy w) (drawn w) (env w) l.

(** An async function: it runs in a world, changes it, and returns or
    throws. What it changed before throwing stays changed. *)
Definition M (A : Type) : Type := World -> Result A * World.

Definition ret {A} (a : A) : M A := fun w => (Ok a, w).

Definition bind {A B} (m : M A) (k : A -> M B) : M B :=
  fun w =>
    match m w with
    | (Ok a, w') => k a w'
    | (Throw e, w') => (Throw e, w')
    end.

Definition throw {A} (message : str) : M A := fun w => (Throw message, w).

(** [try { m } catch (e) { handler e }]. *)
Definition try_catch {A} (m : M A) (handler : str -> M A) : M A :=
  fun w =>
    match m w with
    | (Ok a, w') => (Ok a, w')
    | (Throw e, w') => handler e w'
    end.

Declare Scope monad_scope.
Delimit Scope monad_scope with monad.
Notation "x <- m ;; k" := (bind m (fun x => k))
  (at level 61, m at next level, right associativity) : monad_scope.
Notation "m ;; k" := (bind m (fun _ => k))
  (at level 61, right associativity) : monad_scope.
Open Scope monad_scope.

(** A pure call that may throw, inside an async function. *)
Definition lift {A} (r : Result A) : M A := fun w => (r, w).

(** The message of the error a failing database statement throws. *)
Definition db_error : str := lit "database statement failed".

(** The next entry of the fault schedule; an exhausted schedule means no
    further faults. *)
Definition statement {A} (run : World -> Result A * World) : M A :=
  fun w =>
    match faults w with
    | true :: later => (Throw db_error, set_faults later w)
    | false :: later => run (set_faults later w)
    | [] => run w
    end.

(** [await db.select()...]: a read. *)
Definition query {A} (read : DB -> A) : M A :=
  statement (fun w => (Ok (read (db w)), w)).

(** [await db.insert/update/delete...] on [db]: the statement commits on
    its own. *)
Definition execute {A} (write : DB -> A * DB) : M A :=
  statement (fun w =>
    let (a, d) := write (db w) in
    (Ok a, set_commits (d :: commits w) (set_db d w))).

(** [await tx.insert/update/delete...] inside [db.transaction]: nothing is
    committed yet. *)
Definition tx_execute {A} (write : DB -> A * DB) : M A :=
  statement (fun w =>
    let (a, d) := write (db w) in
    (Ok a, set_db d w)).

(** [await db.transaction(async (tx) => body)]: commit once when the body
    returns, roll back to the state at BEGIN when it throws. *)
Definition transaction {A} (body : M A) : M A :=
  fun w =>
    match body w with
    | (Ok a, w') => (Ok a, set_commits (db w' :: commits w') w')
    | (Throw e, w') => (Throw e, set_db (db w) w')
    end.

(** [new Date()] and [defaultNow()]: read the clock, which moves on. *)
Definition now : M timestamp :=
  fun w => (Ok (clock w), set_clock (S (clock w)) w).

(** [defaultRandom()] of a [uuid] primary key. *)
Definition fresh_uuid : M uuid :=
  fun w => (Ok (uuids w), set_uuids (S (uuids w)) w).

(** [randomBytes(n)]. *)
Definition randomBytes (n : nat) : M bytes :=
  fun w =>
    (Ok (map (fun i => entropy w (drawn w + i)) (seq 0 n)),
     set_drawn (drawn w + n) w).

(** The response of a [fetch] that did not throw. *)
Record Response := mkResponse {
  res_status : nat;
  res_statusText : str;
  res_text : str;
  res_available : bool
}.

Definition res_ok (r : Response) : bool :=
  (200 <=? res_status r) && (res_status r <=? 299).

(** [await fetch(...)]: the request is recorded and the next reply is
    consumed; with no reply left the service is unreachable. An aborted
    request throws the [AbortError], recognised by its message. *)
Definition abort_message : str := lit "The operation was aborted.".

Definition fetch (request : Request) : M Response :=
  fun w =>
    let w1 := set_sent (request :: sent w) w in
    match replies w with
    | Reply status statusText text available :: later =>
        (Ok (mkResponse status statusText text available),
         set_replies later w1)
    | NetworkError message :: later => (Throw message, set_replies later w1)
    | Aborted :: later => (Throw abort_message, set_replies later w1)
    | [] => (Throw (lit "fetch failed"), w1)
    end.

(** [await read(process.env)]. *)
Definition getenv {A} (field : Env -> A) : M A :=
  fun w => (Ok (field (env w)), w).

(* ================================================================== *)
(** * The platform: node:crypto, text encodings, JSON *)
(* ================================================================== *)

(** Hexadecimal text of buffers. *)
Module Hex.

Definition digit (n : N) : N :=
  if (n <? 10)%N then (48 + n)%N else (87 + n)%N.

Definition ofByte (b : Byte.byte) : str :=
  let n := Byte.to_N b in [digit (n / 16); digit (n mod 16)].

(** [buffer.toString('hex')]. *)
Definition encode (b : bytes) : str := flat_map ofByte b.

Definition value (c : N) : option N :=
  if ((48 <=? c) && (c <=? 57))%N then Some (c - 48)%N
  else if ((97 <=? c) && (c <=? 102))%N then Some (c - 87)%N
  else if ((65 <=? c) && (c <=? 70))%N then Some (c - 55)%N
  else None.

(** [Buffer.from(s, 'hex')]: pairs of digits are read until the first
    pair that is not hexadecimal; a trailing single digit is dropped. *)
Fixpoint decode (s : str) : bytes :=
  match s with
  | h :: l :: s' =>
      match value h, value l with
      | Some x, Some y =>
          match Byte.of_N (16 * x + y) with
          | Some b => b :: decode s'
          | None => []
          end
      | _, _ => []
      end
  | _ => []
  end.

End Hex.

(** The payload of a GitHub webhook after [JSON.parse], with the
    properties the handler reads. A property that may be absent is an
    option; numbers the handler prints with [toString()] are held as
    their text. *)
Record AccountPayload := mkAccountPayload {
  ac_login : str;
  ac_id : str;
  ac_type : str
}.

Record InstallationPayload := mkInstallationPayload {
  ip_id : option str;
  ip_account : option AccountPayload
}.

Record RepositoryPayload := mkRepositoryPayload {
  rp_id : str;
  rp_full_name : str
}.

Record Payload := mkPayload {
  pl_action : option str;
  pl_installation : option InstallationPayload;
  pl_ref : option str;
  pl_repository : option RepositoryPayload;
  pl_after : option str;
  pl_head_commit_message : option str
}.

(** What the runtime provides and the repository does not define. *)
Class Platform := {
  (* [process.env.ENCRYPTION_KEY], read once when env-service is loaded *)
  ENCRYPTION_KEY : str;
  (* aes-256-gcm under a key and a nonce: ciphertext and tag, or a throw *)
  aes_256_gcm_encrypt : str -> bytes -> bytes -> option (bytes * bytes);
  (* key, nonce, tag, ciphertext: the plaintext when the tag verifies *)
  aes_256_gcm_decrypt : str -> bytes -> bytes -> bytes -> option bytes;
  utf8_encode : str -> bytes;
  utf8_decode : bytes -> str;
  (* [createHmac('sha256', secret).update(payload).digest()] *)
  hmac_sha256 : str -> str -> bytes;
  toLowerCase : str -> str;
  JSON_parse : str -> option Payload
}.

(** [acc[key] = value] on a plain object used as a record. *)
Fixpoint record_set (o : list (str * str)) (key value : str)
  : list (str * str) :=
  match o with
  | [] => [(key, value)]
  | (k, v) :: o' =>
      if Js.eqb k key then (k, value) :: o'
      else (k, v) :: record_set o' key value
  end.

(* ================================================================== *)
(** * EnvService *)
(* ================================================================== *)

Module EnvService.
Section WithPlatform.
Context {platform : Platform}.

Definition colon : str := lit ":".

Definition isColon (c : N) : bool := (c =? 58)%N.

(** [encrypt] once [randomBytes(12)] has given [iv]. *)
Definition encrypt_with (iv : bytes) (text : str) : Result str :=
  match aes_256_gcm_encrypt ENCRYPTION_KEY iv (utf8_encode text) with
  | None => Throw (lit "Invalid key length")
  | Some (encrypted, authTag) =>
      Ok (Hex.encode iv ++ colon ++ Hex.encode authTag ++ colon
          ++ Hex.encode encrypted)
  end.

Definition encrypt (text : str) : M str :=
  iv <- randomBytes 12 ;;
  lift (encrypt_with iv text).

(** [decrypt]. The nonce and the tag go through [Buffer.from(_, 'hex')];
    the ciphertext goes through [decipher.update(_, 'hex', 'utf8')],
    which throws on a hexadecimal text of odd length. Whatever is thrown
    inside the [try] makes the [catch] return the stored text. *)
Definition decrypt (text : str) : str :=
  if negb (Js.includes text colon) then text
  else
    match Js.split text colon with
    | ivHex :: authTagHex :: encryptedHex :: _ =>
        if negb (Js.truthy ivHex) || negb (Js.truthy authTagHex) then text
        else if Nat.odd (List.length encryptedHex) then text
        else
          match aes_256_gcm_decrypt ENCRYPTION_KEY (Hex.decode ivHex)
                  (Hex.decode authTagHex) (Hex.decode encryptedHex) with
          | Some decrypted => utf8_decode decrypted
          | None => text
          end
    | _ => text
    end.

Definition getAll (projectId : uuid) : M (list EnvironmentVariable) :=
  vars <- query (fun d =>
            filter (fun v => e_project_id v =? projectId)
                   (environmentVariables d)) ;;
  ret (map (fun v =>
              mkEnvironmentVariable (e_id v) (e_project_id v) (e_key v)
                (decrypt (e_value v)) (e_created_at v) (e_updated_at v))
           vars).

Definition getAsRecord (projectId : uuid) : M (list (str * str)) :=
  vars <- getAll projectId ;;
  ret (fold_left (fun acc v => record_set acc (e_key v) (e_value v))
                 vars []).

(** The rows the unique index on [(project_id, key)] sets against an
    insertion. *)
Definition conflicts (projectId : uuid) (key : str)
  (v : EnvironmentVariable) : bool :=
  (e_project_id v =? projectId) && Js.eqb (e_key v) key.

(** The [INSERT ... ON CONFLICT (project_id, key) DO UPDATE SET value]
    of [create]: [inserted] is the value of the proposed row, [updated]
    the one of the [set] clause. *)
Definition upsert (id projectId : uuid) (key inserted updated : str)
  (t : timestamp) (d : DB) : DB :=
  with_environmentVariables
    (if existsb (conflicts projectId key) (environmentVariables d)
     then map (fun v =>
                 if conflicts projectId key v
                 then mkEnvironmentVariable (e_id v) (e_project_id v)
                        (e_key v) updated (e_created_at v) (e_updated_at v)
                 else v)
              (environmentVariables d)
     else environmentVariables d
          ++ [mkEnvironmentVariable id projectId key inserted t t])
    d.

(** [create]: the value is encrypted twice, once for the row to insert
    and once for the [set] clause, before the statement is sent. *)
Definition create (projectId : uuid) (key value : str)
  : M (option EnvironmentVariable) :=
  inserted <- encrypt value ;;
  updated <- encrypt value ;;
  id <- fresh_uuid ;;
  t <- now ;;
  result <- execute (fun d =>
    let d' := upsert id projectId key inserted updated t d in
    (filter (conflicts projectId key) (environmentVariables d'), d')) ;;
  ret (hd_error result).

Definition delete (projectId : uuid) (key : str) : M bool :=
  execute (fun d =>
    (tt, with_environmentVariables
           (filter (fun v => negb (conflicts projectId key v))
                   (environmentVariables d)) d)) ;;
  ret true.

End WithPlatform.
End EnvService.

(** [ORDER BY] on the rows a query selects: [before a b] says that [a]
    may come before [b]. Rows the order does not tell apart stay in the
    order of the table. *)
Fixpoint insertBy {A} (before : A -> A -> bool) (x : A) (l : list A)
  : list A :=
  match l with
  | [] => [x]
  | y :: l' => if before y x then y :: insertBy before x l' else x :: l
  end.

Definition orderBy {A} (before : A -> A -> bool) (rows : list A) : list A :=
  fold_left (fun sorted x => insertBy before x sorted) rows [].

(* ================================================================== *)
(** * LogService *)
(* ================================================================== *)

Module LogService.

Definition persist (buildId : uuid) (message : str) (level : LogLevel)
  : M unit :=
  id <- fresh_uuid ;;
  t <- now ;;
  execute (fun d =>
    (tt, with_buildLogs (buildLogs d ++ [mkBuildLog id buildId level message t])
                        d)).

Definition getLogs (buildId : uuid) : M (list BuildLog) :=
  query (fun d =>
    orderBy (fun a b => l_timestamp a <=? l_timestamp b)
      (filter (fun l => l_build_id l =? buildId) (buildLogs d))).

Definition clearLogs (buildId : uuid) : M unit :=
  execute (fun d =>
    (tt, with_buildLogs
           (filter (fun l => negb (l_build_id l =? buildId)) (buildLogs d))
           d)).

(** [getLogsAsText]: the messages of the stream, one after the other. *)
Definition getLogsAsText (buildId : uuid) : M str :=
  logs <- getLogs buildId ;;
  ret (Js.join (map l_message logs) []).

End LogService.

(* ================================================================== *)
(** * ProjectService *)
(* ================================================================== *)

(** [name.replace(/[^a-z0-9-]/g, '-').replace(/^-+|-+$/g, '')]. *)
Definition slug_unit (c : N) : N :=
  if ((97 <=? c) && (c <=? 122) || (48 <=? c) && (c <=? 57) || (c =? 45))%N
  then c else 45%N.

Fixpoint dropDashes (s : str) : str :=
  match s with
  | [] => []
  | c :: s' => if (c =? 45)%N then dropDashes s' else s
  end.

Definition slugify {platform : Platform} (name : str) : str :=
  rev (dropDashes (rev (dropDashes (map slug_unit (toLowerCase name))))).

(** [project.domain?.split('.')[0] || slug of project.name]. *)
Definition subdomainOf {platform : Platform} (project : Project) : str :=
  let first :=
    match p_domain project with
    | Some domain => hd [] (Js.split domain (lit "."))
    | None => []
    end in
  if Js.truthy first then first else slugify (p_name project).

(** Truthiness of a nullable port: [null] and [0] are falsy. *)
Definition truthy_port (port : option nat) : option nat :=
  match port with
  | Some (S n) => Some (S n)
  | _ => None
  end.

(** The body of [POST /projects], which is also the argument of
    [ProjectService.create]. *)
Record ProjectData := mkProjectData {
  pd_name : str;
  pd_github_url : str;
  pd_root_directory : option str;
  pd_build_command : str;
  pd_app_type : AppType;
  pd_domain : option str;
  pd_env_vars : option (list (str * str));
  pd_github_repo_id : option str;
  pd_github_repo_full_name : option str;
  pd_github_branch : option str;
  pd_github_installation_id : option str;
  pd_auto_deploy : option bool
}.

(** The body of [PUT /projects/:id]: a partial update. *)
Record ProjectPatch := mkProjectPatch {
  pp_name : option str;
  pp_github_url : option str;
  pp_build_command : option str;
  pp_app_type : option AppType;
  pp_root_directory : option str;
  pp_domain : option str;
  pp_auto_deploy : option bool
}.

Definition or_else {A} (o : option A) (default : A) : A :=
  match o with Some a => a | None => default end.

(** [MAX(port)] over the projects; [NULL] over no port. *)
Definition maxPort (rows : list Project) : option nat :=
  fold_left (fun acc p =>
               match p_port p, acc with
               | Some x, Some y => Some (Nat.max x y)
               | Some x, None => Some x
               | None, _ => acc
               end) rows None.

Module ProjectService.
Section WithPlatform.
Context {platform : Platform}.

Definition getAll : M (list Project) := query projects.

Definition getById (id : uuid) : M (option Project) :=
  result <- query (fun d => filter (fun p => p_id p =? id) (projects d)) ;;
  ret (hd_error result).

(** The availability loop of [create]. Each turn consumes one reply of
    the deploy engine, so a fuel one above the number of replies left is
    never used up; see [findPort]. *)
Fixpoint portLoop (fuel : nat) (nextPort : nat) : M nat :=
  match fuel with
  | 0 => throw (lit "Deploy Engine unreachable for port check")
  | S fuel' =>
      available <-
        try_catch
          (res <- fetch (PortsCheck nextPort) ;;
           ret (if res_ok res then res_available res else false))
          (fun _ => throw (lit "Deploy Engine unreachable for port check")) ;;
      if (available : bool) then ret nextPort
      else portLoop fuel' (S nextPort)
  end.

Definition findPort (nextPort : nat) : M nat :=
  fun w => portLoop (S (List.length (replies w))) nextPort w.

(** The [for ... of Object.entries(data.env_vars)] of [create]. *)
Fixpoint insertEnvVars (projectId : uuid) (entries : list (str * str))
  : M unit :=
  match entries with
  | [] => ret tt
  | (key, value) :: rest =>
      encryptedValue <- EnvService.encrypt value ;;
      id <- fresh_uuid ;;
      t <- now ;;
      tx_execute (fun d =>
        (tt, with_environmentVariables
               (environmentVariables d
                ++ [mkEnvironmentVariable id projectId key encryptedValue t t])
               d)) ;;
      insertEnvVars projectId rest
  end.

Definition create (data : ProjectData) : M Project :=
  resultMax <- query (fun d => maxPort (projects d)) ;;
  let basePort := 8000 in
  let nextPort := or_else (truthy_port resultMax) (basePort - 1) + 1 in
  nextPort <- findPort nextPort ;;
  production <- getenv NODE_ENV ;;
  baseDomain <- getenv BASE_DOMAIN ;;
  let domain :=
    match pd_domain data with
    | Some d => if Js.truthy (Js.trim d) then Some (Js.trim d) else None
    | None => None
    end in
  let domain :=
    match domain with
    | None =>
        if sql_eq production (lit "production")
        then Some (slugify (pd_name data) ++ lit "."
                   ++ (if Js.truthy_opt baseDomain
                       then or_else baseDomain [] else lit "thakur.dev"))
        else None
    | Some d => Some d
    end in
  transaction (
    id <- fresh_uuid ;;
    t <- now ;;
    let row :=
      mkProject id (pd_name data) (pd_github_url data)
        (match pd_root_directory data with
         | Some r => Some r | None => Some (lit "./") end)
        (pd_build_command data) (pd_app_type data) domain (Some nextPort)
        (pd_github_repo_id data) (pd_github_repo_full_name data)
        (Some (if Js.truthy_opt (pd_github_branch data)
               then or_else (pd_github_branch data) [] else lit "main"))
        (pd_github_installation_id data)
        (or_else (pd_auto_deploy data) true) t t in
    tx_execute (fun d => (tt, with_projects (projects d ++ [row]) d)) ;;
    match pd_env_vars data with
    | Some env_vars => insertEnvVars id env_vars
    | None => ret tt
    end ;;
    ret row).

Definition patch (data : ProjectPatch) (t : timestamp) (p : Project)
  : Project :=
  mkProject (p_id p)
    (or_else (pp_name data) (p_name p))
    (or_else (pp_github_url data) (p_github_url p))
    (match pp_root_directory data with
     | Some r => Some r | None => p_root_directory p end)
    (or_else (pp_build_command data) (p_build_command p))
    (or_else (pp_app_type data) (p_app_type p))
    (match pp_domain data with
     | Some d => if Js.truthy (Js.trim d) then Some d else None
     | None => p_domain p
     end)
    (p_port p) (p_github_repo_id p) (p_github_repo_full_name p)
    (p_github_branch p) (p_github_installation_id p)
    (or_else (pp_auto_deploy data) (p_auto_deploy p))
    (p_created_at p) t.

Definition update (id : uuid) (data : ProjectPatch) : M (option Project) :=
  t <- now ;;
  result <- execute (fun d =>
    let rows := map (fun p => if p_id p =? id then patch data t p else p)
                    (projects d) in
    (filter (fun p => p_id p =? id) rows, with_projects rows d)) ;;
  ret (hd_error result).

(** The cleanup call of [delete]: whatever the deploy engine answers, and
    whether or not it answers, the deletion goes on. *)
Definition cleanup (project : Project) (buildIds : list uuid) : M unit :=
  try_catch
    (_ <- fetch (ProjectDelete (p_id project) (p_port project)
                   (subdomainOf project) buildIds) ;;
     ret tt)
    (fun _ => ret tt).

(** [DELETE] on builds; the rows of build_logs that reference a deleted
    build go with it ([onDelete: 'cascade'] in the schema). *)
Definition deleteBuildsOf (id : uuid) (d : DB) : DB :=
  let gone := filter (fun b => b_project_id b =? id) (builds d) in
  with_buildLogs
    (filter (fun l => negb (existsb (fun b => b_id b =? l_build_id l) gone))
            (buildLogs d))
    (with_builds (filter (fun b => negb (b_project_id b =? id)) (builds d))
                 d).

Definition delete (id : uuid) : M (option Project) :=
  project <- getById id ;;
  match project with
  | None => ret None
  | Some project =>
      projectBuilds <- query (fun d =>
        filter (fun b => b_project_id b =? id) (builds d)) ;;
      let buildIds := map b_id projectBuilds in
      cleanup project buildIds ;;
      execute (fun d =>
        (tt, with_environmentVariables
               (filter (fun v => negb (e_project_id v =? id))
                       (environmentVariables d)) d)) ;;
      execute (fun d =>
        (tt, with_deployments
               (filter (fun x => negb (d_project_id x =? id))
                       (deployments d)) d)) ;;
      execute (fun d => (tt, deleteBuildsOf id d)) ;;
      deletedProject <- execute (fun d =>
        (filter (fun p => p_id p =? id) (projects d),
         with_projects (filter (fun p => negb (p_id p =? id)) (projects d))
                       d)) ;;
      match deletedProject with
      | [] => throw (lit "Failed to delete project from database")
      | _ :: _ =>
          verifyProject <- getById id ;;
          match verifyProject with
          | Some _ => throw (lit "Failed to delete project from database")
          | None => ret (Some project)
          end
      end
  end.

End WithPlatform.
End ProjectService.

(* ================================================================== *)
(** * DeploymentService *)
(* ================================================================== *)

Module DeploymentService.
Section WithPlatform.
Context {platform : Platform}.

(** The first statement of the transaction of [activateBuild]: every
    active deployment of the project becomes inactive. *)
Definition deactivate (projectId : uuid) (d : DB) : DB :=
  with_deployments
    (map (fun x =>
            if (d_project_id x =? projectId) && is_active (d_status x)
            then mkDeployment (d_id x) (d_project_id x) (d_build_id x)
                   inactive (d_activated_at x)
            else x)
         (deployments d))
    d.

(** The second statement: the new active deployment record. *)
Definition insertActive (id projectId buildId : uuid) (t : timestamp)
  (d : DB) : DB :=
  with_deployments
    (deployments d ++ [mkDeployment id projectId buildId active t]) d.

(** Both statements together: the state the transaction commits. *)
Definition promote (id projectId buildId : uuid) (t : timestamp) (d : DB)
  : DB :=
  insertActive id projectId buildId t (deactivate projectId d).

Definition activateBuild (projectId buildId : uuid) : M bool :=
  project <- query (fun d => find (fun p => p_id p =? projectId) (projects d)) ;;
  match project with
  | None => throw (lit "Project not found")
  | Some project =>
      match truthy_port (p_port project) with
      | None => throw (lit "Project has no assigned port")
      | Some port =>
          envVarsObject <- EnvService.getAsRecord projectId ;;
          res <- fetch (Activate (p_id project) buildId port
                          (p_app_type project) (subdomainOf project)
                          envVarsObject) ;;
          (if negb (res_ok res)
           then throw (lit "Deploy Engine activation failed: "
                       ++ res_text res)
           else ret tt) ;;
          transaction (
            tx_execute (fun d => (tt, deactivate projectId d)) ;;
            id <- fresh_uuid ;;
            t <- now ;;
            tx_execute (fun d => (tt, insertActive id projectId buildId t d))
          ) ;;
          ret true
      end
  end.

Definition stop (projectId : uuid) : M bool :=
  activeDeployment <- query (fun d =>
    find (fun x => (d_project_id x =? projectId) && is_active (d_status x))
         (deployments d)) ;;
  match activeDeployment with
  | None => throw (lit "No active deployment found")
  | Some activeDeployment =>
      project <- query (fun d =>
        find (fun p => p_id p =? projectId) (projects d)) ;;
      match project with
      | None => throw (lit "Project or port not found")
      | Some project =>
          match truthy_port (p_port project) with
          | None => throw (lit "Project or port not found")
          | Some port =>
              res <- fetch (Stop port projectId
                              (d_build_id activeDeployment)) ;;
              (if negb (res_ok res)
               then throw (lit "Deploy Engine stop failed: " ++ res_text res)
               else ret tt) ;;
              execute (fun d =>
                (tt, with_deployments
                       (map (fun x =>
                               if d_id x =? d_id activeDeployment
                               then mkDeployment (d_id x) (d_project_id x)
                                      (d_build_id x) inactive
                                      (d_activated_at x)
                               else x)
                            (deployments d))
                       d)) ;;
              ret true
          end
      end
  end.

End WithPlatform.
End DeploymentService.

(* ================================================================== *)
(** * BuildService *)
(* ================================================================== *)

(** The argument of [BuildService.create]. *)
Record BuildData := mkBuildData {
  bd_project_id : uuid;
  bd_status : BuildStatus;
  bd_commit_sha : option str;
  bd_commit_message : option str
}.

Record TriggerResult := mkTriggerResult {
  tr_success : bool;
  tr_error : option str
}.

(** The [.set(...)] of [updateStatus] applied to one row. *)
Definition setStatus (status : BuildStatus) (logs artifactId : option str)
  (completed_at : option timestamp) (b : Build) : Build :=
  mkBuild (b_id b) (b_project_id b) status (b_commit_sha b)
    (b_commit_message b)
    (if Js.truthy_opt logs then logs else b_logs b)
    (if Js.truthy_opt artifactId then artifactId else b_artifact_id b)
    (b_created_at b) completed_at.

(** The [UPDATE builds ... WHERE id = ... RETURNING *] of [updateStatus]:
    the rows it returns and the table it leaves. *)
Definition updateBuilds (id : uuid) (change : Build -> Build) (d : DB)
  : list Build * DB :=
  let rows := map (fun b => if b_id b =? id then change b else b) (builds d) in
  (filter (fun b => b_id b =? id) rows, with_builds rows d).

(** The clock readings of [updateStatus] and the value it stores in
    [completed_at]. *)
Definition completedAt (status : BuildStatus) : M (option timestamp) :=
  _ <- now ;;
  (if is_terminal status then _ <- now ;; ret tt else ret tt) ;;
  if is_terminal status then t <- now ;; ret (Some t) else ret None.

Module BuildService.
Section WithPlatform.
Context {platform : Platform}.

Definition maxRetries : nat := 3.

(** The [for] loop of [triggerBuildWithRetry], with [remaining] attempts
    to go; the back-off sleeps take no part in the result. *)
Fixpoint attempts (remaining : nat) (job : Request) (lastError : str)
  : M TriggerResult :=
  match remaining with
  | 0 => ret (mkTriggerResult false (Some lastError))
  | S remaining' =>
      outcome <-
        try_catch
          (res <- fetch job ;;
           if res_ok res then ret (inl (mkTriggerResult true None))
           else if (400 <=? res_status res) && (res_status res <? 500)
           then ret (inl (mkTriggerResult false
                            (Some (lit "Client error: "
                                   ++ Js.ofNat (res_status res)))))
           else ret (inr (lit "HTTP " ++ Js.ofNat (res_status res)
                          ++ lit ": " ++ res_statusText res)))
          (fun message =>
             ret (inr (if Js.eqb message abort_message
                       then lit "Request timeout"
                       else if Js.truthy message then message
                       else lit "Unknown error"))) ;;
      match outcome with
      | inl result => ret result
      | inr lastError' => attempts remaining' job lastError'
      end
  end.

Definition triggerBuildWithRetry (job : Request) : M TriggerResult :=
  attempts maxRetries job [].

Definition getById (id : uuid) : M (option Build) :=
  result <- query (fun d => filter (fun b => b_id b =? id) (builds d)) ;;
  ret (hd_error result).

Definition getByProjectId (projectId : uuid) : M (list Build) :=
  query (fun d =>
    orderBy (fun a b => b_created_at b <=? b_created_at a)
      (filter (fun b => b_project_id b =? projectId) (builds d))).

(** The [UPDATE] of [create] that marks a build failed when it could not
    be handed to the build worker. *)
Definition markFailed (id : uuid) (error : option str) (t : timestamp)
  (d : DB) : DB :=
  with_builds
    (map (fun b =>
            if b_id b =? id
            then mkBuild (b_id b) (b_project_id b) failed (b_commit_sha b)
                   (b_commit_message b)
                   (Some (lit "Build trigger failed: "
                          ++ or_else error (lit "undefined")))
                   (b_artifact_id b) (b_created_at b) (Some t)
            else b)
         (builds d))
    d.

(** What [create] does with a pending build once its row is inserted:
    hand it to the build worker, and mark it failed if that fails. *)
Definition handOver (build : Build) : M unit :=
  project <- ProjectService.getById (b_project_id build) ;;
  match project with
  | None => ret tt
  | Some project =>
      envVarsList <- EnvService.getAll (p_id project) ;;
      let envVars :=
        fold_left (fun acc curr => record_set acc (e_key curr) (e_value curr))
                  envVarsList [] in
      result <- triggerBuildWithRetry
                  (TriggerBuild (b_id build) (p_id project)
                     (p_build_command project) envVars) ;;
      if negb (tr_success result)
      then
        t <- now ;;
        execute (fun d => (tt, markFailed (b_id build) (tr_error result) t d))
      else ret tt
  end.

Definition create (data : BuildData) : M Build :=
  id <- fresh_uuid ;;
  t <- now ;;
  let build :=
    mkBuild id (bd_project_id data) (bd_status data) (bd_commit_sha data)
      (bd_commit_message data) None None t None in
  execute (fun d => (tt, with_builds (builds d ++ [build]) d)) ;;
  (if BuildStatus_eqb (bd_status data) pending
   then handOver build
   else ret tt) ;;
  ret build.

Definition updateStatus (id : uuid) (status : BuildStatus)
  (logs artifactId : option str) : M (option Build) :=
  completed_at <- completedAt status ;;
  returned <- execute
                (updateBuilds id (setStatus status logs artifactId completed_at)) ;;
  let updated := hd_error returned in
  match status, updated with
  | success, Some row =>
      try_catch
        (_ <- DeploymentService.activateBuild (b_project_id row) id ;; ret tt)
        (fun _ => ret tt)
  | _, _ => ret tt
  end ;;
  ret updated.

End WithPlatform.
End BuildService.

(** The variant of build-service that submits builds to the queue. Its
    [updateStatus] writes the course of the activation into the log
    stream of the build. *)
Module QueuedBuildService.
Section WithPlatform.
Context {platform : Platform}.

Definition rocket : str := [55357; 56960]%N.
Definition check_mark : str := [9989]%N.
Definition cross_mark : str := [10060]%N.
Definition newline : str := [10]%N.

Definition updateStatus (id : uuid) (status : BuildStatus)
  (logs artifactId : option str) : M (option Build) :=
  completed_at <- completedAt status ;;
  returned <- execute
                (updateBuilds id (setStatus status logs artifactId completed_at)) ;;
  let updated := hd_error returned in
  match status, updated with
  | success, Some row =>
      LogService.persist id
        (rocket ++ lit " Starting deployment activation..." ++ newline)
        level_deploy ;;
      try_catch
        (_ <- DeploymentService.activateBuild (b_project_id row) id ;;
         LogService.persist id
           (check_mark ++ lit " Deployment activated successfully!" ++ newline)
           level_deploy)
        (fun message =>
           let errorMsg :=
             if Js.truthy message then message else lit "Unknown error" in
           LogService.persist id
             (cross_mark ++ lit " Auto-deployment activation failed: "
              ++ errorMsg ++ newline
              ++ lit "Please try activating manually." ++ newline)
             level_error)
  | _, _ => ret tt
  end ;;
  ret updated.

End WithPlatform.
End QueuedBuildService.

(* ================================================================== *)
(** * HTTP responses of the control plane *)
(* ================================================================== *)

(** The JSON values the routes answer with. An object is the list of its
    properties, in order. *)
Inductive Json :=
| JNull
| JBool (b : bool)
| JNumber (n : nat)
| JString (s : str)
| JArray (items : list Json)
| JObject (properties : list (string * Json)).

Record HttpResult := mkHttpResult {
  hr_status : nat;
  hr_body : Json
}.

Definition JOption {A} (f : A -> Json) (o : option A) : Json :=
  match o with Some a => f a | None => JNull end.

Definition AppType_text (a : AppType) : str :=
  match a with
  | nextjs => lit "nextjs" | vite => lit "vite" | express => lit "express"
  | hono => lit "hono" | elysia => lit "elysia"
  end.

Definition BuildStatus_text (s : BuildStatus) : str :=
  match s with
  | pending => lit "pending" | building => lit "building"
  | success => lit "success" | failed => lit "failed"
  end.

(** A row of projects as the object [db.select()] yields: one property
    per column. *)
Definition Project_object (p : Project) : list (string * Json) :=
  [ ("id", JNumber (p_id p));
    ("name", JString (p_name p));
    ("github_url", JString (p_github_url p));
    ("root_directory", JOption JString (p_root_directory p));
    ("build_command", JString (p_build_command p));
    ("app_type", JString (AppType_text (p_app_type p)));
    ("domain", JOption JString (p_domain p));
    ("port", JOption JNumber (p_port p));
    ("github_repo_id", JOption JString (p_github_repo_id p));
    ("github_repo_full_name", JOption JString (p_github_repo_full_name p));
    ("github_branch", JOption JString (p_github_branch p));
    ("github_installation_id", JOption JString (p_github_installation_id p));
    ("auto_deploy", JBool (p_auto_deploy p));
    ("created_at", JNumber (p_created_at p));
    ("updated_at", JNumber (p_updated_at p)) ]%string.

Definition Build_object (b : Build) : list (string * Json) :=
  [ ("id", JNumber (b_id b));
    ("project_id", JNumber (b_project_id b));
    ("status", JString (BuildStatus_text (b_status b)));
    ("commit_sha", JOption JString (b_commit_sha b));
    ("commit_message", JOption JString (b_commit_message b));
    ("logs", JOption JString (b_logs b));
    ("artifact_id", JOption JString (b_artifact_id b));
    ("created_at", JNumber (b_created_at b));
    ("completed_at", JOption JNumber (b_completed_at b)) ]%string.

(** [const { key, ...rest } = object]: the object without the property. *)
Definition omit (key : string) (object : list (string * Json))
  : list (string * Json) :=
  filter (fun property => negb (String.eqb (fst property) key)) object.

(** [key in object]. *)
Definition has_property (key : string) (object : list (string * Json))
  : bool :=
  existsb (fun property => String.eqb (fst property) key) object.

Definition error_body (message : str) : Json :=
  JObject [("error", JString message)]%string.

(** The [onError] hook of the application: an exception no route caught
    becomes a 500. *)
Definition handle (route : M HttpResult) : World -> HttpResult * World :=
  fun w =>
    match route w with
    | (Ok result, w') => (result, w')
    | (Throw message, w') =>
        (mkHttpResult 500
           (JObject [("error", JString (lit "Internal Server Error"));
                     ("message", JString message)]%string), w')
    end.

(* ================================================================== *)
(** * Routes *)
(* ================================================================== *)

Module projectsRoutes.
Section WithPlatform.
Context {platform : Platform}.

(** [GET /projects]. *)
Definition get_all : M HttpResult :=
  rows <- ProjectService.getAll ;;
  ret (mkHttpResult 200 (JArray (map (fun p => JObject (Project_object p)) rows))).

(** [POST /projects]. *)
Definition post (body : ProjectData) : M HttpResult :=
  try_catch
    (lift (SecurityService.validateBuildCommand (pd_build_command body)) ;;
     project <- ProjectService.create body ;;
     ret (mkHttpResult 200 (JObject (Project_object project))))
    (fun message => ret (mkHttpResult 400 (error_body message))).

(** [GET /projects/:id]. *)
Definition get_one (id : uuid) : M HttpResult :=
  project <- ProjectService.getById id ;;
  match project with
  | None => ret (mkHttpResult 404 (error_body (lit "Project not found")))
  | Some project =>
      let safeProject := omit "port" (Project_object project) in
      ret (mkHttpResult 200 (JObject safeProject))
  end.

(** [PUT /projects/:id]. *)
Definition put (id : uuid) (body : ProjectPatch) : M HttpResult :=
  try_catch
    ((if Js.truthy_opt (pp_build_command body)
      then lift (SecurityService.validateBuildCommand
                   (or_else (pp_build_command body) []))
      else ret true) ;;
     updated <- ProjectService.update id body ;;
     ret (mkHttpResult 200
            (JOption (fun p => JObject (Project_object p)) updated)))
    (fun message => ret (mkHttpResult 400 (error_body message))).

(** [DELETE /projects/:id]. *)
Definition delete (id : uuid) : M HttpResult :=
  deleted <- ProjectService.delete id ;;
  ret (mkHttpResult 200 (JOption (fun p => JObject (Project_object p)) deleted)).

(** [POST /projects/:id/stop]. *)
Definition stop (id : uuid) : M HttpResult :=
  try_catch
    (DeploymentService.stop id ;;
     ret (mkHttpResult 200 (JObject [("success", JBool true)]%string)))
    (fun message => ret (mkHttpResult 400 (error_body message))).

End WithPlatform.
End projectsRoutes.

Module deploymentsRoutes.
Section WithPlatform.
Context {platform : Platform}.

(** [POST /deploy/build/:id/activate]. *)
Definition activate (id : uuid) : M HttpResult :=
  try_catch
    (build <- BuildService.getById id ;;
     match build with
     | None => ret (mkHttpResult 404 (error_body (lit "Build not found")))
     | Some build =>
         DeploymentService.activateBuild (b_project_id build) (b_id build) ;;
         ret (mkHttpResult 200 (JObject [("success", JBool true)]%string))
     end)
    (fun message => ret (mkHttpResult 400 (error_body message))).

End WithPlatform.
End deploymentsRoutes.

Module buildsRoutes.
Section WithPlatform.
Context {platform : Platform}.

(** [POST /projects/:id/builds]. *)
Definition post (id : uuid) : M HttpResult :=
  project <- ProjectService.getById id ;;
  match project with
  | None => ret (mkHttpResult 404 (error_body (lit "Project not found")))
  | Some _ =>
      build <- BuildService.create (mkBuildData id pending None None) ;;
      ret (mkHttpResult 200 (JObject (Build_object build)))
  end.

End WithPlatform.
End buildsRoutes.

Module internalBuildRoutes.
Section WithPlatform.
Context {platform : Platform}.

(** [PUT /builds/:id] with body [{status}]. *)
Definition put (id : uuid) (status : BuildStatus) : M HttpResult :=
  updated <- BuildService.updateStatus id status None None ;;
  ret (mkHttpResult 200 (JOption (fun b => JObject (Build_object b)) updated)).

End WithPlatform.
End internalBuildRoutes.

(* ================================================================== *)
(** * GitHub webhook *)
(* ================================================================== *)

Module GitHubService.
Section WithPlatform.
Context {platform : Platform}.

Definition verifyWebhookSignature (payload signature : str) : M bool :=
  secret <- getenv GITHUB_WEBHOOK_SECRET ;;
  match secret with
  | Some (c :: secret') =>
      let expectedSignature :=
        lit "sha256=" ++ Hex.encode (hmac_sha256 (c :: secret') payload) in
      ret (Js.eqb expectedSignature signature)
  | _ => throw (lit "Missing GITHUB_WEBHOOK_SECRET")
  end.

End WithPlatform.
End GitHubService.

(** The request of a webhook delivery: the headers the handler reads and
    the raw body. *)
Record WebhookRequest := mkWebhookRequest {
  x_hub_signature_256 : option str;
  x_github_event : option str;
  rawBody : str
}.

Definition type_error : str := lit "Cannot read properties of undefined".

Module githubWebhook.
Section WithPlatform.
Context {platform : Platform}.

(** The [installation] events. *)
Definition installationEvent (payload : Payload) : M HttpResult :=
  let action := pl_action payload in
  (if sql_eq action (lit "created") then
     match pl_installation payload with
     | Some (mkInstallationPayload (Some installationId) (Some account)) =>
         id <- fresh_uuid ;;
         t <- now ;;
         execute (fun d =>
           (tt,
            with_githubInstallations
              (if existsb (fun i => Js.eqb (i_github_installation_id i)
                                      installationId)
                          (githubInstallations d)
               then map (fun i =>
                           if Js.eqb (i_github_installation_id i) installationId
                           then mkGithubInstallation (i_id i)
                                  (i_github_installation_id i)
                                  (ac_login account) (i_account_id i)
                                  (i_account_type i) (i_created_at i)
                           else i)
                        (githubInstallations d)
               else githubInstallations d
                    ++ [mkGithubInstallation id installationId
                          (ac_login account) (ac_id account)
                          (ac_type account) t])
              d))
     | _ => throw type_error
     end
   else if sql_eq action (lit "deleted") then
     match pl_installation payload with
     | Some (mkInstallationPayload (Some installationId) _) =>
         execute (fun d =>
           (tt, with_githubInstallations
                  (filter (fun i => negb (Js.eqb (i_github_installation_id i)
                                            installationId))
                          (githubInstallations d)) d)) ;;
         execute (fun d =>
           (tt, with_projects
                  (map (fun p =>
                          if sql_eq (p_github_installation_id p) installationId
                          then mkProject (p_id p) (p_name p) (p_github_url p)
                                 (p_root_directory p) (p_build_command p)
                                 (p_app_type p) (p_domain p) (p_port p)
                                 (p_github_repo_id p)
                                 (p_github_repo_full_name p)
                                 (p_github_branch p) None (p_auto_deploy p)
                                 (p_created_at p) (p_updated_at p)
                          else p)
                       (projects d)) d))
     | _ => throw type_error
     end
   else ret tt) ;;
  ret (mkHttpResult 200
         (JObject [("processed", JBool true);
                   ("event", JString (lit "installation"));
                   ("action", JOption JString action)]%string)).

(** The [for (const project of connectedProjects)] of the push handler,
    with the two counters. *)
Fixpoint pushLoop (connectedProjects : list Project)
  (commitSha commitMessage : option str) (buildsTriggered buildsSkipped : nat)
  : M (nat * nat) :=
  match connectedProjects with
  | [] => ret (buildsTriggered, buildsSkipped)
  | project :: rest =>
      if negb (p_auto_deploy project)
      then pushLoop rest commitSha commitMessage buildsTriggered
             (S buildsSkipped)
      else
        duplicate <-
          (if Js.truthy_opt commitSha
           then
             existingBuild <- query (fun d =>
               firstn 1
                 (filter (fun b =>
                            (b_project_id b =? p_id project)
                            && sql_eq (b_commit_sha b) (or_else commitSha []))
                         (builds d))) ;;
             ret (0 <? List.length existingBuild)
           else ret false) ;;
        if (duplicate : bool)
        then pushLoop rest commitSha commitMessage buildsTriggered
               (S buildsSkipped)
        else
          created <-
            try_catch
              (BuildService.create
                 (mkBuildData (p_id project) pending commitSha commitMessage) ;;
               ret true)
              (fun _ => ret false) ;;
          pushLoop rest commitSha commitMessage
            (if (created : bool) then S buildsTriggered else buildsTriggered)
            buildsSkipped
  end.

(** The end of the push handler: find the connected projects and loop
    over them. *)
Definition triggerBuilds (repoId branch : str)
  (commitSha commitMessage : option str) : M HttpResult :=
  connectedProjects <- query (fun d =>
    filter (fun p => sql_eq (p_github_repo_id p) repoId
                     && sql_eq (p_github_branch p) branch)
           (projects d)) ;;
  match connectedProjects with
  | [] => ret (mkHttpResult 200
                 (JObject [("processed", JBool true);
                           ("builds_triggered", JNumber 0)]%string))
  | _ :: _ =>
      counters <- pushLoop connectedProjects commitSha commitMessage 0 0 ;;
      ret (mkHttpResult 200
             (JObject [("processed", JBool true);
                       ("builds_triggered", JNumber (fst counters));
                       ("builds_skipped", JNumber (snd counters))]%string))
  end.

(** [payload.head_commit?.message?.slice(0, 255) || null]. *)
Definition commitMessageOf (payload : Payload) : option str :=
  match pl_head_commit_message payload with
  | Some message =>
      if Js.truthy (Js.slice0 message 255)
      then Some (Js.slice0 message 255) else None
  | None => None
  end.

(** [payload.installation?.id?.toString()]. *)
Definition installationIdOf (payload : Payload) : option str :=
  match pl_installation payload with
  | Some installation => ip_id installation
  | None => None
  end.

(** The [push] events. *)
Definition pushEvent (payload : Payload) : M HttpResult :=
  match pl_ref payload, pl_repository payload with
  | Some ref, Some repo =>
      let branch := Js.replace ref (lit "refs/heads/") [] in
      let installationId := installationIdOf payload in
      let commitSha := pl_after payload in
      let commitMessage := commitMessageOf payload in
      if negb (Js.truthy_opt installationId)
      then ret (mkHttpResult 200
                  (JObject [("processed", JBool false);
                            ("reason", JString (lit "No installation ID"))]%string))
      else triggerBuilds (rp_id repo) branch commitSha commitMessage
  | _, _ => throw type_error
  end.

(** The [catch] of the handler around the processing of the event. *)
Definition internalError : str -> M HttpResult :=
  fun _ =>
    ret (mkHttpResult 500 (error_body (lit "Internal processing error"))).

(** Steps 3 and 4 of the handler, reached once the signature is
    verified: parse the payload and branch on the event. *)
Definition dispatch (request : WebhookRequest) : M HttpResult :=
  let event := x_github_event request in
  match JSON_parse (rawBody request) with
  | None => ret (mkHttpResult 400 (error_body (lit "Invalid JSON payload")))
  | Some payload =>
      try_catch
        (if sql_eq event (lit "installation")
         then installationEvent payload
         else if sql_eq event (lit "push")
         then pushEvent payload
         else ret (mkHttpResult 200
                     (JObject [("processed", JBool true);
                               ("event", JOption JString event);
                               ("ignored", JBool true)]%string)))
        internalError
  end.

(** [POST /github/webhook]. *)
Definition post (request : WebhookRequest) : M HttpResult :=
  let signature := x_hub_signature_256 request in
  if negb (Js.truthy_opt signature)
  then ret (mkHttpResult 401 (error_body (lit "Missing signature")))
  else
    verified <-
      try_catch
        (v <- GitHubService.verifyWebhookSignature (rawBody request)
                (or_else signature []) ;;
         ret (Some v))
        (fun _ => ret None) ;;
    match verified with
    | None =>
        ret (mkHttpResult 500 (error_body (lit "Signature verification failed")))
    | Some false =>
        ret (mkHttpResult 401 (error_body (lit "Invalid signature")))
    | Some true => dispatch request
    end.

End WithPlatform.
End githubWebhook.

(** The stand-alone webhook that redeploys the platform itself
    ([POST /webhook/deploy]); only its signature check is of interest
    here. *)
Module deployWebhook.
Section WithPlatform.
Context {platform : Platform}.

(** [crypto.timingSafeEqual(a, b)]: the comparison is recorded; buffers
    of different lengths make it throw. *)
Definition timingSafeEqual (a b : bytes) : M bool :=
  fun w =>
    let w' := set_timingSafe ((a, b) :: timingSafe w) w in
    if List.length a =? List.length b then (Ok (bytes_eqb a b), w')
    else (Throw (lit "Input buffers must have the same byte length"), w').

Definition verify (body : str) (sig : option str) : M bool :=
  match sig with
  | Some (c :: sig') =>
      secret <- getenv GITHUB_WEBHOOK_SECRET ;;
      match secret with
      | None => throw (lit "The key argument must be of type string")
      | Some secret =>
          let expected :=
            lit "sha256=" ++ Hex.encode (hmac_sha256 secret body) in
          timingSafeEqual (utf8_encode expected) (utf8_encode (c :: sig'))
      end
  | _ => ret false
  end.

End WithPlatform.
End deployWebhook.

(* ================================================================== *)
(** * The application as a whole *)
(* ================================================================== *)

(** The requests the control plane serves. *)
Inductive Call :=
| GetProjects
| PostProject (body : ProjectData)
| GetProject (id : uuid)
| PutProject (id : uuid) (body : ProjectPatch)
| DeleteProject (id : uuid)
| StopProject (id : uuid)
| PostBuild (projectId : uuid)
| PutBuild (id : uuid) (status : BuildStatus)
| ActivateBuild (id : uuid)
| GithubWebhook (request : WebhookRequest).

Definition route {platform : Platform} (call : Call) : M HttpResult :=
  match call with
  | GetProjects => projectsRoutes.get_all
  | PostProject body => projectsRoutes.post body
  | GetProject id => projectsRoutes.get_one id
  | PutProject id body => projectsRoutes.put id body
  | DeleteProject id => projectsRoutes.delete id
  | StopProject id => projectsRoutes.stop id
  | PostBuild projectId => buildsRoutes.post projectId
  | PutBuild id status => internalBuildRoutes.put id status
  | ActivateBuild id => deploymentsRoutes.activate id
  | GithubWebhook request => githubWebhook.post request
  end.

(** What the environment decides while one request is served: which
    database statements fail and what the remote services answer. *)
Record Weather := mkWeather {
  failing : list bool;
  answers : list HttpReply
}.

Definition arrive (weather : Weather) (w : World) : World :=
  set_replies (answers weather) (set_faults (failing weather) w).

Definition serve {platform : Platform} (call : Call) (weather : Weather)
  (w : World) : HttpResult * World :=
  handle (route call) (arrive weather w).

(** The world after a sequence of requests, served one after the other. *)
Fixpoint history {platform : Platform} (calls : list (Call * Weather))
  (w : World) : World :=
  match calls with
  | [] => w
  | (call, weather) :: later => history later (snd (serve call weather w))
  end.

(** The world at start-up: empty tables, committed. *)
Definition boot (e : Env) (random : nat -> Byte.byte) : World :=
  mkWorld emptyDB [emptyDB] [] [] [] 0 0 random 0 e [].

(** ** Predicates on database states *)

Definition activeCount (projectId : uuid) (d : DB) : nat :=
  List.length
    (filter (fun x => (d_project_id x =? projectId) && is_active (d_status x))
            (deployments d)).

(** At most one active deployment per project. *)
Definition atMostOneActive (d : DB) : Prop :=
  forall projectId, activeCount projectId d <= 1.

(** The value of the signature header that the handler accepts for a
    body under a secret. *)
Definition expectedSignature {platform : Platform} (secret body : str)
  : str :=
  lit "sha256=" ++ Hex.encode (hmac_sha256 secret body).

(** A push that gets through to the connected projects: the delivery
    carries the signature expected under the configured secret, its body
    parses, its event is push, the payload names a ref, a repository and
    an installation. *)
Record Push := mkPush {
  push_repoId : str;
  push_branch : str;
  push_commitSha : option str;
  push_commitMessage : option str
}.

Definition pushed {platform : Platform} (request : WebhookRequest) (e : Env)
  : option Push :=
  match x_hub_signature_256 request, GITHUB_WEBHOOK_SECRET e with
  | Some (c :: signature), Some (s :: secret) =>
      if Js.eqb (expectedSignature (s :: secret) (rawBody request))
                (c :: signature)
      then
        match JSON_parse (rawBody request) with
        | Some payload =>
            if sql_eq (x_github_event request) (lit "installation")
            then None
            else if sql_eq (x_github_event request) (lit "push")
            then
              match pl_ref payload, pl_repository payload with
              | Some ref, Some repo =>
                  if Js.truthy_opt (githubWebhook.installationIdOf payload)
                  then Some (mkPush (rp_id repo)
                               (Js.replace ref (lit "refs/heads/") [])
                               (pl_after payload)
                               (githubWebhook.commitMessageOf payload))
                  else None
              | _, _ => None
              end
            else None
        | None => None
        end
      else None
  | _, _ => None
  end.

(** The projects a push is for. *)
Definition connected (push : Push) (p : Project) : bool :=
  sql_eq (p_github_repo_id p) (push_repoId push)
  && sql_eq (p_github_branch p) (push_branch push).

(** The deploy engine fails the next call: it is unreachable, the
    request is aborted, or it answers with a status outside 200-299. *)
Definition engineFails (w : World) : Prop :=
  match replies w with
  | Reply status statusText text available :: _ =>
      res_ok (mkResponse status statusText text available) = false
  | _ => True
  end.

(** The builds of a project for a commit. *)
Definition buildsFor (projectId : uuid) (commitSha : str) (d : DB)
  : list Build :=
  filter (fun b => (b_project_id b =? projectId)
                   && sql_eq (b_commit_sha b) commitSha)
         (builds d).

(** ** Weakest preconditions *)

(** [wp m w Q]: running [m] in [w] ends, by a return or a throw, in an
    outcome and a world that satisfy [Q]. *)
Definition wp {A} (m : M A) (w : World) (Q : Result A -> World -> Prop)
  : Prop :=
  Q (fst (m w)) (snd (m w)).

(** A computation keeps a relation between the world it starts in and the
    world it ends in. *)
Definition respects {A} (R : World -> World -> Prop) (m : M A) : Prop :=
  forall w, R w (snd (m w)).

(** Relations on worlds that are preorders, look at nothing but the
    database, its commit history, the fault schedule, the environment and
    the record of constant-time comparisons, and do not mind that a statement uses up
    its entry of the fault schedule. *)
Class Frame (R : World -> World -> Prop) : Prop := {
  frame_refl : forall w, R w w;
  frame_trans : forall a b c, R a b -> R b c -> R a c;
  frame_same : forall w w',
      db w' = db w -> commits w' = commits w ->
      timingSafe w' = timingSafe w -> faults w' = faults w ->
      env w' = env w -> R w w';
  frame_consume : forall w b later,
      faults w = b :: later -> R w (set_faults later w)
}.

(** Nothing written: the tables and the history are as before. *)
Definition unchanged (w w' : World) : Prop :=
  db w' = db w /\ commits w' = commits w.

(** A property of database states holds of the current state and of
    every committed one. *)
Definition always (inv : DB -> Prop) (w : World) : Prop :=
  inv (db w) /\ Forall inv (commits w).

Definition keeps (inv : DB -> Prop) (w w' : World) : Prop :=
  always inv w -> always inv w'.

(** The log streams of the builds are as before. *)
Definition sameLogs (w w' : World) : Prop :=
  buildLogs (db w') = buildLogs (db w).

(** The builds table is as before. *)
Definition sameBuilds (w w' : World) : Prop :=
  builds (db w') = builds (db w).

(** No constant-time comparison was made. *)
Definition sameTimingSafe (w w' : World) : Prop :=
  timingSafe w' = timingSafe w.

(** [process.env] is as before. *)
Definition sameEnv (w w' : World) : Prop := env w' = env w.

(** No database statement is scheduled to fail, before or after. *)
Definition calm (w w' : World) : Prop :=
  faults w = [] -> faults w' = [].

(** The project and the commit of each build, in the order of the
    table. *)
Definition buildKeys (d : DB) : list (uuid * option str) :=
  map (fun b => (b_project_id b, b_commit_sha b)) (builds d).

(** Some build of the project is for the commit. *)
Definition hasKey (projectId : uuid) (commitSha : str)
  (keys : list (uuid * option str)) : bool :=
  existsb (fun k => (fst k =? projectId) && sql_eq (snd k) commitSha) keys.

(** The projects are as before, and so are the builds up to their
    status, logs and completion time. *)
Definition sameKeys (w w' : World) : Prop :=
  buildKeys (db w') = buildKeys (db w) /\ projects (db w') = projects (db w).

(* ================================================================== *)
(** * Overlapping transactions *)
(* ================================================================== *)

(** The server handles requests concurrently, and each transaction runs
    on a connection of its own out of the pool, at the isolation level
    Postgres has by default, READ COMMITTED. A statement of a transaction
    reads the rows that are committed when the statement starts and the
    rows the transaction itself has written; what the transaction writes
    is read by the others once it has committed. An UPDATE that finds a
    row written by another open transaction waits for that transaction
    to end, and then looks at the row again: it updates the row only if
    the committed row still satisfies the WHERE clause. Rows that were
    committed after the UPDATE started are not looked at. The table
    deployments has no unique index and the code takes no lock. *)

(** What an open transaction has written to deployments. *)
Record Pending := mkPending {
  switched_off : list uuid;   (* the rows its UPDATE made inactive, by id *)
  inserted : list Deployment  (* the rows it inserted *)
}.

Definition nothing_pending : Pending := mkPending [] [].

Definition switch_off (x : Deployment) : Deployment :=
  mkDeployment (d_id x) (d_project_id x) (d_build_id x) inactive
    (d_activated_at x).

(** The tables a transaction reads, which are also the tables that are
    committed when it commits: the committed rows, with its own
    writes. *)
Definition overlay (p : Pending) (d : DB) : DB :=
  with_deployments
    (map (fun x =>
            if existsb (Nat.eqb (d_id x)) (switched_off p)
            then switch_off x else x)
         (deployments d)
     ++ inserted p)
    d.

(** The WHERE clause of the UPDATE of [activateBuild]. *)
Definition activeOf (projectId : uuid) (x : Deployment) : bool :=
  (d_project_id x =? projectId) && is_active (d_status x).

(** The transaction of [activateBuild] for a build of a project, on its
    way: [s_id] and [s_activated_at] are the id and the time that the
    defaults of the table give to the row it inserts. *)
Inductive Stage :=
| AtUpdate                      (* before [tx.update(deployments)] *)
| Waiting (rows : list uuid)    (* its UPDATE waits for these rows *)
| AtInsert                      (* before [tx.insert(deployments)] *)
| AtCommit                      (* the callback has returned *)
| Committed.

Record Session := mkSession {
  s_projectId : uuid;
  s_buildId : uuid;
  s_id : uuid;
  s_activated_at : timestamp;
  s_stage : Stage;
  s_pending : Pending
}.

Record Pool := mkPool {
  committed : DB;
  sessions : list Session
}.

Definition isOpen (s : Session) : bool :=
  match s_stage s with
  | Waiting _ | AtInsert | AtCommit => true
  | AtUpdate | Committed => false
  end.

(** Some of the rows is written by an open transaction other than the
    one at position [i]. *)
Fixpoint lockedByOthers (i : nat) (rows : list uuid) (l : list Session)
  : bool :=
  match l with
  | [] => false
  | s :: l' =>
      (match i with
       | 0 => false
       | S _ =>
           isOpen s
           && existsb (fun id =>
                         existsb (Nat.eqb id) (switched_off (s_pending s)))
                rows
       end)
      || lockedByOthers (pred i) rows l'
  end.

Fixpoint setSession (i : nat) (s : Session) (l : list Session)
  : list Session :=
  match l, i with
  | [], _ => []
  | _ :: l', 0 => s :: l'
  | x :: l', S i' => x :: setSession i' s l'
  end.

Definition at_stage (stage : Stage) (p : Pending) (s : Session) : Session :=
  mkSession (s_projectId s) (s_buildId s) (s_id s) (s_activated_at s)
    stage p.

(** The transaction at position [i] goes one step further; [None] when
    it has to wait, or has committed. *)
Definition step (i : nat) (pool : Pool) : option Pool :=
  match nth_error (sessions pool) i with
  | None => None
  | Some s =>
      let move stage p :=
        Some (mkPool (committed pool)
                (setSession i (at_stage stage p s) (sessions pool))) in
      match s_stage s with
      | AtUpdate =>
          let rows :=
            map d_id (filter (activeOf (s_projectId s))
                        (deployments (committed pool))) in
          if lockedByOthers i rows (sessions pool)
          then move (Waiting rows) (s_pending s)
          else move AtInsert (mkPending rows (inserted (s_pending s)))
      | Waiting rows =>
          if lockedByOthers i rows (sessions pool) then None
          else
            let still :=
              map d_id
                (filter (fun x => activeOf (s_projectId s) x
                                  && existsb (Nat.eqb (d_id x)) rows)
                        (deployments (committed pool))) in
            move AtInsert (mkPending still (inserted (s_pending s)))
      | AtInsert =>
          move AtCommit
            (mkPending (switched_off (s_pending s))
               (inserted (s_pending s)
                ++ [mkDeployment (s_id s) (s_projectId s) (s_buildId s)
                      active (s_activated_at s)]))
      | AtCommit =>
          Some (mkPool (overlay (s_pending s) (committed pool))
                  (setSession i (at_stage Committed nothing_pending s)
                     (sessions pool)))
      | Committed => None
      end
  end.

(** A schedule: which transaction moves next, step after step. The
    result is [None] if some step of it cannot be taken. *)
Fixpoint schedule (turns : list nat) (pool : Pool) : option Pool :=
  match turns with
  | [] => Some pool
  | i :: later =>
      match step i pool with
      | Some pool' => schedule later pool'
      | None => None
      end
  end.

(** The transaction that [activateBuild] opens for a build. *)
Definition activation (projectId buildId id : uuid) (t : timestamp)
  : Session :=
  mkSession projectId buildId id t AtUpdate nothing_pending.

(** ** Further predicates *)

(** A lower-case letter, a digit or the dash. *)
Definition isSlugUnit (c : N) : bool :=
  ((97 <=? c) && (c <=? 122) || (48 <=? c) && (c <=? 57) || (c =? 45))%N.




(** What a request gets: the next answer, or none when nothing answers
    any more. The build worker takes the job (a 2xx), or refuses it for
    good (a 4xx); anything else is worth another attempt. *)
Definition taken_by_worker (a : option HttpReply) : bool :=
  match a with
  | Some (Reply status statusText text available) =>
      res_ok (mkResponse status statusText text available)
  | _ => false
  end.

Definition refused_by_worker (a : option HttpReply) : bool :=
  match a with
  | Some (Reply status statusText text available) =>
      negb (res_ok (mkResponse status statusText text available))
      && (400 <=? status) && (status <? 500)
  | _ => false
  end.

(** The attempts of [triggerBuildWithRetry]: [n] requests were made,
    the first [n - 1] of them got an answer worth another attempt, and
    the last one decides, unless the attempts have run out. *)
Definition attempted (job : Request) (limit : nat) (w : World)
  (r : Result TriggerResult) (w' : World) : Prop :=
  exists n result,
    r = Ok result
    /\ n <= limit
    /\ sent w' = repeat job n ++ sent w
    /\ replies w' = skipn n (replies w)
    /\ db w' = db w /\ commits w' = commits w /\ faults w' = faults w
    /\ (forall k, S k < n ->
        taken_by_worker (nth_error (replies w) k) = false
        /\ refused_by_worker (nth_error (replies w) k) = false)
    /\ match n with
       | 0 => limit = 0
       | S last =>
           let answer := nth_error (replies w) last in
           tr_success result = taken_by_worker answer
           /\ (tr_success result = true -> tr_error result = None)
           /\ (tr_success result = false ->
               tr_error result <> None
               /\ (refused_by_worker answer = true \/ n = limit))
       end.

(** The row [x] of environment_variables holds the entry of a project:
    its value is the encryption of the entry's value under some nonce of
    12 bytes. *)
Definition storedFor {platform : Platform} (projectId : uuid)
  (x : EnvironmentVariable) (entry : str * str) : Prop :=
  e_project_id x = projectId
  /\ e_key x = fst entry
  /\ exists iv,
      List.length iv = 12
      /\ EnvService.encrypt_with iv (snd entry) = Ok (e_value x).

(* ================================================================== *)
(** * A platform to run the examples on *)
(* ================================================================== *)

(** Stand-ins for the runtime, used by the examples only: a toy
    authenticated cipher and a toy keyed digest in place of AES-GCM and
    HMAC-SHA256, the UTF-8 codec, ASCII lower-casing, and a parser that
    knows the webhook deliveries of the examples. *)
Module Sample.

Definition byte (n : N) : Byte.byte :=
  match Byte.of_N (n mod 256) with
  | Some b => b
  | None => Byte.x00
  end.

Definition total (l : list N) : N := fold_left N.add l 0%N.

Definition tagOf (key : str) (iv ciphertext : bytes) : bytes :=
  map (fun j =>
         byte (total key + total (map Byte.to_N iv)
               + total (map Byte.to_N ciphertext) + N.of_nat j))
      (seq 0 16).

Definition cipher (key : str) (iv plaintext : bytes)
  : option (bytes * bytes) :=
  if List.length key =? 32
  then Some (rev plaintext, tagOf key iv (rev plaintext))
  else None.

Definition decipher (key : str) (iv authTag ciphertext : bytes)
  : option bytes :=
  if (List.length key =? 32) && bytes_eqb authTag (tagOf key iv ciphertext)
  then Some (rev ciphertext)
  else None.

Definition mac (secret payload : str) : bytes :=
  map (fun j => byte (7 * total secret + 31 * total payload
                      + N.of_nat (List.length payload) + 17 * N.of_nat j))
      (seq 0 32).

Definition surrogate_high (c : N) : bool := ((55296 <=? c) && (c <? 56320))%N.
Definition surrogate_low (c : N) : bool := ((56320 <=? c) && (c <? 57344))%N.
Definition replacement : bytes := [byte 239; byte 191; byte 189].

Fixpoint encode_utf8 (s : str) : bytes :=
  match s with
  | [] => []
  | c :: s' =>
      if (c <? 128)%N then byte c :: encode_utf8 s'
      else if (c <? 2048)%N
      then byte (192 + c / 64) :: byte (128 + c mod 64) :: encode_utf8 s'
      else if surrogate_high c
      then match s' with
           | low :: s'' =>
               if surrogate_low low
               then let p := (65536 + (c - 55296) * 1024 + (low - 56320))%N in
                    byte (240 + p / 262144)
                    :: byte (128 + (p / 4096) mod 64)
                    :: byte (128 + (p / 64) mod 64)
                    :: byte (128 + p mod 64) :: encode_utf8 s''
               else replacement ++ encode_utf8 s'
           | [] => replacement
           end
      else if surrogate_low c then replacement ++ encode_utf8 s'
      else byte (224 + c / 4096) :: byte (128 + (c / 64) mod 64)
           :: byte (128 + c mod 64) :: encode_utf8 s'
  end.

Definition continuation (b : Byte.byte) : bool :=
  ((128 <=? Byte.to_N b) && (Byte.to_N b <? 192))%N.

Definition low6 (b : Byte.byte) : N := (Byte.to_N b mod 64)%N.

(** Ill-formed input decodes to U+FFFD, one per offending byte. *)
Fixpoint decode_utf8 (b : bytes) : str :=
  match b with
  | [] => []
  | b0 :: r0 =>
      let x := Byte.to_N b0 in
      if (x <? 128)%N then x :: decode_utf8 r0
      else if ((194 <=? x) && (x <? 224))%N
      then match r0 with
           | b1 :: r1 =>
               if continuation b1
               then ((x - 192) * 64 + low6 b1)%N :: decode_utf8 r1
               else 65533%N :: decode_utf8 r0
           | [] => [65533%N]
           end
      else if ((224 <=? x) && (x <? 240))%N
      then match r0 with
           | b1 :: b2 :: r2 =>
               let c := ((x - 224) * 4096 + low6 b1 * 64 + low6 b2)%N in
               if continuation b1 && continuation b2 && (2048 <=? c)%N
                  && negb (surrogate_high c || surrogate_low c)
               then c :: decode_utf8 r2
               else 65533%N :: decode_utf8 r0
           | _ => 65533%N :: decode_utf8 r0
           end
      else if ((240 <=? x) && (x <? 245))%N
      then match r0 with
           | b1 :: b2 :: b3 :: r3 =>
               let p := ((x - 240) * 262144 + low6 b1 * 4096
                         + low6 b2 * 64 + low6 b3)%N in
               if continuation b1 && continuation b2 && continuation b3
                  && (65536 <=? p)%N && (p <? 1114112)%N
               then (55296 + (p - 65536) / 1024)%N
                    :: (56320 + (p - 65536) mod 1024)%N :: decode_utf8 r3
               else 65533%N :: decode_utf8 r0
           | _ => 65533%N :: decode_utf8 r0
           end
      else 65533%N :: decode_utf8 r0
  end.

Definition lowerCase (s : str) : str :=
  map (fun c => if ((65 <=? c) && (c <=? 90))%N then (c + 32)%N else c) s.

Definition quoted (s : string) : str := Js.dquote ++ lit s ++ Js.dquote.

(** The body of a push delivery for repository 42, branch main, sent by
    installation 7, with the commit given. *)
Definition pushBody (after : string) : str :=
  lit "{" ++ quoted "ref" ++ lit ":" ++ quoted "refs/heads/main"
  ++ lit "," ++ quoted "after" ++ lit ":" ++ quoted after
  ++ lit "," ++ quoted "repository" ++ lit ":{" ++ quoted "id" ++ lit ":42,"
  ++ quoted "full_name" ++ lit ":" ++ quoted "acme/hello" ++ lit "},"
  ++ quoted "installation" ++ lit ":{" ++ quoted "id" ++ lit ":7},"
  ++ quoted "head_commit" ++ lit ":{" ++ quoted "message" ++ lit ":"
  ++ quoted "x" ++ lit "}}".

Definition pushPayload (after : string) : Payload :=
  mkPayload None (Some (mkInstallationPayload (Some (lit "7")) None))
    (Some (lit "refs/heads/main"))
    (Some (mkRepositoryPayload (lit "42") (lit "acme/hello")))
    (Some (lit after)) (Some (lit "x")).

Definition parse (body : str) : option Payload :=
  if Js.eqb body (pushBody "c1") then Some (pushPayload "c1")
  else if Js.eqb body (pushBody "") then Some (pushPayload "")
  else None.

Definition platform : Platform :=
  {| ENCRYPTION_KEY := lit "0123456789abcdef0123456789abcdef";
     aes_256_gcm_encrypt := cipher;
     aes_256_gcm_decrypt := decipher;
     utf8_encode := encode_utf8;
     utf8_decode := decode_utf8;
     hmac_sha256 := mac;
     toLowerCase := lowerCase;
     JSON_parse := parse |}.

Definition environment : Env :=
  mkEnv (Some (lit "s3cret")) None None.

(** Project 1, "hello": a vite application on port 8001, connected to
    branch main of repository 42, deployed automatically. *)
Definition hello : Project :=
  mkProject 1 (lit "hello") (lit "https://github.com/acme/hello")
    (Some (lit "./")) (lit "npm run build") vite None (Some 8001)
    (Some (lit "42")) (Some (lit "acme/hello")) (Some (lit "main"))
    (Some (lit "7")) true 0 0.

(** A world over given tables, with the weather given. *)
Definition world (d : DB) (weather : Weather) : World :=
  mkWorld d [d] (failing weather) (answers weather) [] 100 100
          (fun i => byte (N.of_nat i)) 0 environment [].

Definition fair : Weather := mkWeather [] [].

(** The deploy engine answers every call with 200. *)
Definition ok : HttpReply := Reply 200 (lit "OK") (lit "{}") true.

(** Only project hello. *)
Definition justHello : DB := mkDB [hello] [] [] [] [] [].

(** Project hello with a successful build 3, deployed and active, a
    line of log and one environment variable. *)
Definition deployed : DB :=
  mkDB [hello]
       [mkBuild 3 1 success (Some (lit "c0")) (Some (lit "first")) None None
          10 (Some 20)]
       [mkDeployment 5 1 3 active 21]
       [mkEnvironmentVariable 6 1 (lit "API_KEY") (lit "plain") 1 1]
       [mkBuildLog 7 3 level_info (lit "done") 19]
       [].

(** As [deployed], with build 9 of the same project being built. *)
Definition building9 : DB :=
  with_builds
    (builds deployed
     ++ [mkBuild 9 1 building (Some (lit "c1")) (Some (lit "second")) None
           None 30 None])
    deployed.

(** The deploy engine refuses: the health check of the new process
    failed. *)
Definition refusal : HttpReply :=
  Reply 500 (lit "Internal Server Error") (lit "health check failed") false.

End Sample.

(* ================================================================== *)
(** * Properties *)
(* ================================================================== *)

(** ** Strings *)

Lemma eqb_eq (a b : str) : Js.eqb a b = true <-> a = b.
Proof.
  revert b; induction a as [|x a IH]; intros [|y b]; simpl;
    try (split; (reflexivity || discriminate)).
  rewrite andb_true_iff, N.eqb_eq, IH.
  split; [intros [-> ->]; reflexivity | intros [= -> ->]; auto].
Qed.

Lemma eqb_refl (a : str) : Js.eqb a a = true.
Proof. apply eqb_eq; reflexivity. Qed.

Lemma startsWith_iff (s p : str) :
  Js.startsWith s p = true <-> exists rest, s = p ++ rest.
Proof.
  revert s; induction p as [|x p IH]; intros s; simpl.
  - split; [exists s; reflexivity | reflexivity].
  - destruct s as [|y s].
    + split; [discriminate | intros [rest H]; discriminate H].
    + rewrite andb_true_iff, N.eqb_eq, IH. split.
      * intros [-> [rest ->]]. exists rest; reflexivity.
      * intros [rest [= -> ->]]. split; [reflexivity | exists rest; reflexivity].
Qed.

Lemma includes_iff (s p : str) :
  Js.includes s p = true <-> exists before after, s = before ++ p ++ after.
Proof.
  induction s as [|c s IH]; simpl.
  - rewrite orb_false_r, startsWith_iff. split.
    + intros [rest H]. exists [], rest. exact H.
    + intros [before [after H]]. destruct before as [|b before].
      * exists after. exact H.
      * discriminate H.
  - rewrite orb_true_iff, startsWith_iff, IH. split.
    + intros [[rest H] | [before [after H]]].
      * exists [], rest. exact H.
      * exists (c :: before), after. simpl. rewrite H. reflexivity.
    + intros [[|b before] [after H]].
      * left. exists after. exact H.
      * right. injection H as -> H. exists before, after. exact H.
Qed.

Lemma trimStart_spec (s : str) :
  exists blank,
    s = blank ++ Js.trimStart s
    /\ forallb Js.isWhiteSpace blank = true
    /\ match Js.trimStart s with
       | [] => True
       | c :: _ => Js.isWhiteSpace c = false
       end.
Proof.
  induction s as [|c s (blank & Hs & Hb & Hh)]; simpl.
  - exists []. auto.
  - destruct (Js.isWhiteSpace c) eqn:E.
    + exists (c :: blank). simpl. rewrite E, Hb. rewrite <- Hs. auto.
    + exists []. simpl. auto.
Qed.

(** [trim] removes a run of white space at each end, and nothing else. *)
Lemma trim_spec (s : str) :
  exists left right,
    s = left ++ Js.trim s ++ right
    /\ forallb Js.isWhiteSpace left = true
    /\ forallb Js.isWhiteSpace right = true.
Proof.
  unfold Js.trim, Js.trimEnd.
  destruct (trimStart_spec s) as (l & Hs & Hl & _).
  destruct (trimStart_spec (rev (Js.trimStart s))) as (r & Hr & Hrb & _).
  exists l, (rev r). split; [|split].
  - rewrite <- rev_app_distr, <- Hr, rev_involutive. exact Hs.
  - exact Hl.
  - rewrite forallb_forall in *. intros x Hx. apply Hrb. apply in_rev. exact Hx.
Qed.

Lemma split_from_skip (sep : str) (dropped : str) :
  forall cur s,
    Js.split_from sep (List.length dropped) cur (dropped ++ s)
    = Js.split_from sep 0 cur s.
Proof.
  induction dropped as [|c dropped IH]; intros cur s; simpl.
  - reflexivity.
  - apply IH.
Qed.

Lemma split_from_nonempty (sep : str) :
  forall s skip cur, Js.split_from sep skip cur s <> [].
Proof.
  induction s as [|c s IH]; intros skip cur; simpl.
  - discriminate.
  - destruct skip; [destruct (Js.startsWith (c :: s) sep)|]; try apply IH.
    discriminate.
Qed.

Lemma join_cons (p : str) (ps : list str) (sep : str) :
  ps <> [] -> Js.join (p :: ps) sep = p ++ sep ++ Js.join ps sep.
Proof. destruct ps; [congruence | reflexivity]. Qed.

Lemma split_from_join (sep : str) :
  sep <> [] ->
  forall n s cur,
    List.length s <= n ->
    Js.join (Js.split_from sep 0 cur s) sep = rev cur ++ s.
Proof.
  intros Hsep. induction n as [|n IH]; intros s cur Hn.
  - destruct s; [|simpl in Hn; lia]. simpl. rewrite app_nil_r. reflexivity.
  - destruct s as [|c s]; simpl.
    + rewrite app_nil_r. reflexivity.
    + destruct (Js.startsWith (c :: s) sep) eqn:E.
      * apply startsWith_iff in E. destruct E as [rest E].
        destruct sep as [|x sep]; [congruence|].
        simpl in E. injection E as -> ->.
        replace (List.length (x :: sep) - 1) with (List.length sep)
          by (simpl; lia).
        rewrite split_from_skip.
        rewrite join_cons by apply split_from_nonempty.
        rewrite IH.
        -- reflexivity.
        -- simpl in Hn. rewrite length_app in Hn. lia.
      * rewrite IH by (simpl in Hn; lia).
        simpl. rewrite <- app_assoc. reflexivity.
Qed.

(** The segments of a split, joined again by the separator, give the
    string back. *)
Lemma split_join (s sep : str) :
  sep <> [] -> Js.join (Js.split s sep) sep = s.
Proof.
  intros Hsep. unfold Js.split. destruct sep as [|x sep]; [congruence|].
  apply (split_from_join Hsep (n := List.length s)). lia.
Qed.

(** ** SecurityService *)

Lemma find_none_iff {A} (f : A -> bool) (l : list A) :
  find f l = None <-> forall x, In x l -> f x = false.
Proof.
  split.
  - intros H x Hx. exact (find_none f l H x Hx).
  - induction l as [|a l IH]; intros H; simpl; [reflexivity|].
    rewrite (H a (or_introl eq_refl)). apply IH.
    intros x Hx. apply H. right. exact Hx.
Qed.

Lemma truthy_false (s : str) : Js.truthy s = false <-> s = [].
Proof. destruct s; simpl; split; congruence. Qed.

Lemma validateBuildCommand_total (command : str) :
  SecurityService.validateBuildCommand command = Ok true
  \/ exists message,
      SecurityService.validateBuildCommand command = Throw message.
Proof.
  unfold SecurityService.validateBuildCommand.
  destruct (SecurityService.firstDangerous command); [right; eauto|].
  destruct (SecurityService.firstInvalidPart _); [right; eauto | left; auto].
Qed.

Lemma validateBuildCommand_accepts_iff (command : str) :
  SecurityService.validateBuildCommand command = Ok true
  <-> SecurityService.accepts command.
Proof.
  unfold SecurityService.validateBuildCommand, SecurityService.accepts.
  split.
  - destruct (SecurityService.firstDangerous command) eqn:D; [discriminate|].
    destruct (SecurityService.firstInvalidPart _) eqn:I; [discriminate|].
    intros _. unfold SecurityService.firstDangerous in D.
    unfold SecurityService.firstInvalidPart in I.
    rewrite find_none_iff in D, I. split.
    + intros segment Hin.
      specialize (I (Js.trim segment) (in_map Js.trim _ _ Hin)).
      apply andb_false_iff in I. destruct I as [I | I].
      * left. apply truthy_false. exact I.
      * right. apply negb_false_iff, existsb_exists in I.
        destruct I as (prefix & Hp & Hs). apply startsWith_iff in Hs.
        destruct Hs as [rest Hs]. exists prefix, rest. auto.
    + intros pattern Hp Hinc. apply includes_iff in Hinc.
      rewrite (D pattern Hp) in Hinc. discriminate.
  - intros [Hseg Hpat].
    assert (D : SecurityService.firstDangerous command = None).
    { apply find_none_iff. intros pattern Hp.
      destruct (Js.includes command pattern) eqn:E; [|reflexivity].
      exfalso. apply (Hpat pattern Hp). apply includes_iff. exact E. }
    rewrite D.
    assert (I : SecurityService.firstInvalidPart
                  (map Js.trim (Js.split command (lit "&&"))) = None).
    { apply find_none_iff. intros part Hpart. apply in_map_iff in Hpart.
      destruct Hpart as (segment & <- & Hin).
      destruct (Hseg segment Hin) as [-> | (prefix & rest & Hp & Hs)].
      - reflexivity.
      - apply andb_false_iff. right. apply negb_false_iff, existsb_exists.
        exists prefix. split; [exact Hp|]. apply startsWith_iff. eauto. }
    rewrite I. reflexivity.
Qed.

(** ** Reasoning about async functions *)

Lemma wp_ret {A} (a : A) w (Q : Result A -> World -> Prop) :
  Q (Ok a) w -> wp (ret a) w Q.
Proof. exact (fun H => H). Qed.

Lemma wp_throw {A} message w (Q : Result A -> World -> Prop) :
  Q (Throw message) w -> wp (throw message) w Q.
Proof. exact (fun H => H). Qed.

Lemma wp_lift {A} (r : Result A) w (Q : Result A -> World -> Prop) :
  Q r w -> wp (lift r) w Q.
Proof. exact (fun H => H). Qed.

Lemma wp_bind {A B} (m : M A) (k : A -> M B) w
  (Q : Result B -> World -> Prop) :
  wp m w (fun r w' =>
            match r with
            | Ok a => wp (k a) w' Q
            | Throw e => Q (Throw e) w'
            end) ->
  wp (bind m k) w Q.
Proof.
  unfold wp, bind. destruct (m w) as [[a | e] w']; simpl; auto.
Qed.

Lemma wp_try_catch {A} (m : M A) (handler : str -> M A) w
  (Q : Result A -> World -> Prop) :
  wp m w (fun r w' =>
            match r with
            | Ok a => Q (Ok a) w'
            | Throw e => wp (handler e) w' Q
            end) ->
  wp (try_catch m handler) w Q.
Proof.
  unfold wp, try_catch. destruct (m w) as [[a | e] w']; simpl; auto.
Qed.

Lemma wp_rewrite {A} (m m' : M A) w (Q : Result A -> World -> Prop) :
  m w = m' w -> wp m' w Q -> wp m w Q.
Proof. unfold wp. intros ->. auto. Qed.

Lemma wp_mono {A} (m : M A) w (Q Q' : Result A -> World -> Prop) :
  wp m w Q -> (forall r w', Q r w' -> Q' r w') -> wp m w Q'.
Proof. unfold wp. auto. Qed.

Lemma set_faults_same w : set_faults (faults w) w = w.
Proof. destruct w; reflexivity. Qed.

Lemma wp_statement {A} (run : World -> Result A * World) w
  (Q : Result A -> World -> Prop) :
  (forall later, Q (Throw db_error) (set_faults later w)) ->
  (forall later, wp run (set_faults later w) Q) ->
  wp (statement run) w Q.
Proof.
  intros Hfail Hrun. unfold wp, statement.
  destruct (faults w) as [|[|] later] eqn:E.
  - rewrite <- (set_faults_same w) at 1 2. apply Hrun.
  - apply Hfail.
  - apply Hrun.
Qed.

Lemma wp_query {A} (read : DB -> A) w (Q : Result A -> World -> Prop) :
  (forall later, Q (Throw db_error) (set_faults later w)) ->
  (forall later, Q (Ok (read (db w))) (set_faults later w)) ->
  wp (query read) w Q.
Proof.
  intros Hfail Hok. apply wp_statement; [exact Hfail|].
  intros later. apply Hok.
Qed.

Lemma wp_execute {A} (write : DB -> A * DB) w
  (Q : Result A -> World -> Prop) :
  (forall later, Q (Throw db_error) (set_faults later w)) ->
  (forall later,
      Q (Ok (fst (write (db w))))
        (set_commits (snd (write (db w)) :: commits w)
           (set_db (snd (write (db w))) (set_faults later w)))) ->
  wp (execute write) w Q.
Proof.
  intros Hfail Hok. apply wp_statement; [exact Hfail|].
  intros later. unfold wp. cbn. destruct (write (db w)). apply Hok.
Qed.

Lemma wp_tx_execute {A} (write : DB -> A * DB) w
  (Q : Result A -> World -> Prop) :
  (forall later, Q (Throw db_error) (set_faults later w)) ->
  (forall later,
      Q (Ok (fst (write (db w))))
        (set_db (snd (write (db w))) (set_faults later w))) ->
  wp (tx_execute write) w Q.
Proof.
  intros Hfail Hok. apply wp_statement; [exact Hfail|].
  intros later. unfold wp. cbn. destruct (write (db w)). apply Hok.
Qed.

Lemma wp_transaction {A} (body : M A) w (Q : Result A -> World -> Prop) :
  wp body w (fun r w' =>
               match r with
               | Ok a => Q (Ok a) (set_commits (db w' :: commits w') w')
               | Throw e => Q (Throw e) (set_db (db w) w')
               end) ->
  wp (transaction body) w Q.
Proof.
  unfold wp, transaction. destruct (body w) as [[a | e] w']; simpl; auto.
Qed.

Lemma wp_fetch (request : Request) w (Q : Result Response -> World -> Prop) :
  (forall status statusText text available later,
      replies w = Reply status statusText text available :: later ->
      Q (Ok (mkResponse status statusText text available))
        (set_replies later (set_sent (request :: sent w) w))) ->
  (forall message later,
      replies w = NetworkError message :: later ->
      Q (Throw message) (set_replies later (set_sent (request :: sent w) w))) ->
  (forall later,
      replies w = Aborted :: later ->
      Q (Throw abort_message)
        (set_replies later (set_sent (request :: sent w) w))) ->
  (replies w = [] ->
   Q (Throw (lit "fetch failed")) (set_sent (request :: sent w) w)) ->
  wp (fetch request) w Q.
Proof.
  intros Hr Hn Ha He. unfold wp, fetch. cbn.
  destruct (replies w) as [|[status statusText text available | message |] later];
    cbn; auto.
Qed.

(** ** Computations that keep a relation *)

#[export] Instance Frame_unchanged : Frame unchanged.
Proof.
  split; unfold unchanged.
  - auto.
  - intros a b c [H1 H2] [H3 H4]. split; congruence.
  - auto.
  - auto.
Qed.

#[export] Instance Frame_keeps (inv : DB -> Prop) : Frame (keeps inv).
Proof.
  split; unfold keeps, always.
  - auto.
  - auto.
  - intros w w' -> -> _ _ _. auto.
  - auto.
Qed.

#[export] Instance Frame_sameLogs : Frame sameLogs.
Proof.
  split; unfold sameLogs.
  - auto.
  - intros a b c H1 H2. congruence.
  - intros w w' -> _ _ _ _. reflexivity.
  - auto.
Qed.

#[export] Instance Frame_sameBuilds : Frame sameBuilds.
Proof.
  split; unfold sameBuilds.
  - auto.
  - intros a b c H1 H2. congruence.
  - intros w w' -> _ _ _ _. reflexivity.
  - auto.
Qed.

#[export] Instance Frame_sameTimingSafe : Frame sameTimingSafe.
Proof.
  split; unfold sameTimingSafe.
  - auto.
  - intros a b c H1 H2. congruence.
  - auto.
  - auto.
Qed.

#[export] Instance Frame_calm : Frame calm.
Proof.
  split; unfold calm.
  - auto.
  - auto.
  - intros w w' _ _ _ -> _. auto.
  - intros w b later H1 H2. congruence.
Qed.

#[export] Instance Frame_sameEnv : Frame sameEnv.
Proof.
  split; unfold sameEnv.
  - auto.
  - intros a b c H1 H2. congruence.
  - auto.
  - auto.
Qed.

#[export] Instance Frame_sameKeys : Frame sameKeys.
Proof.
  split; unfold sameKeys.
  - auto.
  - intros a b c [H1 H2] [H3 H4]. split; congruence.
  - intros w w' -> _ _ _ _. auto.
  - auto.
Qed.

Section Respects.
Context (R : World -> World -> Prop) {F : Frame R}.

Lemma respects_ret {A} (a : A) : respects R (ret a).
Proof. intros w. apply frame_refl. Qed.

Lemma respects_throw {A} message : respects R (throw (A := A) message).
Proof. intros w. apply frame_refl. Qed.

Lemma respects_lift {A} (r : Result A) : respects R (lift r).
Proof. intros w. apply frame_refl. Qed.

Lemma respects_getenv {A} (field : Env -> A) : respects R (getenv field).
Proof. intros w. apply frame_refl. Qed.

Lemma respects_now : respects R now.
Proof. intros w. apply frame_same; reflexivity. Qed.

Lemma respects_fresh_uuid : respects R fresh_uuid.
Proof. intros w. apply frame_same; reflexivity. Qed.

Lemma respects_randomBytes n : respects R (randomBytes n).
Proof. intros w. apply frame_same; reflexivity. Qed.

Lemma respects_fetch request : respects R (fetch request).
Proof.
  intros w. apply frame_same; unfold fetch;
    destruct (replies w) as [|[] ?]; reflexivity.
Qed.

(** A transaction is allowed when its body is, and the relation does not
    mind the commit or the rollback that ends it. *)
Lemma respects_transaction {A} (body : M A) :
  (forall w w', R w w' -> R w (set_commits (db w' :: commits w') w')) ->
  (forall w w', R w w' -> R w (set_db (db w) w')) ->
  respects R body -> respects R (transaction body).
Proof.
  intros Hcommit Hrollback Hbody w. unfold transaction.
  specialize (Hbody w). destruct (body w) as [[a|e] w']; simpl in *; auto.
Qed.

Lemma respects_bind {A B} (m : M A) (k : A -> M B) :
  respects R m -> (forall a, respects R (k a)) -> respects R (bind m k).
Proof.
  intros Hm Hk w. unfold bind. specialize (Hm w).
  destruct (m w) as [[a | e] w']; simpl in *.
  - eapply frame_trans; [exact Hm | apply Hk].
  - exact Hm.
Qed.

Lemma respects_try_catch {A} (m : M A) (handler : str -> M A) :
  respects R m -> (forall e, respects R (handler e)) ->
  respects R (try_catch m handler).
Proof.
  intros Hm Hh w. unfold try_catch. specialize (Hm w).
  destruct (m w) as [[a | e] w']; simpl in *.
  - exact Hm.
  - eapply frame_trans; [exact Hm | apply Hh].
Qed.

Lemma respects_statement {A} (run : World -> Result A * World) :
  (forall w, R w (snd (run w))) -> respects R (statement run).
Proof.
  intros Hrun w. unfold statement.
  destruct (faults w) as [|[|] later] eqn:E; simpl.
  - apply Hrun.
  - apply (frame_consume _ E).
  - eapply frame_trans; [|apply Hrun]. apply (frame_consume _ E).
Qed.

Lemma respects_query {A} (read : DB -> A) : respects R (query read).
Proof. apply respects_statement. intros w. apply frame_refl. Qed.

(** A write is allowed when the relation allows the state it leaves,
    committed or not. *)
Lemma respects_execute {A} (write : DB -> A * DB) :
  (forall w, R w (set_commits (snd (write (db w)) :: commits w)
                    (set_db (snd (write (db w))) w))) ->
  respects R (execute write).
Proof.
  intros H. apply respects_statement. intros w. specialize (H w).
  destruct (write (db w)). exact H.
Qed.

Lemma respects_tx_execute {A} (write : DB -> A * DB) :
  (forall w, R w (set_db (snd (write (db w))) w)) ->
  respects R (tx_execute write).
Proof.
  intros H. apply respects_statement. intros w. specialize (H w).
  destruct (write (db w)). exact H.
Qed.

End Respects.

(** The steps every relation allows, and the case analysis on whatever a
    computation branches on. *)
Ltac frame := try typeclasses eauto.

(** The steps every relation allows, chosen by the shape of the
    computation, and the case analysis on whatever it branches on;
    [known] closes the calls whose lemma is at hand. *)
Ltac respect_with known :=
  repeat first
    [ assumption
    | known
    | lazymatch goal with
      | |- respects _ (ret _) => apply respects_ret; frame
      | |- respects _ (throw _) => apply respects_throw; frame
      | |- respects _ (lift _) => apply respects_lift; frame
      | |- respects _ (getenv _) => apply respects_getenv; frame
      | |- respects _ now => apply respects_now; frame
      | |- respects _ fresh_uuid => apply respects_fresh_uuid; frame
      | |- respects _ (randomBytes _) => apply respects_randomBytes; frame
      | |- respects _ (fetch _) => apply respects_fetch; frame
      | |- respects _ (query _) => apply respects_query; frame
      | |- respects _ (bind _ _) =>
          apply respects_bind; [typeclasses eauto | | intros ?]
      | |- respects _ (try_catch _ _) =>
          apply respects_try_catch; [typeclasses eauto | | intros ?]
      | |- respects _ (match ?x with _ => _ end) => destruct x
      | |- respects _ (let (_, _) := ?x in _) => destruct x
      end ].

Ltac respect := respect_with fail.

Section ReadOnly.
Context {platform : Platform}.
Context (R : World -> World -> Prop) {F : Frame R}.

Lemma EnvService_getAll_respects projectId :
  respects R (EnvService.getAll projectId).
Proof. unfold EnvService.getAll. respect. Qed.

Lemma EnvService_getAsRecord_respects projectId :
  respects R (EnvService.getAsRecord projectId).
Proof.
  unfold EnvService.getAsRecord.
  respect_with
    ltac:(idtac; lazymatch goal with
          | |- respects _ (EnvService.getAll _) =>
              apply EnvService_getAll_respects
          end).
Qed.

Lemma ProjectService_getById_respects id :
  respects R (ProjectService.getById id).
Proof. unfold ProjectService.getById. respect. Qed.

Lemma ProjectService_getAll_respects : respects R ProjectService.getAll.
Proof. unfold ProjectService.getAll. respect. Qed.

Lemma BuildService_getById_respects id :
  respects R (BuildService.getById id).
Proof. unfold BuildService.getById. respect. Qed.

Lemma attempts_respects remaining job lastError :
  respects R (BuildService.attempts remaining job lastError).
Proof.
  revert lastError. induction remaining as [|n IH]; intros lastError; simpl.
  - respect.
  - respect_with ltac:(apply IH).
Qed.

Lemma triggerBuildWithRetry_respects job :
  respects R (BuildService.triggerBuildWithRetry job).
Proof. apply attempts_respects. Qed.

Lemma portLoop_respects fuel nextPort :
  respects R (ProjectService.portLoop fuel nextPort).
Proof.
  revert nextPort. induction fuel as [|n IH]; intros nextPort; simpl.
  - respect.
  - respect_with ltac:(apply IH).
Qed.

Lemma findPort_respects nextPort :
  respects R (ProjectService.findPort nextPort).
Proof. intros w. apply portLoop_respects. Qed.

Lemma cleanup_respects project buildIds :
  respects R (ProjectService.cleanup project buildIds).
Proof. unfold ProjectService.cleanup. respect. Qed.

Lemma encrypt_respects text : respects R (EnvService.encrypt text).
Proof. unfold EnvService.encrypt. respect. Qed.

Lemma verifyWebhookSignature_respects payload signature :
  respects R (GitHubService.verifyWebhookSignature payload signature).
Proof. unfold GitHubService.verifyWebhookSignature. respect. Qed.

End ReadOnly.

(** The calls that only read, whatever the relation. *)
Ltac reads :=
  lazymatch goal with
  | |- respects _ (EnvService.getAll _) => apply EnvService_getAll_respects
  | |- respects _ (EnvService.getAsRecord _) =>
      apply EnvService_getAsRecord_respects
  | |- respects _ (ProjectService.getById _) =>
      apply ProjectService_getById_respects
  | |- respects _ ProjectService.getAll =>
      apply ProjectService_getAll_respects
  | |- respects _ (BuildService.getById _) =>
      apply BuildService_getById_respects
  | |- respects _ (BuildService.triggerBuildWithRetry _) =>
      apply triggerBuildWithRetry_respects
  | |- respects _ (ProjectService.findPort _) => apply findPort_respects
  | |- respects _ (ProjectService.cleanup _ _) => apply cleanup_respects
  | |- respects _ (EnvService.encrypt _) => apply encrypt_respects
  | |- respects _ (GitHubService.verifyWebhookSignature _ _) =>
      apply verifyWebhookSignature_respects
  end;
  frame.

Lemma wp_now w (Q : Result timestamp -> World -> Prop) :
  Q (Ok (clock w)) (set_clock (S (clock w)) w) -> wp now w Q.
Proof. exact (fun H => H). Qed.

Lemma wp_fresh_uuid w (Q : Result uuid -> World -> Prop) :
  Q (Ok (uuids w)) (set_uuids (S (uuids w)) w) -> wp fresh_uuid w Q.
Proof. exact (fun H => H). Qed.

Lemma wp_getenv {A} (field : Env -> A) w (Q : Result A -> World -> Prop) :
  Q (Ok (field (env w))) w -> wp (getenv field) w Q.
Proof. exact (fun H => H). Qed.

(** Projections of an updated world. *)
Ltac world :=
  cbn [db commits faults replies sent clock uuids entropy drawn env
       timingSafe set_db set_commits set_faults set_replies set_sent
       set_clock set_uuids set_drawn set_timingSafe fst snd] in *.

(** One step of a weakest-precondition proof, chosen by the shape of the
    computation. *)
Ltac wp_step :=
  lazymatch goal with
  | |- wp (ret _) _ _ => apply wp_ret
  | |- wp (throw _) _ _ => apply wp_throw
  | |- wp (lift _) _ _ => apply wp_lift
  | |- wp (bind _ _) _ _ => apply wp_bind
  | |- wp (try_catch _ _) _ _ => apply wp_try_catch
  | |- wp (transaction _) _ _ => apply wp_transaction
  | |- wp now _ _ => apply wp_now
  | |- wp fresh_uuid _ _ => apply wp_fresh_uuid
  | |- wp (getenv _) _ _ => apply wp_getenv
  | |- wp (query _) _ _ => apply wp_query; intros ?
  | |- wp (execute _) _ _ => apply wp_execute; intros ?
  | |- wp (tx_execute _) _ _ => apply wp_tx_execute; intros ?
  end;
  world.

Section EnvServiceReads.
Context {platform : Platform}.

Lemma wp_getAll projectId w
  (Q : Result (list EnvironmentVariable) -> World -> Prop) :
  (forall later, Q (Throw db_error) (set_faults later w)) ->
  (forall later rows, Q (Ok rows) (set_faults later w)) ->
  wp (EnvService.getAll projectId) w Q.
Proof.
  intros Hfail Hok. unfold EnvService.getAll.
  wp_step. wp_step; [apply Hfail|]. wp_step. apply Hok.
Qed.

Lemma wp_getAsRecord projectId w
  (Q : Result (list (str * str)) -> World -> Prop) :
  (forall later, Q (Throw db_error) (set_faults later w)) ->
  (forall later record, Q (Ok record) (set_faults later w)) ->
  wp (EnvService.getAsRecord projectId) w Q.
Proof.
  intros Hfail Hok. unfold EnvService.getAsRecord.
  wp_step. apply wp_getAll; intros; world; [apply Hfail|].
  wp_step. apply Hok.
Qed.

End EnvServiceReads.

(** ** Active deployments *)

Lemma activeCount_deactivate_same projectId d :
  activeCount projectId (DeploymentService.deactivate projectId d) = 0.
Proof.
  unfold activeCount, DeploymentService.deactivate. simpl.
  induction (deployments d) as [|x l IH]; simpl; [reflexivity|].
  destruct (d_project_id x =? projectId) eqn:E; simpl.
  - destruct (is_active (d_status x)) eqn:A; simpl; rewrite E; simpl.
    + exact IH.
    + rewrite A. exact IH.
  - rewrite E. simpl. exact IH.
Qed.

Lemma activeCount_deactivate_other projectId other d :
  other <> projectId ->
  activeCount other (DeploymentService.deactivate projectId d)
  = activeCount other d.
Proof.
  intros Hne. unfold activeCount, DeploymentService.deactivate. simpl.
  induction (deployments d) as [|x l IH]; simpl; [reflexivity|].
  destruct ((d_project_id x =? projectId) && is_active (d_status x)) eqn:E;
    simpl.
  - apply andb_true_iff in E. destruct E as [E A].
    apply Nat.eqb_eq in E.
    assert (N : (d_project_id x =? other) = false)
      by (apply Nat.eqb_neq; congruence).
    rewrite N. simpl. exact IH.
  - destruct ((d_project_id x =? other) && is_active (d_status x)); simpl;
      rewrite IH; reflexivity.
Qed.

Lemma activeCount_insertActive id projectId buildId t other d :
  activeCount other (DeploymentService.insertActive id projectId buildId t d)
  = activeCount other d + (if projectId =? other then 1 else 0).
Proof.
  unfold activeCount, DeploymentService.insertActive. simpl.
  rewrite filter_app, length_app. simpl.
  destruct (projectId =? other); reflexivity.
Qed.

(** Promoting a build leaves exactly one active deployment for its
    project and does not touch the other projects. *)
Lemma activeCount_promote id projectId buildId t other d :
  activeCount other (DeploymentService.promote id projectId buildId t d)
  = if projectId =? other then 1 else activeCount other d.
Proof.
  unfold DeploymentService.promote. rewrite activeCount_insertActive.
  destruct (projectId =? other) eqn:E.
  - apply Nat.eqb_eq in E. subst other.
    rewrite activeCount_deactivate_same. reflexivity.
  - apply Nat.eqb_neq in E.
    rewrite activeCount_deactivate_other by congruence. lia.
Qed.

Lemma atMostOneActive_promote id projectId buildId t d :
  atMostOneActive d ->
  atMostOneActive (DeploymentService.promote id projectId buildId t d).
Proof.
  intros H other. rewrite activeCount_promote.
  destruct (projectId =? other); [lia | apply H].
Qed.

(** Whatever only switches deployments off, or removes some, cannot make
    a second one active. *)
Lemma activeCount_filter projectId keep d :
  activeCount projectId (with_deployments (filter keep (deployments d)) d)
  <= activeCount projectId d.
Proof.
  unfold activeCount. simpl.
  induction (deployments d) as [|x l IH]; simpl; [lia|].
  destruct (keep x); simpl;
    destruct ((d_project_id x =? projectId) && is_active (d_status x));
    simpl; lia.
Qed.

Lemma activeCount_switch_off projectId (chosen : Deployment -> bool) d :
  activeCount projectId
    (with_deployments
       (map (fun x =>
               if chosen x
               then mkDeployment (d_id x) (d_project_id x) (d_build_id x)
                      inactive (d_activated_at x)
               else x)
            (deployments d)) d)
  <= activeCount projectId d.
Proof.
  unfold activeCount. simpl.
  induction (deployments d) as [|x l IH]; simpl; [lia|].
  destruct (chosen x); simpl.
  - rewrite andb_false_r.
    destruct ((d_project_id x =? projectId) && is_active (d_status x));
      simpl; lia.
  - destruct ((d_project_id x =? projectId) && is_active (d_status x));
      simpl; lia.
Qed.

Lemma atMostOneActive_same_deployments d d' :
  deployments d' = deployments d -> atMostOneActive d -> atMostOneActive d'.
Proof.
  intros E H projectId. unfold activeCount. rewrite E. apply H.
Qed.

(** ** DeploymentService.activateBuild *)

Section ActivateBuild.
Context {platform : Platform}.

(** What a run of [activateBuild] can do. If it returns, the deploy
    engine answered the call with a 2xx and one transaction was
    committed, holding both the deactivation and the new active record.
    If it throws, nothing was written at all. *)
Lemma activateBuild_outcome (projectId buildId : uuid) (w : World) :
  wp (DeploymentService.activateBuild projectId buildId) w
    (fun r w' =>
       match r with
       | Ok _ =>
           ~ engineFails w
           /\ (exists id t,
                  db w' = DeploymentService.promote id projectId buildId t (db w))
           /\ commits w' = db w' :: commits w
       | Throw _ => unchanged w w'
       end).
Proof.
  unfold DeploymentService.activateBuild, unchanged.
  wp_step. wp_step; [auto|].
  destruct (find _ _) as [project|]; [|wp_step; auto].
  destruct (truthy_port _) as [port|]; [|wp_step; auto].
  wp_step. apply wp_getAsRecord; intros; world; [auto|].
  wp_step. apply wp_fetch; intros; world; auto.
  wp_step.
  destruct (res_ok _) eqn:Hok; simpl negb; cbv iota.
  - wp_step. wp_step. wp_step. wp_step. wp_step; [auto|].
    wp_step. wp_step. wp_step. wp_step. wp_step; [auto|].
    wp_step. split; [|split].
    + unfold engineFails. rewrite H. rewrite Hok. discriminate.
    + eexists _, _. reflexivity.
    + reflexivity.
  - wp_step. auto.
Qed.

Lemma activateBuild_keeps (projectId buildId : uuid) :
  respects (keeps atMostOneActive)
    (DeploymentService.activateBuild projectId buildId).
Proof.
  intros w [Hdb Hcommits].
  pose proof (activateBuild_outcome projectId buildId w) as H.
  unfold wp in H.
  destruct (DeploymentService.activateBuild projectId buildId w) as [[v|e] w'];
    simpl in *.
  - destruct H as (_ & (id & t & Hpromote) & Hc).
    assert (Hnew : atMostOneActive (db w'))
      by (rewrite Hpromote; apply atMostOneActive_promote; exact Hdb).
    split; [exact Hnew|]. rewrite Hc. constructor; assumption.
  - destruct H as [H1 H2]. unfold always. rewrite H1, H2.
    split; assumption.
Qed.

End ActivateBuild.

(** ** Every operation keeps at most one active deployment *)

Lemma keeps_execute {A} (write : DB -> A * DB) :
  (forall d projectId,
      activeCount projectId (snd (write d)) <= activeCount projectId d) ->
  respects (keeps atMostOneActive) (execute write).
Proof.
  intros Hle. apply respects_execute; [typeclasses eauto|].
  intros w [Hdb Hc].
  assert (Hnew : atMostOneActive (snd (write (db w)))).
  { intros projectId. specialize (Hle (db w) projectId).
    specialize (Hdb projectId). lia. }
  split; world; [exact Hnew | constructor; assumption].
Qed.

Lemma keeps_tx_execute {A} (write : DB -> A * DB) :
  (forall d projectId,
      activeCount projectId (snd (write d)) <= activeCount projectId d) ->
  respects (keeps atMostOneActive) (tx_execute write).
Proof.
  intros Hle. apply respects_tx_execute; [typeclasses eauto|].
  intros w [Hdb Hc]. split; world; [|exact Hc].
  intros projectId. specialize (Hle (db w) projectId).
  specialize (Hdb projectId). lia.
Qed.

Lemma keeps_transaction {A} (inv : DB -> Prop) (body : M A) :
  respects (keeps inv) body -> respects (keeps inv) (transaction body).
Proof.
  intros Hbody w Hw. unfold transaction. specialize (Hbody w Hw).
  destruct (body w) as [[a|e] w']; simpl in *.
  - destruct Hbody as [Hdb Hc]. split; world; [exact Hdb|].
    constructor; assumption.
  - destruct Hbody as [Hdb Hc]. destruct Hw as [Hdb0 _].
    split; world; assumption.
Qed.

(** The side condition of a write that leaves the deployments alone,
    removes some, or switches some off. *)
Ltac quiet_write :=
  intros; cbn [snd fst];
  first
    [ apply activeCount_filter
    | apply activeCount_switch_off
    | apply Nat.eq_le_incl; reflexivity ].

(** [respect], with the writes and the calls already shown to keep the
    invariant. *)
Ltac keep_with known :=
  respect_with
    ltac:(first
            [ known
            | reads
            | lazymatch goal with
              | |- respects _ (execute _) => apply keeps_execute; quiet_write
              | |- respects _ (tx_execute _) =>
                  apply keeps_tx_execute; quiet_write
              | |- respects _ (transaction _) => apply keeps_transaction
              | |- respects _ (DeploymentService.activateBuild _ _) =>
                  apply activateBuild_keeps
              end ]).

Ltac keep := keep_with fail.

Section Keeps.
Context {platform : Platform}.

Lemma stop_keeps projectId :
  respects (keeps atMostOneActive) (DeploymentService.stop projectId).
Proof. unfold DeploymentService.stop. keep. Qed.

Lemma insertEnvVars_keeps projectId entries :
  respects (keeps atMostOneActive)
    (ProjectService.insertEnvVars projectId entries).
Proof.
  induction entries as [|[key value] rest IH]; simpl; keep.
Qed.

Lemma ProjectService_create_keeps data :
  respects (keeps atMostOneActive) (ProjectService.create data).
Proof.
  unfold ProjectService.create. keep_with
    ltac:(idtac; lazymatch goal with
          | |- respects _ (ProjectService.insertEnvVars _ _) =>
              apply insertEnvVars_keeps
          end).
Qed.

Lemma ProjectService_update_keeps id data :
  respects (keeps atMostOneActive) (ProjectService.update id data).
Proof. unfold ProjectService.update. keep. Qed.

Lemma ProjectService_delete_keeps id :
  respects (keeps atMostOneActive) (ProjectService.delete id).
Proof. unfold ProjectService.delete. keep. Qed.

Lemma BuildService_create_keeps data :
  respects (keeps atMostOneActive) (BuildService.create data).
Proof. unfold BuildService.create, BuildService.handOver. keep. Qed.

Lemma updateStatus_keeps id status logs artifactId :
  respects (keeps atMostOneActive)
    (BuildService.updateStatus id status logs artifactId).
Proof. unfold BuildService.updateStatus, completedAt. keep. Qed.

Lemma pushLoop_keeps connectedProjects commitSha commitMessage :
  forall buildsTriggered buildsSkipped,
    respects (keeps atMostOneActive)
      (githubWebhook.pushLoop connectedProjects commitSha commitMessage
         buildsTriggered buildsSkipped).
Proof.
  induction connectedProjects as [|project rest IH]; intros; simpl.
  - keep.
  - keep_with
      ltac:(idtac; lazymatch goal with
            | |- respects _ (githubWebhook.pushLoop _ _ _ _ _) => apply IH
            | |- respects _ (BuildService.create _) =>
                apply BuildService_create_keeps
            end).
Qed.

Lemma webhook_keeps request :
  respects (keeps atMostOneActive) (githubWebhook.post request).
Proof.
  unfold githubWebhook.post, githubWebhook.dispatch,
    githubWebhook.pushEvent, githubWebhook.triggerBuilds,
    githubWebhook.installationEvent, githubWebhook.internalError.
  keep_with
    ltac:(idtac; lazymatch goal with
          | |- respects _ (githubWebhook.pushLoop _ _ _ _ _) =>
              apply pushLoop_keeps
          end).
Qed.

Lemma route_keeps call : respects (keeps atMostOneActive) (route call).
Proof.
  destruct call; simpl.
  - unfold projectsRoutes.get_all. keep.
  - unfold projectsRoutes.post.
    keep_with
      ltac:(idtac; lazymatch goal with
            | |- respects _ (ProjectService.create _) =>
                apply ProjectService_create_keeps
            end).
  - unfold projectsRoutes.get_one. keep.
  - unfold projectsRoutes.put.
    keep_with
      ltac:(idtac; lazymatch goal with
            | |- respects _ (ProjectService.update _ _) =>
                apply ProjectService_update_keeps
            end).
  - unfold projectsRoutes.delete.
    keep_with
      ltac:(idtac; lazymatch goal with
            | |- respects _ (ProjectService.delete _) =>
                apply ProjectService_delete_keeps
            end).
  - unfold projectsRoutes.stop. keep_with
      ltac:(idtac; lazymatch goal with
            | |- respects _ (DeploymentService.stop _) => apply stop_keeps
            end).
  - unfold buildsRoutes.post.
    keep_with
      ltac:(idtac; lazymatch goal with
            | |- respects _ (BuildService.create _) =>
                apply BuildService_create_keeps
            end).
  - unfold internalBuildRoutes.put.
    keep_with
      ltac:(idtac; lazymatch goal with
            | |- respects _ (BuildService.updateStatus _ _ _ _) =>
                apply updateStatus_keeps
            end).
  - unfold deploymentsRoutes.activate. keep.
  - apply webhook_keeps.
Qed.

Lemma serve_keeps call weather w :
  always atMostOneActive w ->
  always atMostOneActive (snd (serve call weather w)).
Proof.
  intros Hw. unfold serve, handle.
  pose proof (@route_keeps call) as H.
  specialize (H (arrive weather w)).
  destruct (route call (arrive weather w)) as [[result|message] w'];
    simpl in *; apply H; exact Hw.
Qed.

Lemma history_keeps calls :
  forall w,
    always atMostOneActive w -> always atMostOneActive (history calls w).
Proof.
  induction calls as [|[call weather] later IH]; intros w Hw; simpl.
  - exact Hw.
  - apply IH, serve_keeps, Hw.
Qed.

Lemma boot_always e random : always atMostOneActive (boot e random).
Proof.
  assert (H : atMostOneActive emptyDB) by (intros p; cbv; lia).
  split; simpl; [exact H | constructor; [exact H | constructor]].
Qed.

End Keeps.

(** ** The active-deployment invariant *)

(** X1. When the requests are served one after the other, there is for
    every project at most one deployment with status active in every
    committed state: whatever requests the control plane has served
    since start-up, and whatever failed while it served them, every
    state in the commit history has at most one active deployment per
    project. And [activateBuild] makes the new deployment active in the
    same transaction that makes the prior active one inactive: a run
    that returns has committed exactly once, the state in which the
    project's former active deployments are inactive and the new record is
    the project's only active one; a run that throws has committed
    nothing. *)
Theorem at_most_one_active_deployment {platform : Platform} :
  (forall e random calls,
      Forall atMostOneActive (commits (history calls (boot e random))))
  /\ (forall projectId buildId w,
         wp (DeploymentService.activateBuild projectId buildId) w
           (fun r w' =>
              match r with
              | Ok _ =>
                  exists id t,
                    commits w'
                    = DeploymentService.promote id projectId buildId t (db w)
                      :: commits w
              | Throw _ => commits w' = commits w
              end))
  /\ (forall id projectId buildId t d,
         activeCount projectId
           (DeploymentService.promote id projectId buildId t d) = 1
         /\ In (mkDeployment id projectId buildId active t)
               (deployments
                  (DeploymentService.promote id projectId buildId t d))).
Proof.
  split; [|split].
  - intros e random calls.
    apply (history_keeps calls (boot_always e random)).
  - intros projectId buildId w.
    eapply wp_mono; [apply activateBuild_outcome|].
    intros [v|message] w'.
    + intros (_ & (id & t & Hdb) & Hc). exists id, t. congruence.
    + intros [_ Hc]. exact Hc.
  - intros id projectId buildId t d. split.
    + rewrite activeCount_promote, Nat.eqb_refl. reflexivity.
    + unfold DeploymentService.promote, DeploymentService.insertActive.
      simpl. apply in_or_app. right. left. reflexivity.
Qed.

(** A promotion at work: build 9 of project hello is activated while
    build 3 is live; the one commit holds both changes. *)
Example activateBuild_promotes :
  let w := Sample.world Sample.deployed (mkWeather [] [Sample.ok]) in
  let run := @DeploymentService.activateBuild Sample.platform 1 9 w in
  fst run = Ok true
  /\ deployments (db (snd run))
     = [mkDeployment 5 1 3 inactive 21; mkDeployment 100 1 9 active 100]
  /\ commits (snd run) = [db (snd run); Sample.deployed].
Proof. vm_compute. repeat split. Qed.

(** ** Two activations at once *)

Lemma existsb_eqb_absent (id : uuid) (ids : list uuid) :
  ~ In id ids -> existsb (Nat.eqb id) ids = false.
Proof.
  intros Hnot. induction ids as [|y ids IH]; [reflexivity|].
  simpl. destruct (Nat.eqb_spec id y) as [->|Hne].
  - exfalso. apply Hnot. left. reflexivity.
  - apply IH. intros Hin. apply Hnot. right. exact Hin.
Qed.

(** With ids that are keys, the rows whose id an UPDATE has recorded
    are the rows that satisfied its WHERE clause. *)
Lemma recorded_rows (f : Deployment -> bool) (l : list Deployment) :
  NoDup (map d_id l) ->
  forall x, In x l ->
    existsb (Nat.eqb (d_id x)) (map d_id (filter f l)) = f x.
Proof.
  induction l as [|y l IH]; intros Hkeys x Hin; [contradiction|].
  simpl in Hkeys. inversion Hkeys as [|? ? Hfresh Hrest]; subst.
  assert (Hsub : forall id, In id (map d_id (filter f l)) -> In id (map d_id l)).
  { intros id Hid. apply in_map_iff in Hid. destruct Hid as (z & <- & Hz).
    apply filter_In in Hz. apply in_map. apply Hz. }
  destruct Hin as [-> | Hin]; simpl.
  - destruct (f x) eqn:Hf; simpl.
    + rewrite Nat.eqb_refl. reflexivity.
    + apply existsb_eqb_absent. intros Hid. apply Hfresh, Hsub, Hid.
  - assert (Hne : d_id x <> d_id y).
    { intros E. apply Hfresh. rewrite <- E. apply in_map. exact Hin. }
    destruct (f y); simpl.
    + destruct (Nat.eqb_spec (d_id x) (d_id y)); [contradiction|].
      apply IH; assumption.
    + apply IH; assumption.
Qed.

(** A transaction that meets no other commits what the transaction of
    [activateBuild] commits when requests are served one at a time. *)
Lemma activation_alone (d : DB) (projectId buildId id : uuid)
  (t : timestamp) :
  NoDup (map d_id (deployments d)) ->
  schedule [0; 0; 0] (mkPool d [activation projectId buildId id t])
  = Some (mkPool (DeploymentService.promote id projectId buildId t d)
            [at_stage Committed nothing_pending
               (activation projectId buildId id t)]).
Proof.
  intros Hkeys.
  assert (Hrows :
    map (fun x =>
           if existsb (Nat.eqb (d_id x))
                (map d_id (filter (activeOf projectId) (deployments d)))
           then switch_off x else x)
        (deployments d)
    = deployments (DeploymentService.deactivate projectId d)).
  { unfold DeploymentService.deactivate. cbn.
    apply map_ext_in. intros x Hin.
    rewrite (recorded_rows (activeOf projectId) _ Hkeys x Hin).
    reflexivity. }
  cbn. unfold overlay. cbn. rewrite Hrows. reflexivity.
Qed.

(** C1, as the code has it. [activateBuild] makes the prior active
    deployment inactive and inserts the new active one in one
    transaction, and a transaction that meets no other commits exactly
    that. But nothing keeps two such transactions for one project from
    overlapping, and then both commit an active deployment. For a
    project that has no active deployment, both UPDATEs find no row and
    both rows inserted are committed active. For a project that has
    one, the second UPDATE waits for the first transaction, finds the
    old row inactive when that has committed, does not see the row the
    first one inserted, and the second INSERT adds another active
    row. *)
Theorem overlapping_activations_commit_two_active :
  (forall d projectId buildId id t,
      NoDup (map d_id (deployments d)) ->
      schedule [0; 0; 0] (mkPool d [activation projectId buildId id t])
      = Some (mkPool (DeploymentService.promote id projectId buildId t d)
                [at_stage Committed nothing_pending
                   (activation projectId buildId id t)]))
  /\ (let d := with_deployments [] Sample.building9 in
      let pool := mkPool d [activation 1 3 100 50; activation 1 9 101 51] in
      atMostOneActive d
      /\ exists pool',
          schedule [0; 1; 0; 1; 0; 1] pool = Some pool'
          /\ deployments (committed pool')
             = [mkDeployment 100 1 3 active 50;
                mkDeployment 101 1 9 active 51]
          /\ activeCount 1 (committed pool') = 2
          /\ ~ atMostOneActive (committed pool'))
  /\ (let d := Sample.building9 in
      let pool := mkPool d [activation 1 9 100 50; activation 1 9 101 51] in
      atMostOneActive d
      /\ (exists waiting,
             schedule [0; 1] pool = Some waiting
             /\ map s_stage (sessions waiting) = [AtInsert; Waiting [5]]
             /\ step 1 waiting = None)
      /\ exists pool',
          schedule [0; 1; 0; 0; 1; 1; 1] pool = Some pool'
          /\ deployments (committed pool')
             = [mkDeployment 5 1 3 inactive 21;
                mkDeployment 100 1 9 active 50;
                mkDeployment 101 1 9 active 51]
          /\ activeCount 1 (committed pool') = 2
          /\ ~ atMostOneActive (committed pool')).
Proof.
  split; [exact activation_alone|]. split.
  - cbv zeta. split; [intros p; vm_compute; lia|].
    eexists. split; [vm_compute; reflexivity|].
    split; [reflexivity|]. split; [reflexivity|].
    intros H. specialize (H 1). vm_compute in H. lia.
  - cbv zeta. split; [intros p; destruct p as [|[|p]]; vm_compute; lia|].
    split.
    + eexists. split; [vm_compute; reflexivity|].
      split; reflexivity.
    + eexists. split; [vm_compute; reflexivity|].
      split; [reflexivity|]. split; [reflexivity|].
      intros H. specialize (H 1). vm_compute in H. lia.
Qed.

(** ** A failing deploy engine *)

(** C10. If the call of [activateBuild] to the deploy engine fails (the
    engine is unreachable, the request is aborted, or the answer is not a
    2xx), [activateBuild] throws and has written nothing: the tables and
    the commit history are those it started with, so no deployment row
    was inserted and the prior active deployment is still active. *)
Theorem activateBuild_engine_failure {platform : Platform}
  (projectId buildId : uuid) (w : World) :
  engineFails w ->
  exists message,
    fst (DeploymentService.activateBuild projectId buildId w) = Throw message
    /\ db (snd (DeploymentService.activateBuild projectId buildId w)) = db w
    /\ commits (snd (DeploymentService.activateBuild projectId buildId w))
       = commits w.
Proof.
  intros Hfails.
  pose proof (activateBuild_outcome projectId buildId w) as H.
  unfold wp in H.
  destruct (DeploymentService.activateBuild projectId buildId w)
    as [[v|message] w']; simpl in *.
  - destruct H as [Hok _]. contradiction.
  - exists message. destruct H as [Hdb Hc]. auto.
Qed.

Lemma activateBuild_engine_failure_witness :
  let w := Sample.world Sample.deployed
             (mkWeather [] [Reply 500 (lit "Internal Server Error")
                              (lit "health check failed") false]) in
  engineFails w
  /\ exists message,
      fst (@DeploymentService.activateBuild Sample.platform 1 9 w)
      = Throw message
      /\ db (snd (@DeploymentService.activateBuild Sample.platform 1 9 w))
         = db w
      /\ commits (snd (@DeploymentService.activateBuild Sample.platform 1 9 w))
         = commits w.
Proof.
  split.
  - reflexivity.
  - apply (@activateBuild_engine_failure Sample.platform 1 9).
    reflexivity.
Defined.

(** The call was made, and it is the engine's answer that is thrown. *)
Example activateBuild_reports_the_engine :
  let w := Sample.world Sample.deployed
             (mkWeather [] [Reply 500 (lit "Internal Server Error")
                              (lit "health check failed") false]) in
  let run := @DeploymentService.activateBuild Sample.platform 1 9 w in
  fst run
  = Throw (lit "Deploy Engine activation failed: health check failed")
  /\ sent (snd run)
     = [Activate 1 9 8001 vite (lit "hello")
          [(lit "API_KEY", lit "plain")]]
  /\ deployments (db (snd run)) = [mkDeployment 5 1 3 active 21].
Proof. vm_compute. repeat split. Qed.

(** ** Validation of build commands *)

(** The everyday command [npm install && npm run build] is accepted,
    although its second segment begins with a space and so with none of
    the allowed prefixes: the segments are trimmed before they are
    looked at. *)
Lemma validateBuildCommand_trims_segments :
  let command := lit "npm install && npm run build" in
  SecurityService.validateBuildCommand command = Ok true
  /\ ~ SecurityService.spec_accepts command.
Proof.
  split; [reflexivity|].
  intros [Hsegments _].
  destruct (Hsegments (lit " npm run build")) as (prefix & rest & Hin & Heq).
  - vm_compute. auto.
  - discriminate.
  - vm_compute in Hin.
    repeat (destruct Hin as [<- | Hin]; [discriminate Heq|]).
    exact Hin.
Qed.

(** C4, amended. A build command is accepted if and only if every segment
    of its split on [&&] is, after trimming white space at both ends,
    either empty or begins with one of npm, yarn, pnpm, bun, echo, ls,
    and the whole string contains none of the dangerous patterns. Any
    other command makes the validation throw, and then both
    [POST /projects] and [PUT /projects/:id] answer 400 with the message
    of the error and leave the world as it was: no statement is sent to
    the database, so no project row is created or updated. *)
Theorem build_command_validation {platform : Platform} (command : str) :
  (SecurityService.validateBuildCommand command = Ok true
   <-> SecurityService.accepts command)
  /\ (SecurityService.validateBuildCommand command = Ok true
      \/ exists message,
          SecurityService.validateBuildCommand command = Throw message)
  /\ (forall message,
         SecurityService.validateBuildCommand command = Throw message ->
         (forall body w,
             pd_build_command body = command ->
             projectsRoutes.post body w
             = (Ok (mkHttpResult 400 (error_body message)), w))
         /\ (forall id body w,
                pp_build_command body = Some command ->
                projectsRoutes.put id body w
                = (Ok (mkHttpResult 400 (error_body message)), w))).
Proof.
  split; [apply validateBuildCommand_accepts_iff|].
  split; [apply validateBuildCommand_total|].
  intros message Hthrow. split.
  - intros body w <-.
    unfold projectsRoutes.post, try_catch, bind, lift.
    rewrite Hthrow. reflexivity.
  - intros id body w Hbody.
    unfold projectsRoutes.put, try_catch, bind, lift.
    rewrite Hbody. destruct command as [|c command].
    + vm_compute in Hthrow. discriminate.
    + cbn [Js.truthy_opt Js.truthy or_else]. rewrite Hthrow. reflexivity.
Qed.

(** Scenario 5 of the specification: [rm -rf / && npm run build] is
    refused with 400 and no row is created. *)
Example dangerous_command_is_refused :
  let body :=
    mkProjectData (lit "hello") (lit "https://github.com/acme/hello") None
      (lit "rm -rf / && npm run build") vite None None None None None None
      None in
  let w := Sample.world emptyDB Sample.fair in
  let run := @projectsRoutes.post Sample.platform body w in
  fst run
  = Ok (mkHttpResult 400
          (error_body (lit "Command contains dangerous pattern: "
                       ++ Js.dquote ++ lit "rm -rf" ++ Js.dquote)))
  /\ snd run = w.
Proof. vm_compute. split; reflexivity. Qed.

(** ** Writes that a relation allows *)

Lemma wp_respects {A} (R : World -> World -> Prop) (m : M A) w
  (Q : Result A -> World -> Prop) :
  respects R m -> (forall r w', R w w' -> Q r w') -> wp m w Q.
Proof. intros Hm HQ. apply HQ. apply Hm. Qed.

(** [respect] for a relation given by an equation between two worlds:
    [side] proves that equation for each write, commit and rollback. *)
Ltac write_with side known :=
  respect_with
    ltac:(first
            [ known
            | reads
            | lazymatch goal with
              | |- respects _ (execute _) =>
                  apply respects_execute; [typeclasses eauto | intros ?; side]
              | |- respects _ (tx_execute _) =>
                  apply respects_tx_execute;
                  [typeclasses eauto | intros ?; side]
              | |- respects _ (transaction _) =>
                  apply respects_transaction;
                  [intros ? ? ?; side | intros ? ? ?; side | ]
              end ]).

Ltac same_logs := unfold sameLogs in *; world; auto.
Ltac same_builds := unfold sameBuilds in *; world; auto.
Ltac same_timing := unfold sameTimingSafe in *; world; auto.

Section QuietCalls.
Context {platform : Platform}.

Lemma activateBuild_sameLogs projectId buildId :
  respects sameLogs (DeploymentService.activateBuild projectId buildId).
Proof.
  unfold DeploymentService.activateBuild. write_with same_logs fail.
Qed.

Lemma activateBuild_sameBuilds projectId buildId :
  respects sameBuilds (DeploymentService.activateBuild projectId buildId).
Proof.
  unfold DeploymentService.activateBuild. write_with same_builds fail.
Qed.

(** The build-service of the repository never writes to the log stream
    when it records a status, whatever becomes of the activation. *)
Lemma updateStatus_sameLogs id status logs artifactId :
  respects sameLogs (BuildService.updateStatus id status logs artifactId).
Proof.
  unfold BuildService.updateStatus, completedAt.
  write_with same_logs
    ltac:(idtac; lazymatch goal with
          | |- respects _ (DeploymentService.activateBuild _ _) =>
              apply activateBuild_sameLogs
          end).
Qed.

End QuietCalls.

(** ** Status updates of builds *)

Section UpdateStatus.
Context {platform : Platform}.

(** The clock readings of [updateStatus] write nothing; the value is a
    time exactly when the status is terminal. *)
Lemma wp_completedAt status w
  (Q : Result (option timestamp) -> World -> Prop) :
  (forall t w',
      db w' = db w -> commits w' = commits w -> faults w' = faults w ->
      Q (Ok (if is_terminal status then Some t else None)) w') ->
  wp (completedAt status) w Q.
Proof.
  intros HQ. unfold completedAt. destruct (is_terminal status).
  - repeat wp_step. apply HQ; reflexivity.
  - repeat wp_step. apply (HQ 0); reflexivity.
Qed.

(** The activation that follows a successful build is wrapped in a
    [try]: it never throws and never touches the builds. *)
Lemma wp_autoActivate projectId id w
  (Q : Result unit -> World -> Prop) :
  (forall w', builds (db w') = builds (db w) -> Q (Ok tt) w') ->
  wp (try_catch
        (_ <- DeploymentService.activateBuild projectId id;; ret tt)
        (fun _ => ret tt)) w Q.
Proof.
  intros HQ. wp_step.
  apply (wp_respects (R := sameBuilds)).
  - respect_with
      ltac:(idtac; lazymatch goal with
            | |- respects _ (DeploymentService.activateBuild _ _) =>
                apply activateBuild_sameBuilds
            end).
  - intros [[]|e] w' Hsame.
    + apply HQ. exact Hsame.
    + wp_step. apply HQ. exact Hsame.
Qed.

(** What [updateStatus] leaves in the builds table: when the UPDATE
    statement goes through, every row with the given id carries the
    given status, whatever it carried before; when it fails, the call
    throws and the table is as it was. *)
Lemma updateStatus_outcome id status logs artifactId w :
  wp (BuildService.updateStatus id status logs artifactId) w
    (fun r w' =>
       match r with
       | Ok updated =>
           exists t,
             builds (db w')
             = map (fun b =>
                      if b_id b =? id
                      then setStatus status logs artifactId
                             (if is_terminal status then Some t else None) b
                      else b)
                   (builds (db w))
             /\ updated = hd_error (filter (fun b => b_id b =? id)
                                           (builds (db w')))
       | Throw _ => builds (db w') = builds (db w)
       end).
Proof.
  unfold BuildService.updateStatus.
  wp_step. apply wp_completedAt. intros t w1 Hdb1 Hc1 Hf1.
  wp_step. wp_step; [rewrite Hdb1; reflexivity|].
  cbn [updateBuilds fst snd].
  set (rows := map _ (builds (db w1))).
  assert (Hrows : rows
                  = map (fun b =>
                           if b_id b =? id
                           then setStatus status logs artifactId
                                  (if is_terminal status then Some t else None)
                                  b
                           else b) (builds (db w)))
    by (subst rows; rewrite Hdb1; reflexivity).
  clearbody rows.
  assert (Hdone :
    forall w', builds (db w') = rows ->
      wp (ret (hd_error (filter (fun b => b_id b =? id) rows))) w'
        (fun r0 w'0 =>
           match r0 with
           | Ok updated =>
               exists t0,
                 builds (db w'0)
                 = map (fun b =>
                          if b_id b =? id
                          then setStatus status logs artifactId
                                 (if is_terminal status then Some t0 else None)
                                 b
                          else b)
                       (builds (db w))
                 /\ updated = hd_error (filter (fun b => b_id b =? id)
                                               (builds (db w'0)))
           | Throw _ => builds (db w'0) = builds (db w)
           end)).
  { intros w' Hw'. wp_step. exists t. rewrite Hw'. split; [exact Hrows|].
    reflexivity. }
  wp_step.
  destruct status;
    try (wp_step; apply Hdone; reflexivity).
  destruct (hd_error _) as [row|].
  - apply wp_autoActivate. intros w' Hw'. apply Hdone. rewrite Hw'.
    reflexivity.
  - wp_step. apply Hdone. reflexivity.
Qed.

End UpdateStatus.

(** Build 3 of the sample has succeeded; a later [PUT /builds/3] with
    status pending, or with status failed, takes it out of its terminal
    state. *)
Lemma terminal_build_is_overwritten :
  let w := Sample.world Sample.deployed Sample.fair in
  let reopened := @internalBuildRoutes.put Sample.platform 3 pending w in
  let flipped := @internalBuildRoutes.put Sample.platform 3 failed w in
  map b_status (builds (db w)) = [success]
  /\ map b_status (builds (db (snd reopened))) = [pending]
  /\ map b_completed_at (builds (db (snd reopened))) = [None]
  /\ map b_status (builds (db (snd flipped))) = [failed].
Proof. vm_compute. repeat split. Qed.

(** C7, amended. A status update is applied unconditionally (the last
    write wins): when its UPDATE statement goes through,
    [BuildService.updateStatus], and so [PUT /builds/:id], leaves every
    build with the given id in the given status, whatever status it was
    in before, terminal or not, with [completed_at] set exactly when the
    new status is terminal, and leaves the other builds alone; when the
    statement fails the call throws and the builds are as they were. A
    build therefore stays in a terminal state only as long as no later
    update names another status. *)
Theorem status_update_last_write_wins {platform : Platform}
  (id : uuid) (status : BuildStatus) (w : World) :
  wp (internalBuildRoutes.put id status) w
    (fun r w' =>
       match r with
       | Ok _ =>
           List.length (builds (db w')) = List.length (builds (db w))
           /\ forall n before after,
               nth_error (builds (db w)) n = Some before ->
               nth_error (builds (db w')) n = Some after ->
               if b_id before =? id
               then b_status after = status
                    /\ (is_terminal status = true
                        <-> b_completed_at after <> None)
               else after = before
       | Throw _ => builds (db w') = builds (db w)
       end).
Proof.
  unfold internalBuildRoutes.put. wp_step.
  eapply wp_mono; [apply updateStatus_outcome|].
  intros [updated|e] w'; [|auto].
  intros (t & Hrows & _). wp_step. split.
  - rewrite Hrows, length_map. reflexivity.
  - intros n before after Hbefore Hafter.
    rewrite Hrows, nth_error_map, Hbefore in Hafter.
    injection Hafter as <-.
    destruct (b_id before =? id); [|reflexivity].
    split; [reflexivity|].
    simpl. destruct (is_terminal status); split; congruence.
Qed.

(** ** Auto-activation after a successful build *)

(** C6, as the code has it. When a build is recorded as successful the
    activation is attempted, and a failing activation leaves the build
    successful; but [BuildService.updateStatus] of build-service.ts
    writes nothing to the log stream, whatever becomes of the
    activation: the failure goes to the console only. *)
Theorem activation_failure_is_not_logged {platform : Platform}
  (id : uuid) (logs artifactId : option str) (w : World) :
  buildLogs (db (snd (BuildService.updateStatus id success logs artifactId w)))
  = buildLogs (db w).
Proof. apply updateStatus_sameLogs. Qed.

(** Build 9 is reported successful while the deploy engine refuses the
    activation. The build is successful and build 3 stays live, as the
    specification wants; the log stream of build 9 is empty, where the
    queue-based variant of the service leaves an entry of level error. *)
Example refused_activation :
  let w := Sample.world Sample.building9 (mkWeather [] [Sample.refusal]) in
  let run := @internalBuildRoutes.put Sample.platform 9 success w in
  let queued :=
    @QueuedBuildService.updateStatus Sample.platform 9 success None None w in
  map b_status (builds (db (snd run))) = [success; success]
  /\ deployments (db (snd run)) = [mkDeployment 5 1 3 active 21]
  /\ filter (fun l => l_build_id l =? 9) (buildLogs (db (snd run))) = []
  /\ map l_level
       (filter (fun l => l_build_id l =? 9) (buildLogs (db (snd queued))))
     = [level_deploy; level_error]
  /\ map b_status (builds (db (snd queued))) = [success; success].
Proof. vm_compute. repeat split. Qed.

(** ** Listing projects *)

(** C9, as the code has it. [GET /projects] answers with the rows of the
    projects table as they are, port included; it is [GET /projects/:id]
    that leaves the port out. *)
Theorem get_projects_exposes_port :
  let w := Sample.world Sample.justHello Sample.fair in
  fst (projectsRoutes.get_all w)
  = Ok (mkHttpResult 200 (JArray [JObject (Project_object Sample.hello)]))
  /\ In ("port"%string, JNumber 8001) (Project_object Sample.hello)
  /\ fst (projectsRoutes.get_one 1 w)
     = Ok (mkHttpResult 200
             (JObject (omit "port" (Project_object Sample.hello))))
  /\ has_property "port" (omit "port" (Project_object Sample.hello)) = false.
Proof. vm_compute. repeat split. auto 10. Qed.

(** Every object of the list has the property, whatever the table
    holds. *)
Lemma get_all_lists_rows (w : World) :
  faults w = [] ->
  fst (projectsRoutes.get_all w)
  = Ok (mkHttpResult 200
          (JArray (map (fun p => JObject (Project_object p))
                       (projects (db w)))))
  /\ forall p, has_property "port" (Project_object p) = true.
Proof.
  intros Hf. split; [|reflexivity].
  unfold projectsRoutes.get_all, ProjectService.getAll, bind, query,
    statement, ret.
  rewrite Hf. reflexivity.
Qed.

(** ** Deleting a project *)

(** C5, as the code has it. [ProjectService.delete] issues its four
    DELETE statements on [db] one after the other, outside any
    transaction. Here the third one fails: the call throws, and the
    environment variables and the deployments of the project are gone
    for good while its builds, their logs and the project row remain;
    two states in between were committed. *)
Theorem project_deletion_is_not_atomic :
  let w := Sample.world Sample.deployed
             (mkWeather [false; false; false; false; true] [Sample.ok]) in
  let run := @ProjectService.delete Sample.platform 1 w in
  fst run = Throw db_error
  /\ environmentVariables (db (snd run)) = []
  /\ deployments (db (snd run)) = []
  /\ builds (db (snd run)) = builds Sample.deployed
  /\ buildLogs (db (snd run)) = buildLogs Sample.deployed
  /\ projects (db (snd run)) = [Sample.hello]
  /\ commits (snd run)
     = [db (snd run);
        with_environmentVariables [] Sample.deployed;
        Sample.deployed].
Proof. vm_compute. repeat split. Qed.

(** With no failure the cascade goes through, in four commits; in the
    first three the project row is still there. The deploy engine was
    asked to clean up first, and its refusal did not stop the deletion. *)
Example project_deletion_commits_four_times :
  let w := Sample.world Sample.deployed (mkWeather [] [Sample.refusal]) in
  let run := @ProjectService.delete Sample.platform 1 w in
  fst run = Ok (Some Sample.hello)
  /\ db (snd run) = emptyDB
  /\ sent (snd run) = [ProjectDelete 1 (Some 8001) (lit "hello") [3]]
  /\ map (fun d => List.length (projects d)) (commits (snd run))
     = [0; 1; 1; 1; 1]
  /\ map (fun d => List.length (environmentVariables d)) (commits (snd run))
     = [0; 0; 0; 0; 1].
Proof. vm_compute. repeat split. Qed.

(** ** The signature of a webhook delivery *)

Section Webhook.
Context {platform : Platform}.

Lemma BuildService_create_sameTimingSafe data :
  respects sameTimingSafe (BuildService.create data).
Proof.
  unfold BuildService.create, BuildService.handOver.
  write_with same_timing fail.
Qed.

Lemma pushLoop_sameTimingSafe connectedProjects commitSha commitMessage :
  forall buildsTriggered buildsSkipped,
    respects sameTimingSafe
      (githubWebhook.pushLoop connectedProjects commitSha commitMessage
         buildsTriggered buildsSkipped).
Proof.
  induction connectedProjects as [|project rest IH]; intros; simpl.
  - respect.
  - write_with same_timing
      ltac:(idtac; lazymatch goal with
            | |- respects _ (githubWebhook.pushLoop _ _ _ _ _) => apply IH
            | |- respects _ (BuildService.create _) =>
                apply BuildService_create_sameTimingSafe
            end).
Qed.

(** The handler never goes through [crypto.timingSafeEqual]. *)
Lemma webhook_sameTimingSafe request :
  respects sameTimingSafe (githubWebhook.post request).
Proof.
  unfold githubWebhook.post, githubWebhook.dispatch,
    githubWebhook.pushEvent, githubWebhook.triggerBuilds,
    githubWebhook.installationEvent, githubWebhook.internalError.
  write_with same_timing
    ltac:(idtac; lazymatch goal with
          | |- respects _ (githubWebhook.pushLoop _ _ _ _ _) =>
              apply pushLoop_sameTimingSafe
          end).
Qed.

(** C2, as the code has it. Under a configured secret the handler
    computes the HMAC-SHA256 of the raw body, answers 401 and does
    nothing else whenever the signature header is missing, empty or
    different from [sha256=] followed by the hexadecimal digest, and goes
    on to parse and process the event only when the header equals it.
    The comparison is the [===] of two strings: the handler makes no
    constant-time comparison. *)
Theorem webhook_signature_check (request : WebhookRequest) (w : World)
  (secret : str) :
  GITHUB_WEBHOOK_SECRET (env w) = Some secret ->
  secret <> [] ->
  (x_hub_signature_256 request
   <> Some (expectedSignature secret (rawBody request)) ->
   exists message,
     githubWebhook.post request w
     = (Ok (mkHttpResult 401 (error_body message)), w))
  /\ (x_hub_signature_256 request
      = Some (expectedSignature secret (rawBody request)) ->
      githubWebhook.post request w = githubWebhook.dispatch request w)
  /\ timingSafe (snd (githubWebhook.post request w)) = timingSafe w.
Proof.
  intros Hsecret Hconfigured.
  split; [|split]; [| |apply webhook_sameTimingSafe].
  - intros Hdiffers. unfold githubWebhook.post.
    destruct (x_hub_signature_256 request) as [[|c signature]|] eqn:Hsig;
      cbn [Js.truthy_opt Js.truthy negb or_else];
      try (eexists; reflexivity).
    unfold GitHubService.verifyWebhookSignature, bind, try_catch, getenv, ret.
    rewrite Hsecret. destruct secret as [|s secret]; [congruence|].
    destruct (Js.eqb _ _) eqn:E.
    + apply eqb_eq in E. exfalso. apply Hdiffers.
      unfold expectedSignature. rewrite E. reflexivity.
    + eexists. reflexivity.
  - intros Hsig. unfold githubWebhook.post. rewrite Hsig.
    assert (Htruthy :
      Js.truthy_opt (Some (expectedSignature secret (rawBody request)))
      = true) by reflexivity.
    rewrite Htruthy. cbn [negb or_else].
    unfold GitHubService.verifyWebhookSignature, bind, try_catch, getenv, ret.
    rewrite Hsecret. destruct secret as [|s secret]; [congruence|].
    fold (expectedSignature (s :: secret) (rawBody request)).
    rewrite eqb_refl. reflexivity.
Qed.

End Webhook.

(** A delivery of the push for commit c1, signed with a wrong digest: the
    handler answers 401 and records no constant-time comparison; the
    stand-alone deploy webhook, given the same body and header, makes
    its comparison through [crypto.timingSafeEqual]. *)
Lemma webhook_signature_check_witness :
  let request :=
    mkWebhookRequest
      (Some (lit "sha256=" ++ Hex.encode (Sample.mac (lit "guess")
                                           (Sample.pushBody "c1"))))
      (Some (lit "push")) (Sample.pushBody "c1") in
  let w := Sample.world Sample.justHello Sample.fair in
  (exists message,
      @githubWebhook.post Sample.platform request w
      = (Ok (mkHttpResult 401 (error_body message)), w))
  /\ timingSafe (snd (@githubWebhook.post Sample.platform request w)) = []
  /\ List.length
       (timingSafe
          (snd (@deployWebhook.verify Sample.platform (rawBody request)
                  (x_hub_signature_256 request) w))) = 1.
Proof.
  intros request w.
  destruct (@webhook_signature_check Sample.platform request w (lit "s3cret"))
    as (Hreject & _ & Htiming).
  - reflexivity.
  - discriminate.
  - split; [|split].
    + apply Hreject. vm_compute. discriminate.
    + exact Htiming.
    + vm_compute. reflexivity.
Defined.

(** ** Hexadecimal text *)

Lemma decode_ofByte (b : Byte.byte) (s : str) :
  Hex.decode (Hex.ofByte b ++ s) = b :: Hex.decode s.
Proof. destruct b; reflexivity. Qed.

(** [Buffer.from(buffer.toString('hex'), 'hex')] is the buffer. *)
Lemma decode_encode (b : bytes) : Hex.decode (Hex.encode b) = b.
Proof.
  induction b as [|x b IH]; [reflexivity|].
  change (Hex.encode (x :: b)) with (Hex.ofByte x ++ Hex.encode b).
  rewrite decode_ofByte, IH. reflexivity.
Qed.

Lemma ofByte_no_colon (b : Byte.byte) :
  forallb (fun c => negb (EnvService.isColon c)) (Hex.ofByte b) = true.
Proof. destruct b; reflexivity. Qed.

Lemma encode_no_colon (b : bytes) :
  forallb (fun c => negb (EnvService.isColon c)) (Hex.encode b) = true.
Proof.
  induction b as [|x b IH]; [reflexivity|].
  change (Hex.encode (x :: b)) with (Hex.ofByte x ++ Hex.encode b).
  rewrite forallb_app, ofByte_no_colon, IH. reflexivity.
Qed.

Lemma encode_truthy (b : bytes) : b <> [] -> Js.truthy (Hex.encode b) = true.
Proof.
  destruct b as [|x b]; [congruence|]. intros _.
  change (Hex.encode (x :: b)) with (Hex.ofByte x ++ Hex.encode b).
  destruct x; reflexivity.
Qed.

(** The hexadecimal text of a buffer has two digits per byte. *)
Lemma encode_even (b : bytes) : Nat.odd (List.length (Hex.encode b)) = false.
Proof.
  induction b as [|x b IH]; [reflexivity|].
  change (Hex.encode (x :: b)) with (Hex.ofByte x ++ Hex.encode b).
  exact IH.
Qed.

(** Splitting on the colon: a colon-free head is the first segment. *)
Lemma split_colon_head (h : str) :
  forallb (fun c => negb (EnvService.isColon c)) h = true ->
  forall cur rest,
    Js.split_from EnvService.colon 0 cur (h ++ 58%N :: rest)
    = (rev cur ++ h) :: Js.split_from EnvService.colon 0 [] rest.
Proof.
  induction h as [|c h IH]; intros Hh cur rest.
  - simpl. rewrite app_nil_r. reflexivity.
  - simpl in Hh. apply andb_true_iff in Hh. destruct Hh as [Hc Hh].
    change (Js.split_from EnvService.colon 0 cur ((c :: h) ++ 58%N :: rest))
      with (if Js.startsWith (c :: h ++ 58%N :: rest) EnvService.colon
            then rev cur
                 :: Js.split_from EnvService.colon
                      (List.length EnvService.colon - 1) [] (h ++ 58%N :: rest)
            else Js.split_from EnvService.colon 0 (c :: cur)
                   (h ++ 58%N :: rest)).
    assert (E : Js.startsWith (c :: h ++ 58%N :: rest) EnvService.colon
                = false).
    { change (Js.startsWith (c :: h ++ 58%N :: rest) EnvService.colon)
        with ((58 =? c)%N && true).
      unfold EnvService.isColon in Hc.
      rewrite N.eqb_sym. apply negb_true_iff in Hc. rewrite Hc. reflexivity. }
    rewrite E, IH by exact Hh. simpl. rewrite <- app_assoc. reflexivity.
Qed.

Lemma split_colon_last (h : str) :
  forallb (fun c => negb (EnvService.isColon c)) h = true ->
  forall cur, Js.split_from EnvService.colon 0 cur h = [rev cur ++ h].
Proof.
  induction h as [|c h IH]; intros Hh cur.
  - simpl. rewrite app_nil_r. reflexivity.
  - simpl in Hh. apply andb_true_iff in Hh. destruct Hh as [Hc Hh].
    change (Js.split_from EnvService.colon 0 cur (c :: h))
      with (if Js.startsWith (c :: h) EnvService.colon
            then rev cur
                 :: Js.split_from EnvService.colon
                      (List.length EnvService.colon - 1) [] h
            else Js.split_from EnvService.colon 0 (c :: cur) h).
    assert (E : Js.startsWith (c :: h) EnvService.colon = false).
    { change (Js.startsWith (c :: h) EnvService.colon)
        with ((58 =? c)%N && true).
      unfold EnvService.isColon in Hc.
      rewrite N.eqb_sym. apply negb_true_iff in Hc. rewrite Hc. reflexivity. }
    rewrite E, IH by exact Hh. simpl. rewrite <- app_assoc. reflexivity.
Qed.

(** The storage string of [encrypt] splits into its three parts. *)
Lemma split_stored (iv authTag encrypted : bytes) :
  Js.split (Hex.encode iv ++ EnvService.colon ++ Hex.encode authTag
            ++ EnvService.colon ++ Hex.encode encrypted) EnvService.colon
  = [Hex.encode iv; Hex.encode authTag; Hex.encode encrypted].
Proof.
  change (Js.split ?s EnvService.colon)
    with (Js.split_from EnvService.colon 0 [] s).
  change (Hex.encode iv ++ EnvService.colon ++ Hex.encode authTag
          ++ EnvService.colon ++ Hex.encode encrypted)
    with (Hex.encode iv
          ++ 58%N :: (Hex.encode authTag ++ 58%N :: Hex.encode encrypted)).
  rewrite split_colon_head by apply encode_no_colon.
  rewrite split_colon_head by apply encode_no_colon.
  rewrite split_colon_last by apply encode_no_colon.
  reflexivity.
Qed.

Lemma includes_stored (a b : str) :
  Js.includes (a ++ EnvService.colon ++ b) EnvService.colon = true.
Proof. apply includes_iff. exists a, b. reflexivity. Qed.

(** ** Encryption of environment variables *)

Section Encryption.
Context {platform : Platform}.



End Encryption.

(** The toy cipher of the sample platform is a cipher in the sense of
    the theorem. *)
Lemma bytes_eqb_refl (b : bytes) : bytes_eqb b b = true.
Proof.
  induction b as [|x b IH]; [reflexivity|].
  simpl. rewrite IH. destruct x; reflexivity.
Qed.

Lemma sample_cipher_accepts_key iv plaintext :
  List.length iv = 12 ->
  @aes_256_gcm_encrypt Sample.platform (@ENCRYPTION_KEY Sample.platform)
    iv plaintext <> None.
Proof. discriminate. Qed.

Lemma sample_cipher_correct iv plaintext encrypted authTag :
  List.length iv = 12 ->
  @aes_256_gcm_encrypt Sample.platform (@ENCRYPTION_KEY Sample.platform)
    iv plaintext = Some (encrypted, authTag) ->
  @aes_256_gcm_decrypt Sample.platform (@ENCRYPTION_KEY Sample.platform)
    iv authTag encrypted = Some plaintext
  /\ List.length authTag = 16.
Proof.
  intros _ H.
  change (Some (rev plaintext,
                Sample.tagOf (@ENCRYPTION_KEY Sample.platform) iv
                  (rev plaintext)) = Some (encrypted, authTag)) in H.
  injection H as <- <-. split.
  - cbv [aes_256_gcm_decrypt ENCRYPTION_KEY Sample.platform Sample.decipher].
    change (List.length (lit "0123456789abcdef0123456789abcdef") =? 32)
      with true.
    cbn [andb]. rewrite bytes_eqb_refl, rev_involutive. reflexivity.
  - unfold Sample.tagOf. rewrite length_map, length_seq. reflexivity.
Qed.


(** What is stored for the value [hi] under the nonce 00 01 ... 0b, what
    it decrypts to, and what a stored value that is no encryption
    decrypts to: a ciphertext of an odd number of digits, a text with
    colons that is no encryption, a text with no colon. *)
Example stored_value :
  let w := Sample.world Sample.justHello Sample.fair in
  fst (@EnvService.encrypt Sample.platform (lit "hi") w)
  = Ok (lit "000102030405060708090a0b:d7d8d9dadbdcdddedfe0e1e2e3e4e5e6:6968")
  /\ @EnvService.decrypt Sample.platform
       (lit "000102030405060708090a0b:d7d8d9dadbdcdddedfe0e1e2e3e4e5e6:6968")
     = lit "hi"
  /\ @EnvService.decrypt Sample.platform
       (lit "000102030405060708090a0b:d7d8d9dadbdcdddedfe0e1e2e3e4e5e6:6968a")
     = lit "000102030405060708090a0b:d7d8d9dadbdcdddedfe0e1e2e3e4e5e6:6968a"
  /\ @EnvService.decrypt Sample.platform (lit "postgres://u:p@db:5432/app")
     = lit "postgres://u:p@db:5432/app"
  /\ @EnvService.decrypt Sample.platform (lit "plain") = lit "plain".
Proof. vm_compute. repeat split. Qed.

(** ** Builds triggered by a push *)

Lemma wp_statement_calm {A} (run : World -> Result A * World) w
  (Q : Result A -> World -> Prop) :
  faults w = [] -> wp run w Q -> wp (statement run) w Q.
Proof. intros Hcalm Hrun. unfold wp, statement. rewrite Hcalm. exact Hrun. Qed.

Lemma wp_query_calm {A} (read : DB -> A) w (Q : Result A -> World -> Prop) :
  faults w = [] -> Q (Ok (read (db w))) w -> wp (query read) w Q.
Proof. intros Hcalm HQ. apply wp_statement_calm; assumption. Qed.

Lemma wp_execute_calm {A} (write : DB -> A * DB) w
  (Q : Result A -> World -> Prop) :
  faults w = [] ->
  Q (Ok (fst (write (db w))))
    (set_commits (snd (write (db w)) :: commits w)
       (set_db (snd (write (db w))) w)) ->
  wp (execute write) w Q.
Proof.
  intros Hcalm HQ. apply wp_statement_calm; [exact Hcalm|].
  unfold wp. cbn. destruct (write (db w)). exact HQ.
Qed.

Lemma buildKeys_insert (b : Build) (d : DB) :
  buildKeys (with_builds (builds d ++ [b]) d)
  = buildKeys d ++ [(b_project_id b, b_commit_sha b)].
Proof. unfold buildKeys. simpl. rewrite map_app. reflexivity. Qed.

Lemma buildKeys_markFailed id error t d :
  buildKeys (BuildService.markFailed id error t d) = buildKeys d.
Proof.
  unfold buildKeys, BuildService.markFailed. simpl. rewrite map_map.
  apply map_ext. intros b. destruct (b_id b =? id); reflexivity.
Qed.

Lemma hasKey_app projectId commitSha keys keys' :
  hasKey projectId commitSha (keys ++ keys')
  = hasKey projectId commitSha keys || hasKey projectId commitSha keys'.
Proof. apply existsb_app. Qed.

(** The idempotency query of the push handler finds a row exactly when
    some build of the project is for the commit. *)
Lemma existingBuild_hasKey projectId commitSha d :
  (0 <? List.length
          (firstn 1
             (filter (fun b =>
                        (b_project_id b =? projectId)
                        && sql_eq (b_commit_sha b) commitSha)
                     (builds d))))
  = hasKey projectId commitSha (buildKeys d).
Proof.
  unfold hasKey, buildKeys.
  induction (builds d) as [|b l IH]; [reflexivity|].
  simpl.
  destruct ((b_project_id b =? projectId) && sql_eq (b_commit_sha b) commitSha);
    [reflexivity | exact IH].
Qed.

Ltac same_keys :=
  unfold sameKeys in *; world;
  try rewrite buildKeys_markFailed; auto.
Ltac stay_calm := unfold calm in *; world; auto.
Ltac same_env := unfold sameEnv in *; world; auto.

Section Push.
Context {platform : Platform}.

Lemma handOver_sameKeys build :
  respects sameKeys (BuildService.handOver build).
Proof. unfold BuildService.handOver. write_with same_keys fail. Qed.

Lemma handOver_calm build : respects calm (BuildService.handOver build).
Proof. unfold BuildService.handOver. write_with stay_calm fail. Qed.

(** A call of [create]: the projects are untouched, and the builds gain
    at most one row, for the project and the commit given. *)
Lemma create_outcome data w :
  wp (BuildService.create data) w
    (fun _ w' =>
       projects (db w') = projects (db w)
       /\ (buildKeys (db w') = buildKeys (db w)
           \/ buildKeys (db w')
              = buildKeys (db w) ++ [(bd_project_id data, bd_commit_sha data)])).
Proof.
  unfold BuildService.create.
  wp_step. wp_step. wp_step. wp_step. wp_step. wp_step; [auto|].
  apply (wp_respects (R := sameKeys)).
  - respect_with
      ltac:(idtac; lazymatch goal with
            | |- respects _ (BuildService.handOver _) =>
                apply handOver_sameKeys
            end).
  - intros r w' [Hkeys Hprojects]. world.
    rewrite Hkeys, Hprojects, buildKeys_insert. auto.
Qed.

(** With no failing statement, the row is there when [create] is done. *)
Lemma create_calm data w :
  faults w = [] ->
  wp (BuildService.create data) w
    (fun _ w' =>
       faults w' = []
       /\ projects (db w') = projects (db w)
       /\ buildKeys (db w')
          = buildKeys (db w) ++ [(bd_project_id data, bd_commit_sha data)]).
Proof.
  intros Hcalm. unfold BuildService.create.
  wp_step. wp_step. wp_step. wp_step. wp_step.
  apply wp_execute_calm; [exact Hcalm|]. world.
  match goal with
  | |- wp ?m ?w1 _ =>
      assert (Hkeys : respects sameKeys m)
        by (respect_with
              ltac:(idtac; lazymatch goal with
                    | |- respects _ (BuildService.handOver _) =>
                        apply handOver_sameKeys
                    end));
      assert (Hstill : respects calm m)
        by (respect_with
              ltac:(idtac; lazymatch goal with
                    | |- respects _ (BuildService.handOver _) =>
                        apply handOver_calm
                    end));
      specialize (Hkeys w1); specialize (Hstill w1)
  end.
  unfold wp. destruct Hkeys as [Hk Hp]. world.
  rewrite Hk, Hp, buildKeys_insert. repeat split. apply Hstill. exact Hcalm.
Qed.

End Push.

Section PushLoop.
Context {platform : Platform}.

(** Who the loop may create a build for: a project of the list that is
    deployed automatically and, when the push names a commit, has no
    build for it yet. *)
Lemma pushLoop_outcome connectedProjects commitSha commitMessage :
  forall buildsTriggered buildsSkipped w,
    wp (githubWebhook.pushLoop connectedProjects commitSha commitMessage
          buildsTriggered buildsSkipped) w
      (fun _ w' =>
         projects (db w') = projects (db w)
         /\ exists created,
             buildKeys (db w') = buildKeys (db w) ++ created
             /\ Forall
                  (fun k =>
                     exists project,
                       In project connectedProjects
                       /\ p_auto_deploy project = true
                       /\ k = (p_id project, commitSha)
                       /\ forall sha,
                           commitSha = Some sha -> sha <> [] ->
                           hasKey (p_id project) sha (buildKeys (db w))
                           = false)
                  created).
Proof.
  induction connectedProjects as [|project rest IH];
    intros buildsTriggered buildsSkipped w;
    cbn [githubWebhook.pushLoop].
  - wp_step. split; [reflexivity|]. exists []. rewrite app_nil_r. auto.
  - assert (Hskip :
      forall triggered skipped w1,
        db w1 = db w ->
        wp (githubWebhook.pushLoop rest commitSha commitMessage triggered
              skipped) w1
          (fun _ w' =>
             projects (db w') = projects (db w)
             /\ exists created,
                 buildKeys (db w') = buildKeys (db w) ++ created
                 /\ Forall
                      (fun k =>
                         exists project0,
                           In project0 (project :: rest)
                           /\ p_auto_deploy project0 = true
                           /\ k = (p_id project0, commitSha)
                           /\ forall sha,
                               commitSha = Some sha -> sha <> [] ->
                               hasKey (p_id project0) sha (buildKeys (db w))
                               = false)
                      created)).
    { intros triggered skipped w1 Hdb.
      eapply wp_mono; [apply IH|].
      intros r w' (Hp & created & Hkeys & Hall). rewrite Hdb in *.
      split; [exact Hp|]. exists created. split; [exact Hkeys|].
      eapply Forall_impl; [|exact Hall].
      intros k (p & Hin & Hrest). exists p. split; [right; exact Hin|].
      exact Hrest. }
    destruct (p_auto_deploy project) eqn:Hauto; cbn [negb];
      [|apply Hskip; reflexivity].
    assert (Hcreate :
      forall w1,
        db w1 = db w ->
        (forall sha, commitSha = Some sha -> sha <> [] ->
                     hasKey (p_id project) sha (buildKeys (db w)) = false) ->
        wp (created <-
              try_catch
                (BuildService.create
                   (mkBuildData (p_id project) pending commitSha
                      commitMessage);;
                 ret true)
                (fun _ => ret false);;
            githubWebhook.pushLoop rest commitSha commitMessage
              (if (created : bool) then S buildsTriggered else buildsTriggered)
              buildsSkipped) w1
          (fun _ w' =>
             projects (db w') = projects (db w)
             /\ exists created,
                 buildKeys (db w') = buildKeys (db w) ++ created
                 /\ Forall
                      (fun k =>
                         exists project0,
                           In project0 (project :: rest)
                           /\ p_auto_deploy project0 = true
                           /\ k = (p_id project0, commitSha)
                           /\ forall sha,
                               commitSha = Some sha -> sha <> [] ->
                               hasKey (p_id project0) sha (buildKeys (db w))
                               = false)
                      created)).
    { intros w1 Hdb Hnew.
      assert (Hthen :
        forall triggered w2,
          projects (db w2) = projects (db w) ->
          buildKeys (db w2) = buildKeys (db w)
          \/ buildKeys (db w2)
             = buildKeys (db w) ++ [(p_id project, commitSha)] ->
          wp (githubWebhook.pushLoop rest commitSha commitMessage triggered
                buildsSkipped) w2
            (fun _ w' =>
               projects (db w') = projects (db w)
               /\ exists created,
                   buildKeys (db w') = buildKeys (db w) ++ created
                   /\ Forall
                        (fun k =>
                           exists project0,
                             In project0 (project :: rest)
                             /\ p_auto_deploy project0 = true
                             /\ k = (p_id project0, commitSha)
                             /\ forall sha,
                                 commitSha = Some sha -> sha <> [] ->
                                 hasKey (p_id project0) sha
                                   (buildKeys (db w)) = false)
                        created)).
      { intros triggered w2 Hp2 Hk2.
        eapply wp_mono; [apply IH|].
        intros r w' (Hp & created & Hkeys & Hall).
        split; [congruence|].
        assert (Hrest :
          forall prefix,
            buildKeys (db w2) = buildKeys (db w) ++ prefix ->
            Forall
              (fun k =>
                 exists project0,
                   In project0 (project :: rest)
                   /\ p_auto_deploy project0 = true
                   /\ k = (p_id project0, commitSha)
                   /\ forall sha,
                       commitSha = Some sha -> sha <> [] ->
                       hasKey (p_id project0) sha (buildKeys (db w)) = false)
              created).
        { intros prefix Hprefix. eapply Forall_impl; [|exact Hall].
          intros k (p & Hin & Ha & Hk & Hfresh).
          exists p. split; [right; exact Hin|].
          split; [exact Ha|]. split; [exact Hk|].
          intros sha Hsha Hne. specialize (Hfresh sha Hsha Hne).
          rewrite Hprefix, hasKey_app in Hfresh.
          apply orb_false_iff in Hfresh. apply Hfresh. }
        destruct Hk2 as [Hk2 | Hk2].
        - exists created. split; [congruence|].
          apply (Hrest []). rewrite app_nil_r. exact Hk2.
        - exists ((p_id project, commitSha) :: created). split.
          + rewrite Hkeys, Hk2, <- app_assoc. reflexivity.
          + constructor; [|exact (Hrest _ Hk2)].
            exists project. repeat split; auto. left. reflexivity. }
      wp_step. wp_step. wp_step.
      eapply wp_mono; [apply create_outcome|].
      intros [build|e] w2 [Hp2 Hk2]; rewrite Hdb in *; cbn [bd_project_id
        bd_commit_sha] in Hk2.
      - wp_step. apply Hthen; assumption.
      - wp_step. apply Hthen; assumption. }
    wp_step.
    destruct (Js.truthy_opt commitSha) eqn:Htruthy.
    + wp_step. wp_step.
      * split; [reflexivity|]. exists []. rewrite app_nil_r. auto.
      * wp_step. rewrite existingBuild_hasKey.
        destruct (hasKey _ _ _) eqn:Hkey.
        -- apply Hskip. reflexivity.
        -- apply Hcreate; [reflexivity|].
           intros sha -> _. exact Hkey.
    + wp_step. apply Hcreate; [reflexivity|].
      intros sha -> Hne. destruct sha; [congruence | discriminate Htruthy].
Qed.

(** When every project of the list that is deployed automatically has a
    build for the commit, the loop creates nothing: it writes nothing. *)
Lemma pushLoop_covered connectedProjects sha commitMessage :
  sha <> [] ->
  forall buildsTriggered buildsSkipped w,
    (forall project,
        In project connectedProjects -> p_auto_deploy project = true ->
        hasKey (p_id project) sha (buildKeys (db w)) = true) ->
    wp (githubWebhook.pushLoop connectedProjects (Some sha) commitMessage
          buildsTriggered buildsSkipped) w
      (fun _ w' => db w' = db w /\ commits w' = commits w).
Proof.
  intros Hsha.
  induction connectedProjects as [|project rest IH];
    intros buildsTriggered buildsSkipped w Hcovered;
    cbn [githubWebhook.pushLoop].
  - wp_step. auto.
  - destruct (p_auto_deploy project) eqn:Hauto; cbn [negb].
    + assert (Htruthy : Js.truthy_opt (Some sha) = true)
        by (destruct sha; [congruence | reflexivity]).
      rewrite Htruthy.
      wp_step. wp_step. wp_step; [auto|].
      wp_step. rewrite existingBuild_hasKey. cbn [or_else].
      rewrite (Hcovered project (or_introl eq_refl) Hauto).
      apply (IH _ _ (set_faults later w)).
      intros p Hin. apply Hcovered. right. exact Hin.
    + apply IH. intros p Hin. apply Hcovered. right. exact Hin.
Qed.

(** With no failing statement, the loop leaves a build for the commit
    for every project of the list that is deployed automatically. *)
Lemma pushLoop_calm connectedProjects sha commitMessage :
  sha <> [] ->
  forall buildsTriggered buildsSkipped w,
    faults w = [] ->
    wp (githubWebhook.pushLoop connectedProjects (Some sha) commitMessage
          buildsTriggered buildsSkipped) w
      (fun _ w' =>
         faults w' = []
         /\ projects (db w') = projects (db w)
         /\ (forall projectId,
                hasKey projectId sha (buildKeys (db w)) = true ->
                hasKey projectId sha (buildKeys (db w')) = true)
         /\ forall project,
             In project connectedProjects -> p_auto_deploy project = true ->
             hasKey (p_id project) sha (buildKeys (db w')) = true).
Proof.
  intros Hsha.
  induction connectedProjects as [|project rest IH];
    intros buildsTriggered buildsSkipped w Hcalm;
    cbn [githubWebhook.pushLoop].
  - wp_step. repeat split; auto.
  - assert (Hnext :
      forall triggered skipped w1,
        faults w1 = [] ->
        projects (db w1) = projects (db w) ->
        (forall projectId,
            hasKey projectId sha (buildKeys (db w)) = true ->
            hasKey projectId sha (buildKeys (db w1)) = true) ->
        (p_auto_deploy project = true ->
         hasKey (p_id project) sha (buildKeys (db w1)) = true) ->
        wp (githubWebhook.pushLoop rest (Some sha) commitMessage triggered
              skipped) w1
          (fun _ w' =>
             faults w' = []
             /\ projects (db w') = projects (db w)
             /\ (forall projectId,
                    hasKey projectId sha (buildKeys (db w)) = true ->
                    hasKey projectId sha (buildKeys (db w')) = true)
             /\ forall project0,
                 In project0 (project :: rest) ->
                 p_auto_deploy project0 = true ->
                 hasKey (p_id project0) sha (buildKeys (db w')) = true)).
    { intros triggered skipped w1 Hcalm1 Hp1 Hmono1 Hhere.
      eapply wp_mono; [apply IH; exact Hcalm1|].
      intros r w' (Hcalm' & Hp' & Hmono' & Hall).
      repeat split; [exact Hcalm' | congruence | auto |].
      intros p [<- | Hin] Ha; auto. }
    destruct (p_auto_deploy project) eqn:Hauto; cbn [negb].
    + assert (Htruthy : Js.truthy_opt (Some sha) = true)
        by (destruct sha; [congruence | reflexivity]).
      rewrite Htruthy.
      wp_step. wp_step. apply wp_query_calm; [exact Hcalm|].
      wp_step. rewrite existingBuild_hasKey. cbn [or_else].
      destruct (hasKey (p_id project) sha (buildKeys (db w))) eqn:Hkey.
      * apply Hnext; auto.
      * wp_step. wp_step. wp_step.
        eapply wp_mono; [apply create_calm; exact Hcalm|].
        assert (Hadded :
          forall w2,
            buildKeys (db w2)
            = buildKeys (db w) ++ [(p_id project, Some sha)] ->
            (forall projectId,
                hasKey projectId sha (buildKeys (db w)) = true ->
                hasKey projectId sha (buildKeys (db w2)) = true)
            /\ hasKey (p_id project) sha (buildKeys (db w2)) = true).
        { intros w2 Hk2. rewrite Hk2. split.
          - intros projectId Hthere. rewrite hasKey_app, Hthere. reflexivity.
          - rewrite hasKey_app. apply orb_true_iff. right.
            unfold hasKey. cbn [existsb fst snd sql_eq].
            rewrite Nat.eqb_refl, eqb_refl. reflexivity. }
        intros [build|e] w2 (Hcalm2 & Hp2 & Hk2);
          cbn [bd_project_id bd_commit_sha] in Hk2;
          destruct (Hadded w2 Hk2) as [Hmono2 Hhere2];
          wp_step; apply Hnext; auto.
    + apply Hnext; auto. discriminate.
Qed.

End PushLoop.

Section PushHandler.
Context {platform : Platform}.

Lemma installationEvent_sameBuilds payload :
  respects sameBuilds (githubWebhook.installationEvent payload).
Proof.
  unfold githubWebhook.installationEvent. write_with same_builds fail.
Qed.

Lemma BuildService_create_sameEnv data :
  respects sameEnv (BuildService.create data).
Proof.
  unfold BuildService.create, BuildService.handOver.
  write_with same_env fail.
Qed.

Lemma pushLoop_sameEnv connectedProjects commitSha commitMessage :
  forall buildsTriggered buildsSkipped,
    respects sameEnv
      (githubWebhook.pushLoop connectedProjects commitSha commitMessage
         buildsTriggered buildsSkipped).
Proof.
  induction connectedProjects as [|project rest IH]; intros; simpl.
  - respect.
  - write_with same_env
      ltac:(idtac; lazymatch goal with
            | |- respects _ (githubWebhook.pushLoop _ _ _ _ _) => apply IH
            | |- respects _ (BuildService.create _) =>
                apply BuildService_create_sameEnv
            end).
Qed.

Lemma webhook_sameEnv request :
  respects sameEnv (githubWebhook.post request).
Proof.
  unfold githubWebhook.post, githubWebhook.dispatch,
    githubWebhook.pushEvent, githubWebhook.triggerBuilds,
    githubWebhook.installationEvent, githubWebhook.internalError.
  write_with same_env
    ltac:(idtac; lazymatch goal with
          | |- respects _ (githubWebhook.pushLoop _ _ _ _ _) =>
              apply pushLoop_sameEnv
          end).
Qed.

(** A delivery either is a push that gets through, and then the handler
    is the search for connected projects and the loop over them, or it
    leaves the builds alone. *)
Lemma post_cases request w :
  (exists push,
      pushed request (env w) = Some push
      /\ githubWebhook.post request w
         = try_catch
             (githubWebhook.triggerBuilds (push_repoId push)
                (push_branch push) (push_commitSha push)
                (push_commitMessage push))
             githubWebhook.internalError w)
  \/ (pushed request (env w) = None
      /\ builds (db (snd (githubWebhook.post request w))) = builds (db w)).
Proof.
  unfold githubWebhook.post, pushed.
  destruct (x_hub_signature_256 request) as [[|c signature]|];
    cbn [Js.truthy_opt Js.truthy negb or_else];
    try (right; split; reflexivity).
  unfold GitHubService.verifyWebhookSignature, bind, try_catch, getenv, ret.
  destruct (GITHUB_WEBHOOK_SECRET (env w)) as [[|s secret]|];
    try (right; split; reflexivity).
  fold (expectedSignature (s :: secret) (rawBody request)).
  destruct (Js.eqb _ _); [|right; split; reflexivity].
  unfold githubWebhook.dispatch.
  destruct (JSON_parse (rawBody request)) as [payload|];
    [|right; split; reflexivity].
  destruct (sql_eq (x_github_event request) (lit "installation")).
  { right. split; [reflexivity|].
    apply (@respects_try_catch sameBuilds _ _
             (githubWebhook.installationEvent payload)).
    - apply installationEvent_sameBuilds.
    - intros e. apply respects_ret. typeclasses eauto. }
  destruct (sql_eq (x_github_event request) (lit "push"));
    [|right; split; reflexivity].
  unfold githubWebhook.pushEvent.
  destruct (pl_ref payload) as [ref|]; [|right; split; reflexivity].
  destruct (pl_repository payload) as [repo|]; [|right; split; reflexivity].
  destruct (Js.truthy_opt (githubWebhook.installationIdOf payload));
    [|right; split; reflexivity].
  left. eexists. split; reflexivity.
Qed.

End PushHandler.

Section Deliveries.
Context {platform : Platform}.

(** Whom a delivery may create a build for. *)
Lemma post_creates request w :
  wp (githubWebhook.post request) w
    (fun _ w' =>
       exists created,
         buildKeys (db w') = buildKeys (db w) ++ created
         /\ Forall
              (fun k =>
                 exists push project,
                   pushed request (env w) = Some push
                   /\ In project (projects (db w))
                   /\ connected push project = true
                   /\ p_auto_deploy project = true
                   /\ k = (p_id project, push_commitSha push)
                   /\ forall sha,
                       push_commitSha push = Some sha -> sha <> [] ->
                       hasKey (p_id project) sha (buildKeys (db w)) = false)
              created).
Proof.
  destruct (post_cases request w) as [(push & Hpushed & Hpost) | [_ Hsame]].
  - eapply wp_rewrite; [exact Hpost|].
    assert (Hnone :
      forall w1, db w1 = db w ->
        exists created,
          buildKeys (db w1) = buildKeys (db w) ++ created
          /\ Forall
               (fun k =>
                  exists push0 project,
                    pushed request (env w) = Some push0
                    /\ In project (projects (db w))
                    /\ connected push0 project = true
                    /\ p_auto_deploy project = true
                    /\ k = (p_id project, push_commitSha push0)
                    /\ forall sha,
                        push_commitSha push0 = Some sha -> sha <> [] ->
                        hasKey (p_id project) sha (buildKeys (db w)) = false)
               created).
    { intros w1 ->. exists []. rewrite app_nil_r. auto. }
    apply wp_try_catch. unfold githubWebhook.triggerBuilds.
    wp_step. wp_step; [unfold githubWebhook.internalError; wp_step;
                       apply Hnone; reflexivity|].
    set (found := filter _ (projects (db w))).
    assert (Hfound : forall p, In p found ->
                               In p (projects (db w))
                               /\ connected push p = true).
    { intros p Hin. apply filter_In in Hin. exact Hin. }
    clearbody found.
    destruct found as [|project0 rest0]; [wp_step; apply Hnone; reflexivity|].
    wp_step.
    eapply wp_mono; [apply pushLoop_outcome|].
    intros r w' (_ & created & Hkeys & Hall). world.
    assert (Hdone :
      exists created0,
        buildKeys (db w') = buildKeys (db w) ++ created0
        /\ Forall
             (fun k =>
                exists push0 project,
                  pushed request (env w) = Some push0
                  /\ In project (projects (db w))
                  /\ connected push0 project = true
                  /\ p_auto_deploy project = true
                  /\ k = (p_id project, push_commitSha push0)
                  /\ forall sha,
                      push_commitSha push0 = Some sha -> sha <> [] ->
                      hasKey (p_id project) sha (buildKeys (db w)) = false)
             created0).
    { exists created. split; [exact Hkeys|].
      eapply Forall_impl; [|exact Hall].
      intros k (p & Hin & Hauto & Hk & Hfresh).
      destruct (Hfound p Hin) as [Hp Hconnected].
      exists push, p. repeat split; assumption. }
    destruct r as [counters|e].
    + wp_step. exact Hdone.
    + unfold githubWebhook.internalError. wp_step. exact Hdone.
  - unfold wp. exists []. rewrite app_nil_r. split; [|constructor].
    unfold buildKeys. rewrite Hsame. reflexivity.
Qed.

(** A push whose connected, automatically deployed projects all have a
    build for its commit already writes nothing. *)
Lemma triggerBuilds_covered push sha w :
  push_commitSha push = Some sha -> sha <> [] ->
  (forall project,
      In project (projects (db w)) -> connected push project = true ->
      p_auto_deploy project = true ->
      hasKey (p_id project) sha (buildKeys (db w)) = true) ->
  db (snd (try_catch
             (githubWebhook.triggerBuilds (push_repoId push)
                (push_branch push) (push_commitSha push)
                (push_commitMessage push))
             githubWebhook.internalError w)) = db w.
Proof.
  intros Hsha Hne Hcovered. rewrite Hsha.
  apply (@wp_try_catch _
           (githubWebhook.triggerBuilds (push_repoId push) (push_branch push)
              (Some sha) (push_commitMessage push))
           githubWebhook.internalError w (fun _ w' => db w' = db w)).
  unfold githubWebhook.triggerBuilds, githubWebhook.internalError.
  wp_step. wp_step; [wp_step; reflexivity|].
  set (found := filter _ (projects (db w))).
  assert (Hfound : forall p, In p found -> p_auto_deploy p = true ->
                             hasKey (p_id p) sha (buildKeys (db w)) = true).
  { intros p Hin. apply filter_In in Hin. destruct Hin as [Hin Hc].
    apply Hcovered; assumption. }
  clearbody found.
  destruct found as [|project0 rest0]; [wp_step; reflexivity|].
  wp_step.
  eapply wp_mono;
    [apply (pushLoop_covered (project0 :: rest0) (push_commitMessage push) Hne);
     exact Hfound|].
  intros [counters|e] w' [Hdb _]; wp_step; exact Hdb.
Qed.

(** After a push served with no failing statement, every connected,
    automatically deployed project has a build for its commit. *)
Lemma triggerBuilds_calm push sha w :
  push_commitSha push = Some sha -> sha <> [] ->
  faults w = [] ->
  let w' := snd (try_catch
                   (githubWebhook.triggerBuilds (push_repoId push)
                      (push_branch push) (push_commitSha push)
                      (push_commitMessage push))
                   githubWebhook.internalError w) in
  forall project,
    In project (projects (db w')) -> connected push project = true ->
    p_auto_deploy project = true ->
    hasKey (p_id project) sha (buildKeys (db w')) = true.
Proof.
  intros Hsha Hne Hcalm. rewrite Hsha.
  apply (@wp_try_catch _
           (githubWebhook.triggerBuilds (push_repoId push) (push_branch push)
              (Some sha) (push_commitMessage push))
           githubWebhook.internalError w
           (fun _ w' =>
              forall project,
                In project (projects (db w')) ->
                connected push project = true ->
                p_auto_deploy project = true ->
                hasKey (p_id project) sha (buildKeys (db w')) = true)).
  unfold githubWebhook.triggerBuilds, githubWebhook.internalError.
  wp_step. apply wp_query_calm; [exact Hcalm|].
  destruct (filter _ (projects (db w))) as [|project0 rest0] eqn:Hfound.
  - wp_step. intros p Hin Hc.
    assert (Hin' : In p []) by (rewrite <- Hfound; apply filter_In; auto).
    destruct Hin'.
  - wp_step.
    eapply wp_mono;
      [apply (pushLoop_calm (project0 :: rest0) (push_commitMessage push) Hne);
       exact Hcalm|].
    intros r w' (_ & Hprojects & _ & Hall).
    assert (Hdone :
      forall project,
        In project (projects (db w')) -> connected push project = true ->
        p_auto_deploy project = true ->
        hasKey (p_id project) sha (buildKeys (db w')) = true).
    { intros p Hin Hc. apply Hall. rewrite <- Hfound. apply filter_In.
      rewrite <- Hprojects. auto. }
    destruct r as [counters|e]; wp_step; exact Hdone.
Qed.

End Deliveries.

(** The push of a commit with an empty SHA is built again on every
    delivery: the second delivery of the same signed payload adds a
    second build for the same project and commit. *)
Lemma empty_commit_sha_is_built_twice :
  let request :=
    mkWebhookRequest
      (Some (@expectedSignature Sample.platform (lit "s3cret")
               (Sample.pushBody "")))
      (Some (lit "push")) (Sample.pushBody "") in
  let sunny := mkWeather [] [Sample.ok] in
  let w := Sample.world Sample.justHello sunny in
  let first := @githubWebhook.post Sample.platform request w in
  let second :=
    @githubWebhook.post Sample.platform request (arrive sunny (snd first)) in
  buildKeys (db w) = []
  /\ buildKeys (db (snd first)) = [(1, Some [])]
  /\ hasKey 1 [] (buildKeys (db (snd first))) = true
  /\ buildKeys (db (snd second)) = [(1, Some []); (1, Some [])]
  /\ fst second
     = Ok (mkHttpResult 200
             (JObject [("processed", JBool true);
                       ("builds_triggered", JNumber 1);
                       ("builds_skipped", JNumber 0)]%string)).
Proof. vm_compute. repeat split. Qed.

(** C3, amended. Processing a delivery creates builds only if it is a
    verified push, and then only for projects connected to the
    repository and branch that have [auto_deploy] set and, when the
    commit SHA of the push is present and not the empty string, no build
    yet for that project and commit; each build created carries the
    project and the commit of the push. Consequently, when a delivery
    whose commit SHA is present and not empty has been served with no
    failing database statement, delivering the same signed payload a
    second time creates no build, whatever fails then. (With the SHA
    missing or empty, the check is skipped and every delivery builds
    again.) *)
Theorem push_builds_are_deduplicated {platform : Platform}
  (request : WebhookRequest) (w : World) :
  wp (githubWebhook.post request) w
    (fun _ w' =>
       exists created,
         buildKeys (db w') = buildKeys (db w) ++ created
         /\ Forall
              (fun k =>
                 exists push project,
                   pushed request (env w) = Some push
                   /\ In project (projects (db w))
                   /\ connected push project = true
                   /\ p_auto_deploy project = true
                   /\ k = (p_id project, push_commitSha push)
                   /\ forall sha,
                       push_commitSha push = Some sha -> sha <> [] ->
                       hasKey (p_id project) sha (buildKeys (db w)) = false)
              created)
  /\ ((forall push,
          pushed request (env w) = Some push ->
          Js.truthy_opt (push_commitSha push) = true) ->
      faults w = [] ->
      forall weather,
        builds
          (db (snd (githubWebhook.post request
                      (arrive weather
                         (snd (githubWebhook.post request w))))))
        = builds (db (snd (githubWebhook.post request w)))).
Proof.
  split; [apply post_creates|].
  intros Htruthy Hcalm weather.
  pose proof (webhook_sameEnv request w) as Henv. unfold sameEnv in Henv.
  set (w1 := snd (githubWebhook.post request w)) in *.
  assert (Henv2 : env (arrive weather w1) = env w) by exact Henv.
  destruct (post_cases request w) as [(push & Hpushed & Hpost) | [Hnone _]];
    destruct (post_cases request (arrive weather w1))
      as [(push2 & Hpushed2 & Hpost2) | [Hnone2 Hsame2]];
    rewrite Henv2 in *; try congruence.
  - assert (push2 = push) by congruence. subst push2.
    specialize (Htruthy push Hpushed).
    assert (Hsha : exists sha, push_commitSha push = Some sha /\ sha <> []).
    { destruct (push_commitSha push) as [[|c sha]|];
        try discriminate Htruthy.
      exists (c :: sha). split; [reflexivity | discriminate]. }
    destruct Hsha as (sha & Hsha & Hfull).
    rewrite Hpost2.
    rewrite (@triggerBuilds_covered platform push sha);
      [reflexivity | exact Hsha | exact Hfull |].
    change (db (arrive weather w1)) with (db w1).
    subst w1. rewrite Hpost.
    apply (@triggerBuilds_calm platform push sha);
      [exact Hsha | exact Hfull | exact Hcalm].
  - exact Hsame2.
Qed.

(** The replay hypotheses hold for the signed push of commit c1 to a
    store that holds project hello. *)
Lemma push_builds_are_deduplicated_witness :
  let request :=
    mkWebhookRequest
      (Some (@expectedSignature Sample.platform (lit "s3cret")
               (Sample.pushBody "c1")))
      (Some (lit "push")) (Sample.pushBody "c1") in
  let sunny := mkWeather [] [Sample.ok] in
  let w := Sample.world Sample.justHello sunny in
  (forall push,
      @pushed Sample.platform request (env w) = Some push ->
      Js.truthy_opt (push_commitSha push) = true)
  /\ faults w = []
  /\ builds
       (db (snd (@githubWebhook.post Sample.platform request
                   (arrive sunny
                      (snd (@githubWebhook.post Sample.platform
                              request w))))))
     = builds (db (snd (@githubWebhook.post Sample.platform request w))).
Proof.
  cbv zeta.
  assert (Htruthy :
    forall push,
      @pushed Sample.platform
        (mkWebhookRequest
           (Some (@expectedSignature Sample.platform (lit "s3cret")
                    (Sample.pushBody "c1")))
           (Some (lit "push")) (Sample.pushBody "c1"))
        (env (Sample.world Sample.justHello (mkWeather [] [Sample.ok])))
      = Some push ->
      Js.truthy_opt (push_commitSha push) = true).
  { intros push H. vm_compute in H. inversion H. reflexivity. }
  split; [exact Htruthy|].
  split; [reflexivity|].
  exact (proj2 (@push_builds_are_deduplicated Sample.platform _ _)
           Htruthy eq_refl (mkWeather [] [Sample.ok])).
Defined.

(** Scenario 2 of the specification: the push of commit c1 creates one
    build for project hello; the same delivery again creates none and
    reports the project as skipped. *)
Example push_replay :
  let request :=
    mkWebhookRequest
      (Some (@expectedSignature Sample.platform (lit "s3cret")
               (Sample.pushBody "c1")))
      (Some (lit "push")) (Sample.pushBody "c1") in
  let sunny := mkWeather [] [Sample.ok] in
  let w := Sample.world Sample.justHello sunny in
  let first := @githubWebhook.post Sample.platform request w in
  let second :=
    @githubWebhook.post Sample.platform request (arrive sunny (snd first)) in
  buildKeys (db (snd first)) = [(1, Some (lit "c1"))]
  /\ map b_status (builds (db (snd first))) = [pending]
  /\ sent (snd first)
     = [TriggerBuild 100 1 (lit "npm run build") []]
  /\ builds (db (snd second)) = builds (db (snd first))
  /\ fst second
     = Ok (mkHttpResult 200
             (JObject [("processed", JBool true);
                       ("builds_triggered", JNumber 0);
                       ("builds_skipped", JNumber 1)]%string)).
Proof. vm_compute. repeat split. Qed.

(* ================================================================== *)
(** * Further properties of the services *)
(* ================================================================== *)

(** ** Slugs *)

Lemma dropDashes_suffix (s : str) :
  exists dashes, s = dashes ++ dropDashes s.
Proof.
  induction s as [|c s [dashes IH]]; [exists []; reflexivity|].
  simpl. destruct (c =? 45)%N.
  - exists (c :: dashes). simpl. congruence.
  - exists []. reflexivity.
Qed.

Lemma dropDashes_head (s : str) : hd_error (dropDashes s) <> Some 45%N.
Proof.
  induction s as [|c s IH]; [discriminate|].
  simpl. destruct (c =? 45)%N eqn:E; [exact IH|].
  simpl. intros [= ->]. discriminate.
Qed.

Lemma slug_unit_isSlugUnit (c : N) : isSlugUnit (slug_unit c) = true.
Proof.
  unfold slug_unit, isSlugUnit.
  destruct ((97 <=? c) && (c <=? 122) || (48 <=? c) && (c <=? 57)
            || (c =? 45))%N eqn:E; [exact E | reflexivity].
Qed.

Lemma hd_error_app_nonempty {A} (a b : list A) :
  a <> [] -> hd_error (a ++ b) = hd_error a.
Proof. destruct a; [congruence | reflexivity]. Qed.

(** X2. A slug is made of the characters a-z, 0-9 and the dash only, and
    neither begins nor ends with a dash, whatever the name it is made
    from. *)
Theorem slugify_is_a_label {platform : Platform} (name : str) :
  Forall (fun c => isSlugUnit c = true) (slugify name)
  /\ hd_error (slugify name) <> Some 45%N
  /\ hd_error (rev (slugify name)) <> Some 45%N.
Proof.
  unfold slugify.
  set (units := map slug_unit (toLowerCase name)).
  assert (Hunits : Forall (fun c => isSlugUnit c = true) units).
  { apply Forall_forall. intros c Hc. apply in_map_iff in Hc.
    destruct Hc as (x & <- & _). apply slug_unit_isSlugUnit. }
  destruct (dropDashes_suffix units) as [lead Hlead].
  set (body := dropDashes units) in *.
  destruct (dropDashes_suffix (rev body)) as [trail Htrail].
  set (kept := dropDashes (rev body)) in *.
  assert (Hbody : body = rev kept ++ rev trail).
  { rewrite <- (rev_involutive body), Htrail, rev_app_distr. reflexivity. }
  split; [|split].
  - apply Forall_forall. intros c Hc.
    rewrite Forall_forall in Hunits. apply Hunits.
    rewrite Hlead. apply in_or_app. right.
    rewrite Hbody. apply in_or_app. left. exact Hc.
  - destruct (rev kept) as [|c rest] eqn:E; [discriminate|].
    pose proof (dropDashes_head units) as Hhead. fold body in Hhead.
    rewrite Hbody in Hhead. exact Hhead.
  - rewrite rev_involutive. apply dropDashes_head.
Qed.

(** ** The port of a new project *)









(** ** Creating a project *)

Lemma maxPort_fold_bound (rows : list Project) :
  forall acc,
    let m :=
      fold_left (fun acc p =>
                   match p_port p, acc with
                   | Some x, Some y => Some (Nat.max x y)
                   | Some x, None => Some x
                   | None, _ => acc
                   end) rows acc in
    (forall a, acc = Some a -> exists b, m = Some b /\ a <= b)
    /\ (forall p q, In p rows -> p_port p = Some q ->
        exists b, m = Some b /\ q <= b).
Proof.
  induction rows as [|r rows IH]; intros acc; simpl.
  - split; [eauto | contradiction].
  - set (acc' := match p_port r, acc with
                 | Some x, Some y => Some (Nat.max x y)
                 | Some x, None => Some x
                 | None, _ => acc
                 end).
    destruct (IH acc') as [Hacc Hrows]. split.
    + intros a ->. subst acc'.
      destruct (p_port r) as [x|].
      * destruct (Hacc (Nat.max x a) eq_refl) as (b & Hb & Hle).
        exists b. split; [exact Hb | lia].
      * apply Hacc. reflexivity.
    + intros p q [<- | Hin] Hq.
      * subst acc'. rewrite Hq in *.
        destruct acc as [y|].
        -- destruct (Hacc (Nat.max q y) eq_refl) as (b & Hb & Hle).
           exists b. split; [exact Hb | lia].
        -- apply Hacc. reflexivity.
      * apply (Hrows p q Hin Hq).
Qed.

(** [MAX(port)] is at least every port of the table. *)
Lemma maxPort_bound (rows : list Project) (p : Project) (q : nat) :
  In p rows -> p_port p = Some q ->
  exists m, maxPort rows = Some m /\ q <= m.
Proof.
  intros Hin Hq.
  destruct (maxPort_fold_bound rows None) as [_ H].
  exact (H p q Hin Hq).
Qed.

Lemma portLoop_from (fuel : nat) :
  forall nextPort w,
    wp (ProjectService.portLoop fuel nextPort) w
      (fun r w' =>
         db w' = db w /\ commits w' = commits w
         /\ match r with
            | Ok port => nextPort <= port
            | Throw _ => True
            end).
Proof.
  induction fuel as [|fuel IH]; intros nextPort w;
    cbn [ProjectService.portLoop].
  - wp_step. auto.
  - wp_step. wp_step. wp_step.
    apply wp_fetch; intros; world; try (wp_step; auto).
    destruct (if res_ok _ then _ else false).
    + wp_step. auto.
    + eapply wp_mono; [apply IH|].
      intros r w' (Hdb & Hc & Hport). world.
      repeat split; try assumption.
      destruct r; [lia | exact I].
Qed.

Lemma wp_findPort (nextPort : nat) w (Q : Result nat -> World -> Prop) :
  (forall r w',
      db w' = db w -> commits w' = commits w ->
      match r with Ok port => nextPort <= port | Throw _ => True end ->
      Q r w') ->
  wp (ProjectService.findPort nextPort) w Q.
Proof.
  intros HQ.
  pose proof (portLoop_from (S (List.length (replies w))) nextPort w) as H.
  unfold wp in *. unfold ProjectService.findPort.
  destruct H as (Hdb & Hc & Hport). apply HQ; assumption.
Qed.

Section CreateProject.
Context {platform : Platform}.

Lemma wp_encrypt (text : str) w (Q : Result str -> World -> Prop) :
  (forall iv w',
      List.length iv = 12 ->
      db w' = db w -> commits w' = commits w -> faults w' = faults w ->
      Q (EnvService.encrypt_with iv text) w') ->
  wp (EnvService.encrypt text) w Q.
Proof.
  intros HQ. unfold wp, EnvService.encrypt, bind, randomBytes, lift.
  cbn [fst snd].
  set (iv := map (fun i => entropy w (drawn w + i)) (seq 0 12)).
  assert (Hiv : List.length iv = 12)
    by (subst iv; rewrite length_map, length_seq; reflexivity).
  specialize (HQ iv (set_drawn (drawn w + 12) w) Hiv eq_refl eq_refl eq_refl).
  destruct (EnvService.encrypt_with iv text); exact HQ.
Qed.

Lemma insertEnvVars_outcome projectId (entries : list (str * str)) :
  forall w,
    wp (ProjectService.insertEnvVars projectId entries) w
      (fun r w' =>
         commits w' = commits w
         /\ match r with
            | Ok _ =>
                exists added,
                  db w'
                  = with_environmentVariables
                      (environmentVariables (db w) ++ added) (db w)
                  /\ Forall2 (storedFor projectId) added entries
            | Throw _ => True
            end).
Proof.
  induction entries as [|[key value] rest IH]; intros w;
    cbn [ProjectService.insertEnvVars].
  - wp_step. split; [reflexivity|]. exists []. split; [|constructor].
    rewrite app_nil_r. destruct (db w); reflexivity.
  - wp_step. apply wp_encrypt. intros iv w1 Hiv Hdb1 Hc1 _.
    destruct (EnvService.encrypt_with iv value) as [stored|message] eqn:E;
      [|auto].
    wp_step. wp_step. wp_step. wp_step. wp_step. wp_step; [auto|].
    eapply wp_mono; [apply IH|].
    intros r w' [Hc Hr]. world. split; [congruence|].
    destruct r as [u|e]; [|exact I].
    destruct Hr as (added & Hdb & Hadded).
    exists (mkEnvironmentVariable (uuids w1) projectId key stored
              (clock w1) (clock w1) :: added).
    split.
    + rewrite Hdb. cbn. rewrite Hdb1, <- app_assoc. reflexivity.
    + constructor; [|exact Hadded].
      repeat split. exists iv. auto.
Qed.

End CreateProject.

Section CreateProjectOutcome.
Context {platform : Platform}.

(** A run of [create]: either it returns the new row, and then one
    transaction was committed that added the row and one variable per
    entry, or it throws and nothing was written. The port of the new
    row is above every port of the table. *)
Lemma ProjectService_create_outcome (data : ProjectData) (w : World) :
  wp (ProjectService.create data) w
    (fun r w' =>
       match r with
       | Ok row =>
           commits w' = db w' :: commits w
           /\ (exists added,
                  db w'
                  = with_environmentVariables
                      (environmentVariables (db w) ++ added)
                      (with_projects (projects (db w) ++ [row]) (db w))
                  /\ Forall2 (storedFor (p_id row)) added
                       (or_else (pd_env_vars data) []))
           /\ (exists port,
                  p_port row = Some port
                  /\ forall p q,
                      In p (projects (db w)) -> p_port p = Some q -> q < port)
       | Throw _ => unchanged w w'
       end).
Proof.
  unfold ProjectService.create, unchanged.
  wp_step. wp_step; [auto|].
  wp_step. apply wp_findPort. intros [port|e] w1 Hdb1 Hc1 Hport; [|auto].
  wp_step. wp_step. wp_step. wp_step. wp_step.
  wp_step. wp_step. wp_step. wp_step. wp_step. wp_step; [auto|].
  assert (Hfresh :
    forall p q, In p (projects (db w)) -> p_port p = Some q -> q < port).
  { intros p q Hin Hq.
    destruct (maxPort_bound _ _ Hin Hq) as (m & Hm & Hle).
    rewrite Hm in Hport. destruct m as [|m]; simpl in Hport; lia. }
  wp_step.
  destruct (pd_env_vars data) as [env_vars|].
  - eapply wp_mono; [apply insertEnvVars_outcome|].
    intros [u|e] w' [Hc Hr]; world.
    + destruct Hr as (added & Hdb & Hadded). wp_step.
      split; [congruence|]. split.
      * exists added. split; [|exact Hadded].
        rewrite Hdb. cbn. rewrite Hdb1. reflexivity.
      * eexists. split; [reflexivity | exact Hfresh].
    + split; congruence.
  - wp_step. wp_step. split; [congruence|]. split.
    + exists []. split; [|constructor].
      cbn. rewrite Hdb1, app_nil_r. reflexivity.
    + eexists. split; [reflexivity | exact Hfresh].
Qed.

End CreateProjectOutcome.

Section StoredValues.
Context {platform : Platform}.

(** What [encrypt] stores under a nonce of 12 bytes, [decrypt] reads
    back, for a cipher whose decryption undoes its encryption under such
    a nonce. *)
Lemma decrypt_encrypt_with (iv : bytes) (v stored : str) :
  (forall iv plaintext encrypted authTag,
      List.length iv = 12 ->
      aes_256_gcm_encrypt ENCRYPTION_KEY iv plaintext
      = Some (encrypted, authTag) ->
      aes_256_gcm_decrypt ENCRYPTION_KEY iv authTag encrypted = Some plaintext
      /\ List.length authTag = 16) ->
  utf8_decode (utf8_encode v) = v ->
  List.length iv = 12 ->
  EnvService.encrypt_with iv v = Ok stored ->
  EnvService.decrypt stored = v.
Proof.
  intros Hgcm Hv Hiv Hstored. unfold EnvService.encrypt_with in Hstored.
  destruct (aes_256_gcm_encrypt ENCRYPTION_KEY iv (utf8_encode v))
    as [[encrypted authTag]|] eqn:E; [|discriminate].
  injection Hstored as <-.
  destruct (Hgcm _ _ _ _ Hiv E) as [Hdec Htag].
  change (Hex.encode iv ++ 58%N :: Hex.encode authTag
          ++ 58%N :: Hex.encode encrypted)
    with (Hex.encode iv ++ EnvService.colon ++ Hex.encode authTag
          ++ EnvService.colon ++ Hex.encode encrypted).
  unfold EnvService.decrypt.
  rewrite includes_stored. cbn [negb].
  rewrite split_stored.
  rewrite !encode_truthy.
  - cbn [negb orb]. rewrite encode_even, !decode_encode, Hdec. exact Hv.
  - intros ->. discriminate Htag.
  - intros ->. discriminate Hiv.
Qed.

End StoredValues.

(** X5. Creating a project is all or nothing: a call that returns has
    committed exactly once, a state in which the new row is the last of
    projects and one environment variable per entry of [env_vars], in
    order and for the new project, is appended to the variables, the
    other tables being as they were; a call that throws has written
    nothing. *)
Theorem project_creation_is_atomic {platform : Platform}
  (data : ProjectData) (w : World) :
  wp (ProjectService.create data) w
    (fun r w' =>
       match r with
       | Ok row =>
           commits w' = db w' :: commits w
           /\ projects (db w') = projects (db w) ++ [row]
           /\ (exists added,
                  environmentVariables (db w')
                  = environmentVariables (db w) ++ added
                  /\ Forall2 (fun x entry =>
                                e_project_id x = p_id row
                                /\ e_key x = fst entry)
                       added (or_else (pd_env_vars data) []))
           /\ builds (db w') = builds (db w)
           /\ deployments (db w') = deployments (db w)
           /\ buildLogs (db w') = buildLogs (db w)
           /\ githubInstallations (db w') = githubInstallations (db w)
       | Throw _ => db w' = db w /\ commits w' = commits w
       end).
Proof.
  eapply wp_mono; [apply ProjectService_create_outcome|].
  intros [row|e] w'; [|auto].
  intros (Hc & (added & Hdb & Hadded) & _).
  split; [exact Hc|]. rewrite Hdb. cbn.
  split; [reflexivity|]. split; [|auto].
  exists added. split; [reflexivity|].
  clear Hdb. induction Hadded as [|x entry added entries Hx _ IH];
    constructor; [|exact IH].
  destruct Hx as (Hp & Hk & _). auto.
Qed.

(** X6. The port given to a new project is above every port already
    assigned to a project. *)
Theorem new_project_port_is_fresh {platform : Platform}
  (data : ProjectData) (w : World) :
  wp (ProjectService.create data) w
    (fun r w' =>
       match r with
       | Ok row =>
           In row (projects (db w'))
           /\ exists port,
               p_port row = Some port
               /\ forall p q,
                   In p (projects (db w)) -> p_port p = Some q -> q < port
       | Throw _ => projects (db w') = projects (db w)
       end).
Proof.
  eapply wp_mono; [apply ProjectService_create_outcome|].
  intros [row|e] w'.
  - intros (_ & (added & Hdb & _) & Hport). split; [|exact Hport].
    rewrite Hdb. cbn. apply in_or_app. right. left. reflexivity.
  - intros [Hdb _]. rewrite Hdb. reflexivity.
Qed.



(** The project is created on port 8002, the first port above the one
    of project hello, and its two variables are stored encrypted. *)
Example create_shop :
  let data :=
    mkProjectData (lit "shop") (lit "https://github.com/acme/shop") None
      (lit "npm run build") vite None
      (Some [(lit "API_KEY", lit "k:1"); (lit "MODE", lit "prod")])
      None None None None None in
  let w := Sample.world Sample.justHello (mkWeather [] [Sample.ok]) in
  let run := @ProjectService.create Sample.platform data w in
  (exists row, fst run = Ok row /\ p_port row = Some 8002)
  /\ map e_key (environmentVariables (db (snd run)))
     = [lit "API_KEY"; lit "MODE"]
  /\ map (fun x => @EnvService.decrypt Sample.platform (e_value x))
       (environmentVariables (db (snd run)))
     = [lit "k:1"; lit "prod"]
  /\ sent (snd run) = [PortsCheck 8002].
Proof. vm_compute. repeat split. eexists. split; reflexivity. Qed.

(** ** Deleting a project, when nothing fails *)

(** A step of a weakest-precondition proof in a world where no statement
    is scheduled to fail. *)
Ltac calm_step :=
  lazymatch goal with
  | |- wp (query _) _ _ => apply wp_query_calm; [world; assumption|]
  | |- wp (execute _) _ _ => apply wp_execute_calm; [world; assumption|]
  | _ => wp_step
  end;
  world.

(** Columns of an updated database. *)
Ltac tables :=
  cbn [projects builds deployments environmentVariables buildLogs
       githubInstallations with_projects with_builds with_deployments
       with_environmentVariables with_buildLogs with_githubInstallations]
    in *.

Lemma filter_negb_filter {A} (f : A -> bool) (l : list A) :
  filter f (filter (fun x => negb (f x)) l) = [].
Proof.
  induction l as [|x l IH]; [reflexivity|].
  simpl. destruct (f x) eqn:E; simpl; [exact IH|].
  rewrite E. exact IH.
Qed.

(** X8. With no failing statement, deleting an existing project returns
    its row, whatever the deploy engine answers to the cleanup call, and
    leaves no row of the project: its environment variables, its
    deployments, its builds with their logs and the project row are
    gone, and the rows of the other projects are all there, in order. *)
Theorem project_deletion_removes_everything {platform : Platform}
  (id : uuid) (project : Project) (w : World) :
  faults w = [] ->
  hd_error (filter (fun p => p_id p =? id) (projects (db w))) = Some project ->
  wp (ProjectService.delete id) w
    (fun r w' =>
       r = Ok (Some project)
       /\ projects (db w')
          = filter (fun p => negb (p_id p =? id)) (projects (db w))
       /\ environmentVariables (db w')
          = filter (fun v => negb (e_project_id v =? id))
                   (environmentVariables (db w))
       /\ deployments (db w')
          = filter (fun x => negb (d_project_id x =? id)) (deployments (db w))
       /\ builds (db w')
          = filter (fun b => negb (b_project_id b =? id)) (builds (db w))
       /\ buildLogs (db w')
          = filter (fun l =>
                      negb (existsb (fun b => b_id b =? l_build_id l)
                              (filter (fun b => b_project_id b =? id)
                                      (builds (db w)))))
                   (buildLogs (db w))
       /\ githubInstallations (db w') = githubInstallations (db w)
       /\ sent w'
          = ProjectDelete (p_id project) (p_port project)
              (subdomainOf project)
              (map b_id (filter (fun b => b_project_id b =? id)
                                (builds (db w))))
            :: sent w).
Proof.
  intros Hcalm Hproject.
  unfold ProjectService.delete, ProjectService.getById.
  calm_step. calm_step. calm_step. calm_step. rewrite Hproject.
  calm_step. calm_step.
  calm_step. unfold ProjectService.cleanup. calm_step. calm_step.
  apply wp_fetch; intros; world.
  all: repeat calm_step.
  all: unfold ProjectService.deleteBuildsOf; tables.
  all: destruct (filter (fun p => p_id p =? id) (projects (db w)))
         as [|found rest] eqn:Hfound; [discriminate Hproject|].
  all: repeat calm_step.
  all: unfold ProjectService.deleteBuildsOf; tables.
  all: rewrite filter_negb_filter; cbn [hd_error]; calm_step.
  all: injection Hproject as ->.
  all: repeat split; reflexivity.
Qed.

Lemma project_deletion_removes_everything_witness :
  let w := Sample.world Sample.building9 (mkWeather [] [Sample.refusal]) in
  let run := @ProjectService.delete Sample.platform 1 w in
  fst run = Ok (Some Sample.hello)
  /\ projects (db (snd run)) = []
  /\ environmentVariables (db (snd run)) = []
  /\ deployments (db (snd run)) = []
  /\ builds (db (snd run)) = []
  /\ buildLogs (db (snd run)) = []
  /\ sent (snd run) = [ProjectDelete 1 (Some 8001) (lit "hello") [3; 9]].
Proof.
  intros w run.
  destruct (@project_deletion_removes_everything Sample.platform 1
              Sample.hello w eq_refl eq_refl)
    as (Hr & Hp & He & Hd & Hb & Hl & _ & Hs).
  fold run in Hr, Hp, He, Hd, Hb, Hl, Hs.
  rewrite Hr, Hp, He, Hd, Hb, Hl, Hs. vm_compute. repeat split.
Defined.

(** X9. Deleting a project that does not exist returns null: no call is
    made to the deploy engine and nothing is written. *)
Theorem deleting_an_unknown_project {platform : Platform}
  (id : uuid) (w : World) :
  filter (fun p => p_id p =? id) (projects (db w)) = [] ->
  wp (ProjectService.delete id) w
    (fun r w' =>
       (r = Ok None \/ r = Throw db_error)
       /\ db w' = db w /\ commits w' = commits w /\ sent w' = sent w).
Proof.
  intros Hnone. unfold ProjectService.delete, ProjectService.getById.
  wp_step. wp_step. wp_step; [auto|]. wp_step. rewrite Hnone.
  cbn [hd_error]. wp_step. auto.
Qed.

Lemma deleting_an_unknown_project_witness :
  let w := Sample.world Sample.deployed Sample.fair in
  let run := @ProjectService.delete Sample.platform 2 w in
  (fst run = Ok None \/ fst run = Throw db_error)
  /\ db (snd run) = db w /\ commits (snd run) = commits w
  /\ sent (snd run) = sent w.
Proof.
  intros w run.
  exact (@deleting_an_unknown_project Sample.platform 2 w eq_refl).
Defined.

(** ** Stopping a deployment *)




(** Project hello is stopped while build 3 is live. *)
Example stop_the_live_build :
  let w := Sample.world Sample.deployed (mkWeather [] [Sample.ok]) in
  let run := DeploymentService.stop 1 w in
  fst run = Ok true
  /\ deployments (db (snd run)) = [mkDeployment 5 1 3 inactive 21]
  /\ sent (snd run) = [Stop 8001 1 3]
  /\ fst (DeploymentService.stop 1 (snd run))
     = Throw (lit "No active deployment found").
Proof. vm_compute. repeat split. Qed.

(** ** Handing a build to the worker *)

Lemma repeat_snoc_cons {A} (a : A) (n : nat) (l : list A) :
  repeat a n ++ a :: l = repeat a (S n) ++ l.
Proof.
  induction n as [|n IH]; [reflexivity|].
  simpl. rewrite IH. reflexivity.
Qed.

Lemma attempts_outcome (limit : nat) (job : Request) :
  forall lastError w,
    wp (BuildService.attempts limit job lastError) w
      (fun r w' =>
         attempted job limit w r w'
         /\ (limit = 0 ->
             r = Ok (mkTriggerResult false (Some lastError)))).
Proof.
  induction limit as [|limit IH]; intros lastError w;
    cbn [BuildService.attempts].
  - wp_step. split; [|reflexivity].
    exists 0, (mkTriggerResult false (Some lastError)).
    split; [reflexivity|]. split; [lia|].
    split; [reflexivity|]. split; [reflexivity|].
    split; [reflexivity|]. split; [reflexivity|]. split; [reflexivity|].
    split; [|reflexivity]. intros k Hk. lia.
  - assert (Hretry :
      forall lastError' w1,
        sent w1 = job :: sent w ->
        replies w1 = tl (replies w) ->
        db w1 = db w -> commits w1 = commits w -> faults w1 = faults w ->
        taken_by_worker (nth_error (replies w) 0) = false ->
        refused_by_worker (nth_error (replies w) 0) = false ->
        wp (BuildService.attempts limit job lastError') w1
          (fun r w' =>
             attempted job (S limit) w r w'
             /\ (S limit = 0 ->
                 r = Ok (mkTriggerResult false (Some lastError))))).
    { intros lastError' w1 Hsent Hreplies Hdb Hc Hf Htaken Hrefused.
      eapply wp_mono; [apply IH|].
      intros r w' [(n & result & Hr & Hn & Hs & Hrep & Hdb' & Hc' & Hf'
                      & Hfirst & Hlast) Hzero].
      split; [|discriminate].
      assert (Hnth : forall k,
                 nth_error (replies w1) k = nth_error (replies w) (S k)).
      { intros k. rewrite Hreplies.
        destruct (replies w); [destruct k|]; reflexivity. }
      exists (S n), result. split; [exact Hr|]. split; [lia|].
      split; [rewrite Hs, Hsent; apply repeat_snoc_cons|].
      split.
      { rewrite Hrep, Hreplies.
        destruct (replies w); [destruct n|]; reflexivity. }
      split; [congruence|]. split; [congruence|]. split; [congruence|].
      split.
      { intros [|k] Hk; [auto|]. rewrite <- Hnth. apply Hfirst. lia. }
      destruct n as [|last].
      - subst limit. specialize (Hzero eq_refl). subst r.
        injection Hzero as ->. cbn [tr_success tr_error].
        rewrite Htaken. split; [reflexivity|].
        split; [discriminate|]. intros _. split; [discriminate | auto].
      - cbv zeta in *. rewrite <- Hnth.
        destruct Hlast as (Hsuccess & Hnone & Hfailed).
        split; [exact Hsuccess|]. split; [exact Hnone|].
        intros Hfalse. destruct (Hfailed Hfalse) as [Herror [Href | Hlimit]];
          split; auto. }
    wp_step. wp_step. wp_step.
    apply wp_fetch; intros; world.
    + (* an answer *)
      destruct (res_ok _) eqn:Hok.
      * wp_step. wp_step. split; [|discriminate].
        exists 1, (mkTriggerResult true None).
        rewrite H. cbn [nth_error taken_by_worker tr_success tr_error].
        rewrite Hok.
        repeat split; auto; try lia; try discriminate.
      * cbn [res_status res_statusText].
        destruct ((400 <=? status) && (status <? 500)) eqn:Hclient.
        -- wp_step. wp_step. split; [|discriminate].
           eexists 1, _. split; [reflexivity|].
           rewrite H.
           cbn [nth_error taken_by_worker refused_by_worker tr_success
                tr_error].
           rewrite Hok. cbn [negb andb].
           apply andb_true_iff in Hclient. destruct Hclient as [-> ->].
           repeat split; auto; try lia; try discriminate.
        -- wp_step. apply Hretry; world; try reflexivity;
             rewrite H; cbn [tl nth_error taken_by_worker refused_by_worker];
             rewrite ?Hok; try reflexivity.
           change (negb false) with true. rewrite andb_true_l. exact Hclient.
    + wp_step. apply Hretry; world; try reflexivity;
        rewrite H; reflexivity.
    + wp_step. apply Hretry; world; try reflexivity;
        rewrite H; reflexivity.
    + wp_step. apply Hretry; world; try reflexivity;
        rewrite H; reflexivity.
Qed.


(** The attempts of [triggerBuildWithRetry], of which there are three. *)
Lemma trigger_outcome (job : Request) (w : World) :
  wp (BuildService.triggerBuildWithRetry job) w
    (fun r w' =>
       exists n result,
         r = Ok result
         /\ 1 <= n <= 3
         /\ sent w' = repeat job n ++ sent w
         /\ replies w' = skipn n (replies w)
         /\ db w' = db w /\ commits w' = commits w /\ faults w' = faults w
         /\ (forall k, S k < n ->
             taken_by_worker (nth_error (replies w) k) = false
             /\ refused_by_worker (nth_error (replies w) k) = false)
         /\ tr_success result
            = taken_by_worker (nth_error (replies w) (n - 1))
         /\ (tr_success result = false ->
             tr_error result <> None
             /\ (refused_by_worker (nth_error (replies w) (n - 1)) = true
                 \/ n = 3))).
Proof.
  unfold BuildService.triggerBuildWithRetry, BuildService.maxRetries.
  eapply wp_mono; [apply attempts_outcome|].
  intros r w' [(n & result & Hr & Hn & Hs & Hrep & Hdb & Hc & Hf & Hfirst
                  & Hlast) _].
  destruct n as [|last]; [discriminate Hlast|].
  exists (S last), result. cbv zeta in Hlast.
  replace (S last - 1) with last by lia.
  destruct Hlast as (Hsuccess & _ & Hfailed).
  split; [exact Hr|]. split; [lia|].
  split; [exact Hs|]. split; [exact Hrep|].
  split; [exact Hdb|]. split; [exact Hc|]. split; [exact Hf|].
  split; [exact Hfirst|]. split; [exact Hsuccess|].
  intros Hfalse. exact (Hfailed Hfalse).
Qed.

(** X11. Handing a build to the worker never throws and takes at most
    three requests, all for the same job: every answer before the last
    was worth another attempt (a 5xx, a network error, a timeout), and
    the last request either was taken by the worker (a 2xx: success),
    or was refused for good (a 4xx: failure at once, with no further
    attempt), or was the third. A failure carries an error text. Nothing
    is written to the database. *)
Theorem trigger_makes_at_most_three_attempts (job : Request) (w : World) :
  wp (BuildService.triggerBuildWithRetry job) w
    (fun r w' =>
       exists n result,
         r = Ok result
         /\ 1 <= n <= 3
         /\ sent w' = repeat job n ++ sent w
         /\ replies w' = skipn n (replies w)
         /\ db w' = db w /\ commits w' = commits w
         /\ (forall k, S k < n ->
             taken_by_worker (nth_error (replies w) k) = false
             /\ refused_by_worker (nth_error (replies w) k) = false)
         /\ tr_success result
            = taken_by_worker (nth_error (replies w) (n - 1))
         /\ (tr_success result = false ->
             tr_error result <> None
             /\ (refused_by_worker (nth_error (replies w) (n - 1)) = true
                 \/ n = 3))).
Proof.
  eapply wp_mono; [apply trigger_outcome|].
  intros r w' (n & result & Hr & Hn & Hs & Hrep & Hdb & Hc & _ & Hrest).
  exists n, result. auto 10.
Qed.

(** The worker answers 503 twice and then takes the job; it refuses
    another job with 422 at once. *)
Example trigger_retries :
  let job := TriggerBuild 9 1 (lit "npm run build") [] in
  let unavailable := Reply 503 (lit "Service Unavailable") [] false in
  let w := Sample.world Sample.building9
             (mkWeather [] [unavailable; unavailable; Sample.ok]) in
  let refusing :=
    Sample.world Sample.building9
      (mkWeather [] [Reply 422 (lit "Unprocessable Entity") [] false;
                     Sample.ok]) in
  BuildService.triggerBuildWithRetry job w
  = (Ok (mkTriggerResult true None),
     set_replies [] (set_sent [job; job; job] w))
  /\ BuildService.triggerBuildWithRetry job refusing
     = (Ok (mkTriggerResult false (Some (lit "Client error: 422"))),
        set_replies [Sample.ok] (set_sent [job] refusing)).
Proof. vm_compute. split; reflexivity. Qed.

(** ** Creating a build *)

Lemma markFailed_new_row id error t (rows : list Build) (build : Build)
  (d : DB) :
  (forall b, In b rows -> b_id b <> id) ->
  b_id build = id ->
  builds d = rows ++ [build] ->
  builds (BuildService.markFailed id error t d)
  = rows
    ++ [mkBuild (b_id build) (b_project_id build) failed (b_commit_sha build)
          (b_commit_message build)
          (Some (lit "Build trigger failed: " ++ or_else error (lit "undefined")))
          (b_artifact_id build) (b_created_at build) (Some t)].
Proof.
  intros Hfresh Hid Hrows. unfold BuildService.markFailed. cbn.
  rewrite Hrows, map_app. cbn. rewrite Hid, Nat.eqb_refl. f_equal.
  rewrite <- (map_id rows) at 2. apply map_ext_in. intros b Hb.
  destruct (Nat.eqb_spec (b_id b) id) as [E|_]; [|reflexivity].
  destruct (Hfresh b Hb E).
Qed.

(** X12. A pending build is left pending only if the worker took it.
    With no failing statement and for an existing project, [create]
    with status pending returns the row it inserted, which says
    pending, after one to three requests to the build worker. If the
    last of them was taken (a 2xx), the row is stored as it was
    returned. If not, the stored row is marked failed, with the time of
    completion and logs that begin with [Build trigger failed: ], though
    the row returned still says pending. *)
Theorem pending_build_is_handed_over {platform : Platform}
  (data : BuildData) (project : Project) (w : World) :
  faults w = [] ->
  bd_status data = pending ->
  hd_error (filter (fun p => p_id p =? bd_project_id data) (projects (db w)))
  = Some project ->
  (forall b, In b (builds (db w)) -> b_id b <> uuids w) ->
  wp (BuildService.create data) w
    (fun r w' =>
       let build :=
         mkBuild (uuids w) (bd_project_id data) pending (bd_commit_sha data)
           (bd_commit_message data) None None (clock w) None in
       r = Ok build
       /\ exists n job stored,
           1 <= n <= 3
           /\ sent w' = repeat job n ++ sent w
           /\ builds (db w') = builds (db w) ++ [stored]
           /\ if taken_by_worker (nth_error (replies w) (n - 1))
              then stored = build
              else b_id stored = b_id build
                   /\ b_project_id stored = b_project_id build
                   /\ b_commit_sha stored = b_commit_sha build
                   /\ b_status stored = failed
                   /\ b_completed_at stored <> None
                   /\ exists error,
                       b_logs stored
                       = Some (lit "Build trigger failed: " ++ error)).
Proof.
  intros Hcalm Hpending Hproject Hfresh.
  unfold BuildService.create. rewrite Hpending. cbn [BuildStatus_eqb].
  calm_step. calm_step. calm_step. calm_step. calm_step. calm_step.
  calm_step. unfold BuildService.handOver, ProjectService.getById.
  calm_step. calm_step. calm_step. calm_step.
  cbn [b_project_id b_id]. tables. rewrite Hproject.
  calm_step. unfold EnvService.getAll. calm_step. calm_step. calm_step.
  calm_step.
  eapply wp_mono; [apply trigger_outcome|].
  intros r w' (n & result & -> & Hn & Hs & Hrep & Hdb & Hc & Hf & _
               & Hsuccess & Hfailed).
  world.
  set (build := mkBuild (uuids w) (bd_project_id data) pending
                  (bd_commit_sha data) (bd_commit_message data) None None
                  (clock w) None) in *.
  destruct (tr_success result) eqn:E; cbn [negb].
  - calm_step. calm_step. split; [reflexivity|].
    eexists n, _, build. split; [exact Hn|]. split; [exact Hs|].
    rewrite <- Hsuccess, Hdb. tables. split; reflexivity.
  - destruct (Hfailed eq_refl) as [Herror _].
    calm_step. calm_step.
    apply wp_execute_calm; [world; congruence|]. world.
    calm_step. split; [reflexivity|].
    eexists n, _, _. split; [exact Hn|]. split; [exact Hs|].
    rewrite <- Hsuccess. split.
    + apply (@markFailed_new_row (uuids w) (tr_error result) (clock w')
               (builds (db w)) build);
        [exact Hfresh | reflexivity | rewrite Hdb; reflexivity].
    + cbn. repeat split; try discriminate. eexists. reflexivity.
Qed.

Lemma pending_build_is_handed_over_witness :
  let data := mkBuildData 1 pending (Some (lit "c2")) None in
  let w := Sample.world Sample.deployed Sample.fair in
  fst (@BuildService.create Sample.platform data w)
  = Ok (mkBuild 100 1 pending (Some (lit "c2")) None None None 100 None)
  /\ exists stored,
      builds (db (snd (@BuildService.create Sample.platform data w)))
      = builds (db w) ++ [stored]
      /\ b_status stored = failed
      /\ b_logs stored = Some (lit "Build trigger failed: fetch failed")
      /\ b_completed_at stored = Some 101.
Proof.
  intros data w.
  assert (Hfresh : forall b, In b (builds (db w)) -> b_id b <> uuids w).
  { intros b [<- | []]. vm_compute. discriminate. }
  destruct (@pending_build_is_handed_over Sample.platform data Sample.hello w
              eq_refl eq_refl eq_refl Hfresh)
    as (Hr & n & job & stored & Hn & Hs & Hb & Hstored).
  split; [exact Hr|].
  eexists. vm_compute. repeat split.
Defined.

(** ** A successful build goes live *)

Lemma wp_tx_execute_calm {A} (write : DB -> A * DB) w
  (Q : Result A -> World -> Prop) :
  faults w = [] ->
  Q (Ok (fst (write (db w)))) (set_db (snd (write (db w))) w) ->
  wp (tx_execute write) w Q.
Proof.
  intros Hcalm HQ. apply wp_statement_calm; [exact Hcalm|].
  unfold wp. cbn. destruct (write (db w)). exact HQ.
Qed.

Ltac calm_tx_step :=
  lazymatch goal with
  | |- wp (tx_execute _) _ _ => apply wp_tx_execute_calm; [world; assumption|]
  | _ => calm_step
  end;
  world.

Lemma updated_row (id : uuid) (change : Build -> Build) (l : list Build) :
  (forall b, b_id (change b) = b_id b) ->
  filter (fun b => b_id b =? id)
    (map (fun b => if b_id b =? id then change b else b) l)
  = map change (filter (fun b => b_id b =? id) l).
Proof.
  intros Hid. induction l as [|b l IH]; [reflexivity|].
  simpl. destruct (b_id b =? id) eqn:E; simpl.
  - rewrite Hid, E, IH. reflexivity.
  - rewrite E. exact IH.
Qed.


Section GoLive.
Context {platform : Platform}.

(** An activation that nothing prevents. *)
Lemma activateBuild_succeeds (projectId buildId : uuid) (project : Project)
  (port : nat) (w : World) :
  faults w = [] ->
  find (fun p => p_id p =? projectId) (projects (db w)) = Some project ->
  truthy_port (p_port project) = Some port ->
  ~ engineFails w ->
  wp (DeploymentService.activateBuild projectId buildId) w
    (fun r w' =>
       r = Ok true
       /\ (exists deploymentId t,
              db w'
              = DeploymentService.promote deploymentId projectId buildId t
                  (db w))
       /\ exists envVars,
           sent w'
           = Activate (p_id project) buildId port (p_app_type project)
               (subdomainOf project) envVars
             :: sent w).
Proof.
  intros Hcalm Hproject Hport Hengine.
  unfold DeploymentService.activateBuild.
  calm_step. calm_step. rewrite Hproject, Hport.
  calm_step. unfold EnvService.getAsRecord, EnvService.getAll.
  calm_step. calm_step. calm_step. calm_step. calm_step. calm_step.
  unfold engineFails in Hengine.
  apply wp_fetch; intros; world;
    try (exfalso; apply Hengine; rewrite H; exact I).
  rewrite H in Hengine.
  destruct (res_ok _) eqn:Hok; [|exfalso; apply Hengine; reflexivity].
  cbn [negb].
  calm_tx_step. calm_tx_step. calm_tx_step. calm_tx_step. calm_tx_step.
  calm_tx_step. calm_tx_step. calm_tx_step. calm_tx_step. calm_tx_step.
  calm_tx_step. calm_tx_step.
  split; [reflexivity|].
  split; [eexists _, _; reflexivity | eexists; reflexivity].
Qed.

End GoLive.

(** X13. A build reported successful goes live. With no failing statement,
    for a build of a project that has a port, and a deploy engine that
    answers the activation with a 2xx, [updateStatus] with status
    success returns the build as successful, has asked the engine to
    activate it, and leaves the project with exactly one active
    deployment, a new one that is for this build. *)
Theorem successful_build_goes_live {platform : Platform}
  (id : uuid) (logs artifactId : option str) (build : Build)
  (project : Project) (port : nat) (w : World) :
  faults w = [] ->
  hd_error (filter (fun b => b_id b =? id) (builds (db w))) = Some build ->
  find (fun p => p_id p =? b_project_id build) (projects (db w))
  = Some project ->
  truthy_port (p_port project) = Some port ->
  ~ engineFails w ->
  wp (BuildService.updateStatus id success logs artifactId) w
    (fun r w' =>
       (exists updated,
           r = Ok (Some updated)
           /\ b_id updated = b_id build
           /\ b_project_id updated = b_project_id build
           /\ b_status updated = success)
       /\ activeCount (b_project_id build) (db w') = 1
       /\ (exists deploymentId t,
              In (mkDeployment deploymentId (b_project_id build) id active t)
                 (deployments (db w')))
       /\ exists envVars,
           sent w'
           = Activate (p_id project) id port (p_app_type project)
               (subdomainOf project) envVars
             :: sent w).
Proof.
  intros Hcalm Hbuild Hproject Hport Hengine.
  unfold BuildService.updateStatus, completedAt. cbn [is_terminal].
  calm_step. calm_step. calm_step. calm_step. calm_step. calm_step.
  calm_step. calm_step. calm_step. calm_step. calm_step. calm_step.
  unfold updateBuilds. cbn [fst snd]. tables.
  rewrite updated_row by reflexivity.
  destruct (filter (fun b => b_id b =? id) (builds (db w)))
    as [|found rest] eqn:Hfound; [discriminate Hbuild|].
  injection Hbuild as ->. cbn [map hd_error b_project_id setStatus].
  calm_step. calm_step. calm_step.
  eapply wp_mono.
  { apply (@activateBuild_succeeds platform (b_project_id build) id project port);
      world; tables; assumption. }
  intros r w' (-> & (deploymentId & t & Hdb) & envVars & Hsent). world.
  calm_step. calm_step.
  split; [eexists; repeat split; reflexivity|].
  rewrite Hdb. split; [|split].
  - rewrite activeCount_promote, Nat.eqb_refl. reflexivity.
  - exists deploymentId, t.
    unfold DeploymentService.promote, DeploymentService.insertActive.
    tables. apply in_or_app. right. left. reflexivity.
  - exists envVars. exact Hsent.
Qed.

Lemma successful_build_goes_live_witness :
  let w := Sample.world Sample.building9 (mkWeather [] [Sample.ok]) in
  let run := @BuildService.updateStatus Sample.platform 9 success None None w in
  (exists updated, fst run = Ok (Some updated) /\ b_status updated = success)
  /\ activeCount 1 (db (snd run)) = 1
  /\ deployments (db (snd run))
     = [mkDeployment 5 1 3 inactive 21; mkDeployment 100 1 9 active 103].
Proof.
  intros w run.
  destruct (@successful_build_goes_live Sample.platform 9 None None
              (mkBuild 9 1 building (Some (lit "c1")) (Some (lit "second"))
                 None None 30 None)
              Sample.hello 8001 w eq_refl eq_refl eq_refl eq_refl)
    as ((updated & Hr & _ & _ & Hstatus) & Hcount & _).
  - vm_compute. intros H. discriminate H.
  - split; [exists updated; split; assumption|].
    split; [exact Hcount|]. vm_compute. reflexivity.
Defined.

(** ** The counters of a push *)

Section PushCounters.
Context {platform : Platform}.

Lemma markFailed_length id error t d :
  List.length (builds (BuildService.markFailed id error t d))
  = List.length (builds d).
Proof. unfold BuildService.markFailed. cbn. apply length_map. Qed.

Lemma handOver_returns (build : Build) (w : World) :
  faults w = [] ->
  wp (BuildService.handOver build) w
    (fun r w' =>
       r = Ok tt /\ faults w' = []
       /\ List.length (builds (db w')) = List.length (builds (db w))).
Proof.
  intros Hcalm. unfold BuildService.handOver, ProjectService.getById.
  calm_step. calm_step. calm_step. calm_step.
  destruct (hd_error _) as [project|]; [|calm_step; auto].
  calm_step. unfold EnvService.getAll. calm_step. calm_step. calm_step.
  calm_step.
  eapply wp_mono; [apply trigger_outcome|].
  intros r w' (n & result & -> & _ & _ & _ & Hdb & _ & Hf & _).
  world.
  destruct (tr_success result); cbn [negb].
  - calm_step. rewrite Hdb. repeat split. congruence.
  - calm_step. calm_step.
    apply wp_execute_calm; [world; congruence|]. world.
    rewrite markFailed_length, Hdb. repeat split. congruence.
Qed.

Lemma create_returns (data : BuildData) (w : World) :
  faults w = [] ->
  wp (BuildService.create data) w
    (fun r w' =>
       (exists build, r = Ok build) /\ faults w' = []
       /\ List.length (builds (db w')) = S (List.length (builds (db w)))).
Proof.
  intros Hcalm. unfold BuildService.create.
  calm_step. calm_step. calm_step. calm_step. calm_step. calm_step.
  assert (Hlen :
    List.length (builds (db w) ++
                 [mkBuild (uuids w) (bd_project_id data) (bd_status data)
                    (bd_commit_sha data) (bd_commit_message data) None None
                    (clock w) None])
    = S (List.length (builds (db w))))
    by (rewrite length_app; simpl; lia).
  calm_step.
  destruct (BuildStatus_eqb _ _).
  - eapply wp_mono; [apply handOver_returns; world; assumption|].
    intros r w' (-> & Hf & Hb). world. tables. calm_step.
    split; [eexists; reflexivity|]. split; [exact Hf|].
    rewrite Hb. exact Hlen.
  - calm_step. calm_step. tables.
    split; [eexists; reflexivity|]. split; [exact Hcalm | exact Hlen].
Qed.

Lemma pushLoop_counts (connectedProjects : list Project)
  (commitSha commitMessage : option str) :
  forall buildsTriggered buildsSkipped w,
    faults w = [] ->
    wp (githubWebhook.pushLoop connectedProjects commitSha commitMessage
          buildsTriggered buildsSkipped) w
      (fun r w' =>
         faults w' = []
         /\ exists triggered skipped,
             r = Ok (buildsTriggered + triggered, buildsSkipped + skipped)
             /\ triggered + skipped = List.length connectedProjects
             /\ List.length (builds (db w'))
                = List.length (builds (db w)) + triggered).
Proof.
  induction connectedProjects as [|project rest IH];
    intros buildsTriggered buildsSkipped w Hcalm;
    cbn [githubWebhook.pushLoop].
  - calm_step. split; [exact Hcalm|]. exists 0, 0.
    rewrite !Nat.add_0_r. auto.
  - assert (Hskip :
      wp (githubWebhook.pushLoop rest commitSha commitMessage
            buildsTriggered (S buildsSkipped)) w
        (fun r w' =>
           faults w' = []
           /\ exists triggered skipped,
               r = Ok (buildsTriggered + triggered, buildsSkipped + skipped)
               /\ triggered + skipped = List.length (project :: rest)
               /\ List.length (builds (db w'))
                  = List.length (builds (db w)) + triggered)).
    { eapply wp_mono; [apply IH; exact Hcalm|].
      intros r w' (Hf & triggered & skipped & -> & Hsum & Hb).
      split; [exact Hf|]. exists triggered, (S skipped).
      split; [f_equal; f_equal; lia|]. split; [simpl; lia | exact Hb]. }
    destruct (negb (p_auto_deploy project)); [exact Hskip|].
    calm_step.
    assert (Hbuild :
      wp (created <-
            try_catch
              (BuildService.create
                 (mkBuildData (p_id project) pending commitSha commitMessage) ;;
               ret true)
              (fun _ => ret false) ;;
          githubWebhook.pushLoop rest commitSha commitMessage
            (if (created : bool) then S buildsTriggered else buildsTriggered)
            buildsSkipped) w
        (fun r w' =>
           faults w' = []
           /\ exists triggered skipped,
               r = Ok (buildsTriggered + triggered, buildsSkipped + skipped)
               /\ triggered + skipped = List.length (project :: rest)
               /\ List.length (builds (db w'))
                  = List.length (builds (db w)) + triggered)).
    { calm_step. calm_step. calm_step.
      eapply wp_mono; [apply create_returns; exact Hcalm|].
      intros r w1 ((build & ->) & Hf1 & Hb1). calm_step.
      eapply wp_mono; [apply IH; exact Hf1|].
      intros r w' (Hf & triggered & skipped & -> & Hsum & Hb).
      split; [exact Hf|]. exists (S triggered), skipped.
      split; [f_equal; f_equal; lia|]. split; [simpl; lia|]. lia. }
    destruct (Js.truthy_opt commitSha).
    + calm_step. calm_step. calm_step.
      destruct (0 <? _); [exact Hskip | exact Hbuild].
    + calm_step. exact Hbuild.
Qed.

End PushCounters.

(** X14. With no failing statement, a push counts every connected project
    once: the answer is 200 and, when some project is connected to the
    repository and branch, [builds_triggered] and [builds_skipped] add
    up to the number of connected projects, and [builds_triggered] is
    the number of rows added to builds; with no connected project the
    answer says [builds_triggered: 0] and no row is added. *)
Theorem push_counts_every_project {platform : Platform}
  (repoId branch : str) (commitSha commitMessage : option str) (w : World) :
  faults w = [] ->
  wp (githubWebhook.triggerBuilds repoId branch commitSha commitMessage) w
    (fun r w' =>
       let connectedProjects :=
         filter (fun p => sql_eq (p_github_repo_id p) repoId
                          && sql_eq (p_github_branch p) branch)
                (projects (db w)) in
       exists triggered skipped,
         triggered + skipped = List.length connectedProjects
         /\ List.length (builds (db w'))
            = List.length (builds (db w)) + triggered
         /\ r = Ok (mkHttpResult 200
                      (JObject
                         (match connectedProjects with
                          | [] => [("processed", JBool true);
                                   ("builds_triggered", JNumber 0)]
                          | _ :: _ =>
                              [("processed", JBool true);
                               ("builds_triggered", JNumber triggered);
                               ("builds_skipped", JNumber skipped)]
                          end)%string))).
Proof.
  intros Hcalm. unfold githubWebhook.triggerBuilds.
  calm_step. calm_step.
  destruct (filter _ (projects (db w))) as [|project rest] eqn:Hconnected.
  - calm_step. exists 0, 0. auto.
  - calm_step.
    eapply wp_mono; [apply pushLoop_counts; exact Hcalm|].
    intros r w' (_ & triggered & skipped & -> & Hsum & Hb).
    calm_step. exists triggered, skipped. auto.
Qed.

Lemma push_counts_every_project_witness :
  let w := Sample.world Sample.justHello (mkWeather [] [Sample.ok]) in
  let run :=
    @githubWebhook.triggerBuilds Sample.platform (lit "42") (lit "main")
      (Some (lit "c1")) None w in
  fst run
  = Ok (mkHttpResult 200
          (JObject [("processed", JBool true);
                    ("builds_triggered", JNumber 1);
                    ("builds_skipped", JNumber 0)]%string))
  /\ List.length (builds (db (snd run))) = 1.
Proof.
  intros w run.
  destruct (@push_counts_every_project Sample.platform (lit "42") (lit "main")
              (Some (lit "c1")) None w eq_refl)
    as (triggered & skipped & Hsum & Hb & Hr).
  split; vm_compute; reflexivity.
Defined.

(** ** Answers of the routes *)

Ltac nothing_written :=
  right; split;
  [ first [left; reflexivity | right; reflexivity]
  | split; first [reflexivity | assumption] ].

(** X15. [POST /deploy/build/:id/activate] never fails with a 500: it
    answers 200 after having committed the promotion of the build in
    its project, and in every other case 404 (no such build) or 400
    (with the message of the error), having written nothing. *)
Theorem activate_route_answers {platform : Platform} (id : uuid) (w : World) :
  wp (deploymentsRoutes.activate id) w
    (fun r w' =>
       exists status body,
         r = Ok (mkHttpResult status body)
         /\ ((status = 200
              /\ body = JObject [("success", JBool true)]%string
              /\ exists build deploymentId t,
                  In build (builds (db w))
                  /\ b_id build = id
                  /\ db w'
                     = DeploymentService.promote deploymentId
                         (b_project_id build) id t (db w)
                  /\ commits w' = db w' :: commits w)
             \/ ((status = 404 \/ status = 400)
                 /\ db w' = db w /\ commits w' = commits w))).
Proof.
  unfold deploymentsRoutes.activate, BuildService.getById.
  wp_step. wp_step. wp_step. wp_step.
  { wp_step. eexists _, _. split; [reflexivity|]. nothing_written. }
  wp_step.
  destruct (hd_error _) as [build|] eqn:Hbuild.
  - assert (Hin : In build (builds (db w)) /\ b_id build = id).
    { destruct (filter _ (builds (db w))) as [|found rest] eqn:Hfound;
        [discriminate Hbuild|].
      injection Hbuild as ->.
      assert (H : In build (filter (fun b => b_id b =? id) (builds (db w))))
        by (rewrite Hfound; left; reflexivity).
      apply filter_In in H. destruct H as [H1 H2].
      apply Nat.eqb_eq in H2. auto. }
    destruct Hin as [Hin Hid].
    wp_step.
    eapply wp_mono; [apply activateBuild_outcome|].
    intros [v|e] w'; world.
    + intros (_ & (deploymentId & t & Hdb) & Hc). wp_step.
      eexists _, _. split; [reflexivity|]. left.
      split; [reflexivity|]. split; [reflexivity|].
      exists build, deploymentId, t. rewrite Hid in *. auto.
    + intros [Hdb Hc]. wp_step.
      eexists _, _. split; [reflexivity|]. nothing_written.
  - wp_step. eexists _, _. split; [reflexivity|]. nothing_written.
Qed.

(** X16. [GET /projects/:id] never shows the port: it answers 404 when no
    project has the id, and otherwise 200 with the columns of the
    project except [port]; it writes nothing. *)
Theorem get_project_hides_the_port (id : uuid) (w : World) :
  wp (projectsRoutes.get_one id) w
    (fun r w' =>
       db w' = db w
       /\ match r with
          | Ok (mkHttpResult status body) =>
              match hd_error (filter (fun p => p_id p =? id) (projects (db w)))
              with
              | Some project =>
                  status = 200
                  /\ body = JObject (omit "port" (Project_object project))
                  /\ has_property "port" (omit "port" (Project_object project))
                     = false
                  /\ has_property "name" (omit "port" (Project_object project))
                     = true
              | None =>
                  status = 404
                  /\ body = error_body (lit "Project not found")
              end
          | Throw message => message = db_error
          end).
Proof.
  unfold projectsRoutes.get_one, ProjectService.getById.
  wp_step. wp_step. wp_step; [auto|]. wp_step.
  destruct (hd_error _) as [project|]; wp_step; repeat split; reflexivity.
Qed.

(** ** Setting and deleting an environment variable *)

Section EnvVars.
Context {platform : Platform}.

Lemma conflicts_filter_update (projectId : uuid) (key updated : str)
  (l : list EnvironmentVariable) :
  let update v :=
    if EnvService.conflicts projectId key v
    then mkEnvironmentVariable (e_id v) (e_project_id v) (e_key v) updated
           (e_created_at v) (e_updated_at v)
    else v in
  filter (EnvService.conflicts projectId key) (map update l)
  = map update (filter (EnvService.conflicts projectId key) l)
  /\ filter (fun v => negb (EnvService.conflicts projectId key v))
       (map update l)
     = filter (fun v => negb (EnvService.conflicts projectId key v)) l.
Proof.
  cbv zeta. induction l as [|v l [IH1 IH2]]; [split; reflexivity|].
  cbn [map filter].
  destruct (EnvService.conflicts projectId key v) eqn:E.
  - assert (E' :
      EnvService.conflicts projectId key
        (mkEnvironmentVariable (e_id v) (e_project_id v) (e_key v) updated
           (e_created_at v) (e_updated_at v)) = true) by exact E.
    rewrite E'. cbn [negb map]. rewrite E, IH1, IH2. split; reflexivity.
  - rewrite E. cbn [negb]. rewrite IH1, IH2. split; reflexivity.
Qed.

Lemma existsb_filter_nonempty {A} (f : A -> bool) (l : list A) :
  existsb f l = true -> filter f l <> [].
Proof.
  induction l as [|x l IH]; [discriminate|].
  simpl. destruct (f x); [discriminate|]. exact IH.
Qed.

Lemma existsb_filter_empty {A} (f : A -> bool) (l : list A) :
  existsb f l = false -> filter f l = [].
Proof.
  induction l as [|x l IH]; [reflexivity|].
  simpl. destruct (f x); [discriminate|]. exact IH.
Qed.

End EnvVars.

(** X17. Setting an environment variable is an upsert on the project and
    the key. With no failing statement, a cipher that encrypts under
    nonces of 12 bytes and whose decryption undoes that, and a value the
    UTF-8 codec carries there and back, [EnvService.create] returns a
    row of the project and key whose stored value decrypts to the value
    given, and so does every row of the project and key afterwards; there
    is one such row if there was none, and as many as before otherwise;
    the rows of other projects and keys are as they were. *)
Theorem env_var_is_upserted {platform : Platform}
  (projectId : uuid) (key value : str) (w : World) :
  (forall iv plaintext,
      List.length iv = 12 ->
      aes_256_gcm_encrypt ENCRYPTION_KEY iv plaintext <> None) ->
  (forall iv plaintext encrypted authTag,
      List.length iv = 12 ->
      aes_256_gcm_encrypt ENCRYPTION_KEY iv plaintext
      = Some (encrypted, authTag) ->
      aes_256_gcm_decrypt ENCRYPTION_KEY iv authTag encrypted = Some plaintext
      /\ List.length authTag = 16) ->
  utf8_decode (utf8_encode value) = value ->
  faults w = [] ->
  wp (EnvService.create projectId key value) w
    (fun r w' =>
       let mine := EnvService.conflicts projectId key in
       (exists row,
           r = Ok (Some row)
           /\ In row (environmentVariables (db w'))
           /\ mine row = true)
       /\ (forall x,
              In x (environmentVariables (db w')) -> mine x = true ->
              EnvService.decrypt (e_value x) = value)
       /\ List.length (filter mine (environmentVariables (db w')))
          = Nat.max 1 (List.length (filter mine (environmentVariables (db w))))
       /\ filter (fun v => negb (mine v)) (environmentVariables (db w'))
          = filter (fun v => negb (mine v)) (environmentVariables (db w))).
Proof.
  intros Hkey Hgcm Hutf8 Hcalm. unfold EnvService.create.
  wp_step. apply wp_encrypt. intros iv1 w1 Hiv1 Hdb1 Hc1 Hf1.
  destruct (EnvService.encrypt_with iv1 value) as [inserted|e] eqn:E1.
  2:{ unfold EnvService.encrypt_with in E1.
      destruct (aes_256_gcm_encrypt _ _ _) as [[? ?]|] eqn:E;
        [discriminate | destruct (Hkey _ _ Hiv1 E)]. }
  wp_step. apply wp_encrypt. intros iv2 w2 Hiv2 Hdb2 Hc2 Hf2.
  destruct (EnvService.encrypt_with iv2 value) as [updated|e] eqn:E2.
  2:{ unfold EnvService.encrypt_with in E2.
      destruct (aes_256_gcm_encrypt _ _ _) as [[? ?]|] eqn:E;
        [discriminate | destruct (Hkey _ _ Hiv2 E)]. }
  assert (Hinserted : EnvService.decrypt inserted = value)
    by (apply (decrypt_encrypt_with iv1); assumption).
  assert (Hupdated : EnvService.decrypt updated = value)
    by (apply (decrypt_encrypt_with iv2); assumption).
  wp_step. wp_step. wp_step. wp_step. wp_step.
  apply wp_execute_calm; [world; congruence|]. world.
  wp_step. unfold EnvService.upsert. tables.
  rewrite Hdb2, Hdb1.
  set (mine := EnvService.conflicts projectId key).
  destruct (existsb mine (environmentVariables (db w))) eqn:Hexists.
  - destruct (conflicts_filter_update projectId key updated
                (environmentVariables (db w))) as [Hmine Hothers].
    fold mine in Hmine, Hothers. rewrite Hmine, Hothers.
    pose proof (existsb_filter_nonempty _ _ Hexists) as Hnonempty.
    destruct (filter mine (environmentVariables (db w)))
      as [|first rest] eqn:Hfilter; [congruence|].
    assert (Hfirst : mine first = true).
    { assert (H : In first (filter mine (environmentVariables (db w))))
        by (rewrite Hfilter; left; reflexivity).
      apply filter_In in H. apply H. }
    split; [|split; [|split]].
    + eexists. split; [reflexivity|]. rewrite Hfirst. cbn [map hd_error].
      split; [|exact Hfirst].
      assert (H : In first (environmentVariables (db w))).
      { assert (H : In first (filter mine (environmentVariables (db w))))
          by (rewrite Hfilter; left; reflexivity).
        apply filter_In in H. apply H. }
      apply (in_map (fun v =>
                       if mine v
                       then mkEnvironmentVariable (e_id v) (e_project_id v)
                              (e_key v) updated (e_created_at v)
                              (e_updated_at v)
                       else v)) in H.
      rewrite Hfirst in H. exact H.
    + intros x Hx Hmx. apply in_map_iff in Hx.
      destruct Hx as (v & <- & _).
      destruct (mine v) eqn:Hv; [exact Hupdated|].
      rewrite Hv in Hmx. discriminate.
    + rewrite length_map. simpl. lia.
    + reflexivity.
  - pose proof (existsb_filter_empty _ _ Hexists) as Hempty.
    assert (Hnew :
      mine (mkEnvironmentVariable (uuids w2) projectId key inserted
              (clock w2) (clock w2)) = true).
    { unfold mine, EnvService.conflicts. cbn.
      rewrite Nat.eqb_refl, eqb_refl. reflexivity. }
    rewrite !filter_app, Hempty. cbn [filter app]. rewrite Hnew.
    cbn [negb hd_error List.length app]. rewrite app_nil_r.
    split; [|split; [|split]].
    + eexists. split; [reflexivity|]. split; [|exact Hnew].
      apply in_or_app. right. left. reflexivity.
    + intros x Hx Hmx. apply in_app_or in Hx. destruct Hx as [Hx|[<-|[]]].
      * assert (H : In x (filter mine (environmentVariables (db w))))
          by (apply filter_In; auto).
        rewrite Hempty in H. destruct H.
      * exact Hinserted.
    + reflexivity.
    + reflexivity.
Qed.

Lemma env_var_is_upserted_witness :
  let w := Sample.world Sample.deployed Sample.fair in
  let run :=
    @EnvService.create Sample.platform 1 (lit "API_KEY") (lit "k:2") w in
  (exists row, fst run = Ok (Some row) /\ e_id row = 6)
  /\ map (fun x => (e_key x, @EnvService.decrypt Sample.platform (e_value x)))
       (environmentVariables (db (snd run)))
     = [(lit "API_KEY", lit "k:2")].
Proof.
  intros w run.
  destruct (@env_var_is_upserted Sample.platform 1 (lit "API_KEY") (lit "k:2")
              w sample_cipher_accepts_key sample_cipher_correct)
    as ((row & Hr & Hin & Hmine) & Hall & Hcount & Hothers).
  - vm_compute. reflexivity.
  - reflexivity.
  - split; [|vm_compute; reflexivity].
    eexists. split; vm_compute; reflexivity.
Defined.

Lemma filter_negb_all {A} (f : A -> bool) (l : list A) :
  existsb f l = false -> filter (fun x => negb (f x)) l = l.
Proof.
  induction l as [|x l IH]; [reflexivity|].
  simpl. destruct (f x); simpl; [discriminate|].
  intros H. rewrite IH by exact H. reflexivity.
Qed.

(** X18. Setting a variable that the project does not have and deleting
    it again leaves the table of environment variables as it was. This
    with no failing statement, and a key with which the cipher encrypts
    under nonces of 12 bytes. *)
Theorem env_var_set_then_deleted {platform : Platform}
  (projectId : uuid) (key value : str) (w : World) :
  (forall iv plaintext,
      List.length iv = 12 ->
      aes_256_gcm_encrypt ENCRYPTION_KEY iv plaintext <> None) ->
  faults w = [] ->
  existsb (EnvService.conflicts projectId key) (environmentVariables (db w))
  = false ->
  wp (EnvService.create projectId key value ;;
      EnvService.delete projectId key) w
    (fun r w' =>
       r = Ok true
       /\ environmentVariables (db w') = environmentVariables (db w)
       /\ List.length (commits w') = 2 + List.length (commits w)).
Proof.
  intros Hkey Hcalm Habsent. unfold EnvService.create, EnvService.delete.
  wp_step. wp_step. apply wp_encrypt. intros iv1 w1 Hiv1 Hdb1 Hc1 Hf1.
  destruct (EnvService.encrypt_with iv1 value) as [inserted|e] eqn:E1.
  2:{ unfold EnvService.encrypt_with in E1.
      destruct (aes_256_gcm_encrypt _ _ _) as [[? ?]|] eqn:E;
        [discriminate | destruct (Hkey _ _ Hiv1 E)]. }
  wp_step. apply wp_encrypt. intros iv2 w2 Hiv2 Hdb2 Hc2 Hf2.
  destruct (EnvService.encrypt_with iv2 value) as [updated|e] eqn:E2.
  2:{ unfold EnvService.encrypt_with in E2.
      destruct (aes_256_gcm_encrypt _ _ _) as [[? ?]|] eqn:E;
        [discriminate | destruct (Hkey _ _ Hiv2 E)]. }
  wp_step. wp_step. wp_step. wp_step. wp_step.
  apply wp_execute_calm; [world; congruence|]. world.
  wp_step. wp_step.
  apply wp_execute_calm; [world; congruence|]. world.
  wp_step. unfold EnvService.upsert. tables.
  rewrite Hdb2, Hdb1, Habsent, Hc2, Hc1.
  split; [reflexivity|]. split; [|reflexivity].
  rewrite filter_app. cbn [filter].
  assert (Hnew :
    EnvService.conflicts projectId key
      (mkEnvironmentVariable (uuids w2) projectId key inserted
         (clock w2) (clock w2)) = true).
  { unfold EnvService.conflicts. cbn.
    rewrite Nat.eqb_refl, eqb_refl. reflexivity. }
  rewrite Hnew. cbn [negb]. rewrite app_nil_r.
  apply filter_negb_all. exact Habsent.
Qed.

Lemma env_var_set_then_deleted_witness :
  let w := Sample.world Sample.deployed Sample.fair in
  wp (@EnvService.create Sample.platform 1 (lit "MODE") (lit "prod") ;;
      @EnvService.delete 1 (lit "MODE")) w
    (fun r w' =>
       r = Ok true
       /\ environmentVariables (db w') = environmentVariables (db w)
       /\ List.length (commits w') = 2 + List.length (commits w)).
Proof.
  intros w.
  exact (@env_var_set_then_deleted Sample.platform 1 (lit "MODE") (lit "prod")
           w sample_cipher_accepts_key eq_refl eq_refl).
Defined.
